(** * Poop Quest: the content submission and metadata pipeline

    A shallow embedding of the JavaScript sources of the submission
    pipeline (slug utility, HTML security utilities, language-model
    client, content analyzer, post model and the [!poop] command
    handler), together with the properties established about them.

    Strings are lists of characters.  A character is an 8-bit code
    unit (Latin-1), which is the range the diacritics table of
    [slug-sanitizer.js] lives in; character classes such as [\s], [\w]
    and the case mappings are the JavaScript ones restricted to that
    range. *)

From Stdlib Require Import String Ascii Bool Arith NArith Lia DecimalString List.
Import ListNotations.
Open Scope string_scope.
Open Scope nat_scope.
Open Scope list_scope.

Set Implicit Arguments.

(** ** Strings and characters *)

Definition str := list ascii.

(** String literals of the source are written [lit "..."]. *)
Definition lit (s : string) : str := list_ascii_of_string s.

Definition code (c : ascii) : nat := nat_of_ascii c.

Definition in_range (lo hi : nat) (c : ascii) : bool :=
  (lo <=? code c) && (code c <=? hi).

Definition isUpper (c : ascii) : bool := in_range 65 90 c.
Definition isLower (c : ascii) : bool := in_range 97 122 c.
Definition isDigit (c : ascii) : bool := in_range 48 57 c.
Definition isAlpha (c : ascii) : bool := isUpper c || isLower c.
Definition isAlnum (c : ascii) : bool := isAlpha c || isDigit c.

(** [\w] *)
Definition isWord (c : ascii) : bool := isAlnum c || (c =? "_")%char.

(** [\s], which is also the set removed by [String.prototype.trim]:
    TAB, LF, VT, FF, CR, SPACE and NBSP. *)
Definition isSpace (c : ascii) : bool :=
  in_range 9 13 c || (code c =? 32) || (code c =? 160).

Definition eqc (x : ascii) (c : ascii) : bool := (c =? x)%char.
Definition oneOf (xs : string) (c : ascii) : bool :=
  existsb (Ascii.eqb c) (lit xs).
Definition notb (p : ascii -> bool) (c : ascii) : bool := negb (p c).
Definition orb2 (p q : ascii -> bool) (c : ascii) : bool := p c || q c.

(** [String.prototype.toLowerCase] on one code unit: [A-Z] and the
    Latin-1 capitals [À-Þ] (but not the multiplication sign). *)
Definition lowerChar (c : ascii) : ascii :=
  if isUpper c || (in_range 192 222 c && negb (code c =? 215))
  then ascii_of_nat (code c + 32) else c.

Definition toLowerCase (s : str) : str := map lowerChar s.

Fixpoint dropWhile (p : ascii -> bool) (s : str) : str :=
  match s with
  | [] => []
  | c :: t => if p c then dropWhile p t else s
  end.

Definition dropWhileEnd (p : ascii -> bool) (s : str) : str :=
  rev (dropWhile p (rev s)).

(** [String.prototype.trim] *)
Definition trim (s : str) : str := dropWhileEnd isSpace (dropWhile isSpace s).

Fixpoint str_eqb (a b : str) : bool :=
  match a, b with
  | [], [] => true
  | x :: a', y :: b' => (x =? y)%char && str_eqb a' b'
  | _, _ => false
  end.

Fixpoint startsWith (p s : str) : bool :=
  match p, s with
  | [], _ => true
  | _ :: _, [] => false
  | a :: p', b :: s' => (a =? b)%char && startsWith p' s'
  end.

(** [String.prototype.includes] *)
Fixpoint includes (needle s : str) : bool :=
  startsWith needle s ||
  match s with
  | [] => false
  | _ :: t => includes needle t
  end.

(** [s.substring(0, n)] *)
Definition substring0 (n : nat) (s : str) : str := firstn n s.

(** Truthiness of a string: [!s] holds exactly for the empty string. *)
Definition blank (s : str) : bool :=
  match s with [] => true | _ => false end.

(** [!s || s.trim() === ''] *)
Definition isBlank (s : str) : bool :=
  blank s || blank (trim s).

Fixpoint joinWith (sep : str) (xs : list str) : str :=
  match xs with
  | [] => []
  | [x] => x
  | x :: rest => x ++ sep ++ joinWith sep rest
  end.

Definition lits (xs : list string) : list str := map lit xs.

(** The two quote characters, by code. *)
Definition dquote : ascii := "034"%char.
Definition squote : ascii := "039"%char.

(** [Array.prototype.includes] on strings *)
Definition mem (x : str) (xs : list str) : bool := existsb (str_eqb x) xs.

(** Lookup in an object literal used as a table. *)
Fixpoint assoc (k : str) (tbl : list (str * str)) : option str :=
  match tbl with
  | [] => None
  | (k', v) :: rest => if str_eqb k k' then Some v else assoc k rest
  end.

(** ** Regular expressions

    The sources are written almost entirely with regular-expression
    literals.  They are embedded as syntax trees and run by a
    backtracking matcher with the priorities of the JavaScript one:
    alternatives left to right, greedy repetition longest first, lazy
    repetition shortest first. *)

Module Regex.

Inductive re : Type :=
| Eps
| Chr (p : ascii -> bool)          (* one character of a class          *)
| Seq (a b : re)
| Alt (a b : re)
| Star (a : re)                    (* a*   greedy                       *)
| LazyStar (a : re)                (* a*?                               *)
| NotAhead (a : re)                (* (?!a)                             *)
| Bos                              (* ^    (no m flag in the sources)   *)
| Eos                              (* $                                 *)
| WordB                            (* \b                                *)
| Group (i : nat) (a : re)         (* capturing group number i          *)
| Backref (ci : bool) (i : nat).   (* \i, case-insensitive when ci      *)

Definition Plus (a : re) : re := Seq a (Star a).
Definition Opt (a : re) : re := Alt a Eps.

Fixpoint Seqs (rs : list re) : re :=
  match rs with
  | [] => Eps
  | [r] => r
  | r :: rest => Seq r (Seqs rest)
  end.

Fixpoint Alts (rs : list re) : re :=
  match rs with
  | [] => NotAhead Eps
  | [r] => r
  | r :: rest => Alt r (Alts rest)
  end.

(** A literal word, matched exactly or (flag [i]) up to ASCII case. *)
Definition Lit (s : string) : re := Seqs (map (fun x => Chr (eqc x)) (lit s)).
Definition LitI (s : string) : re :=
  Seqs (map (fun x => Chr (fun c => (lowerChar c =? lowerChar x)%char)) (lit s)).

Definition Caps := list (nat * str).

Fixpoint getCap (i : nat) (cs : Caps) : option str :=
  match cs with
  | [] => None
  | (j, w) :: rest => if i =? j then Some w else getCap i rest
  end.

(** The state of one match attempt: the character before the current
    position, the remaining input, the number of characters consumed
    since the attempt started, and the captures so far. *)
Record MState : Type := mkM {
  prev : option ascii;
  rest : str;
  pos  : nat;
  caps : Caps
}.

Definition isWordOpt (o : option ascii) : bool :=
  match o with Some c => isWord c | None => false end.

Fixpoint consume (ci : bool) (w : str) (st : MState) : option MState :=
  match w with
  | [] => Some st
  | x :: w' =>
      match rest st with
      | c :: t =>
          if (if ci then lowerChar c =? lowerChar x else c =? x)%char
          then consume ci w' (mkM (Some c) t (S (pos st)) (caps st))
          else None
      | [] => None
      end
  end.

Fixpoint m (r : re) (st : MState) (k : MState -> option MState)
  {struct r} : option MState :=
  match r with
  | Eps => k st
  | Chr p =>
      match rest st with
      | c :: t => if p c then k (mkM (Some c) t (S (pos st)) (caps st)) else None
      | [] => None
      end
  | Seq a b => m a st (fun st' => m b st' k)
  | Alt a b =>
      match m a st k with
      | Some x => Some x
      | None => m b st k
      end
  | Star a =>
      (fix loop (n : nat) (st : MState) {struct n} : option MState :=
         match n with
         | 0 => k st
         | S n' =>
             match m a st (fun st' => if pos st <? pos st' then loop n' st' else None) with
             | Some x => Some x
             | None => k st
             end
         end) (length (rest st)) st
  | LazyStar a =>
      (fix loop (n : nat) (st : MState) {struct n} : option MState :=
         match n with
         | 0 => k st
         | S n' =>
             match k st with
             | Some x => Some x
             | None => m a st (fun st' => if pos st <? pos st' then loop n' st' else None)
             end
         end) (length (rest st)) st
  | NotAhead a =>
      match m a st (fun st' => Some st') with
      | Some _ => None
      | None => k st
      end
  | Bos => match prev st with None => k st | Some _ => None end
  | Eos => match rest st with [] => k st | _ :: _ => None end
  | WordB =>
      if xorb (isWordOpt (prev st)) (isWordOpt (hd_error (rest st)))
      then k st else None
  | Group i a =>
      m a st (fun st' =>
        k (mkM (prev st') (rest st') (pos st')
               ((i, firstn (pos st' - pos st) (rest st)) :: caps st')))
  | Backref ci i =>
      match getCap i (caps st) with
      | Some w => match consume ci w st with Some st' => k st' | None => None end
      | None => k st
      end
  end.

(** One attempt at the current position: the length of the match and
    its captures. *)
Definition exec_at (r : re) (pv : option ascii) (s : str) : option (nat * Caps) :=
  match m r (mkM pv s 0 []) (fun st' => Some st') with
  | Some st' => Some (pos st', caps st')
  | None => None
  end.

(** What a replacement callback or [exec] sees. *)
Record Match : Type := mkMatch {
  m_text : str;
  m_caps : Caps
}.

(** [$i] of a match; an unset group reads as the empty string. *)
Definition group (i : nat) (mt : Match) : str :=
  match getCap i (m_caps mt) with Some w => w | None => [] end.

(** [s.replace(r, f)] for a global [r]: matches are found left to right
    and do not overlap; [skip] counts the characters of the current match
    still to be passed over. *)
Fixpoint replace_go (r : re) (f : Match -> str) (pv : option ascii)
  (s : str) (skip : nat) {struct s} : str :=
  match skip with
  | S j =>
      match s with
      | [] => []
      | c :: t => replace_go r f (Some c) t j
      end
  | 0 =>
      match exec_at r pv s with
      | Some (n, cs) =>
          f (mkMatch (firstn n s) cs) ++
          match s with
          | [] => []
          | c :: t =>
              match n with
              | 0 => c :: replace_go r f (Some c) t 0
              | S j => replace_go r f (Some c) t j
              end
          end
      | None =>
          match s with
          | [] => []
          | c :: t => c :: replace_go r f (Some c) t 0
          end
      end
  end.

Definition replace_all (r : re) (f : Match -> str) (s : str) : str :=
  replace_go r f None s 0.

(** [s.replace(r, f)] for a non-global [r]: the leftmost match only. *)
Fixpoint replace_first_go (r : re) (f : Match -> str) (pv : option ascii)
  (s : str) {struct s} : str :=
  match exec_at r pv s with
  | Some (n, cs) => f (mkMatch (firstn n s) cs) ++ skipn n s
  | None =>
      match s with
      | [] => []
      | c :: t => c :: replace_first_go r f (Some c) t
      end
  end.

Definition replace_first (r : re) (f : Match -> str) (s : str) : str :=
  replace_first_go r f None s.

(** [s.match(r)] for a non-global [r] (and one step of [r.exec]). *)
Fixpoint search_go (r : re) (pv : option ascii) (s : str) {struct s}
  : option Match :=
  match exec_at r pv s with
  | Some (n, cs) => Some (mkMatch (firstn n s) cs)
  | None =>
      match s with
      | [] => None
      | c :: t => search_go r (Some c) t
      end
  end.

Definition search (r : re) (s : str) : option Match := search_go r None s.

(** [r.test(s)] *)
Definition test (r : re) (s : str) : bool :=
  match search r s with Some _ => true | None => false end.

(** All matches of a global [r], as [s.match(r)] or a loop of [r.exec]
    produces them. *)
Fixpoint match_all_go (r : re) (pv : option ascii) (s : str) (skip : nat)
  {struct s} : list Match :=
  match skip with
  | S j =>
      match s with
      | [] => []
      | c :: t => match_all_go r (Some c) t j
      end
  | 0 =>
      match exec_at r pv s with
      | Some (n, cs) =>
          mkMatch (firstn n s) cs ::
          match s with
          | [] => []
          | c :: t => match_all_go r (Some c) t (pred n)
          end
      | None =>
          match s with
          | [] => []
          | c :: t => match_all_go r (Some c) t 0
          end
      end
  end.

Definition match_all (r : re) (s : str) : list Match := match_all_go r None s 0.

(** [s.split(r)] for a separator that never matches the empty string. *)
Fixpoint split_go (r : re) (pv : option ascii) (s : str) (skip : nat)
  (cur : str) {struct s} : list str :=
  match skip with
  | S j =>
      match s with
      | [] => [rev cur]
      | c :: t => split_go r (Some c) t j cur
      end
  | 0 =>
      match s with
      | [] => [rev cur]
      | c :: t =>
          match exec_at r pv s with
          | Some (S j, _) => rev cur :: split_go r (Some c) t j []
          | _ => split_go r (Some c) t 0 (c :: cur)
          end
      end
  end.

Definition split (r : re) (s : str) : list str := split_go r None s 0 [].

End Regex.

Import Regex.

Definition const_ (v : str) : Match -> str := fun _ => v.

(** ** [utils/security.js]: escaping *)

Module Security.

Definition htmlEscapes : list (str * str) :=
  [ (lit "&", lit "&amp;");
    (lit "<", lit "&lt;");
    (lit ">", lit "&gt;");
    ([dquote], lit "&quot;");
    ([squote], lit "&#39;");
    (lit "/", lit "&#x2F;") ].

(** The class of [escapeHTML]: ampersand, angle brackets, both quotes
    and the slash. *)
Definition re_escapable : re :=
  Chr (fun c => oneOf "&<>/" c || eqc dquote c || eqc squote c).

(** The value of [table[key]] spliced into a string: a missing key reads
    as [undefined]. *)
Definition lookup (tbl : list (str * str)) (k : str) : str :=
  match assoc k tbl with Some v => v | None => lit "undefined" end.

Definition escapeHTML (text : str) : str :=
  if blank text then []
  else replace_all re_escapable (fun mt => lookup htmlEscapes (m_text mt)) text.

Definition htmlUnescapes : list (str * str) :=
  [ (lit "&amp;", lit "&");
    (lit "&lt;", lit "<");
    (lit "&gt;", lit ">");
    (lit "&quot;", [dquote]);
    (lit "&#39;", [squote]);
    (lit "&#x2F;", lit "/") ].

(** [/&(?:amp|lt|gt|quot|#39|#x2F);/g] *)
Definition re_entity : re :=
  Seqs [ Lit "&";
         Alts [Lit "amp"; Lit "lt"; Lit "gt"; Lit "quot"; Lit "#39"; Lit "#x2F"];
         Lit ";" ].

(** [htmlUnescapes[entity] || entity] *)
Definition unescapeEntity (mt : Match) : str :=
  match assoc (m_text mt) htmlUnescapes with
  | Some v => if blank v then m_text mt else v
  | None => m_text mt
  end.

Definition unescapeHTML (text : str) : str :=
  if blank text then []
  else replace_all re_entity unescapeEntity text.


(** ** [utils/security.js]: sanitization *)

Record Config : Type := mkConfig {
  allowedTags : list str;
  allowedAttributes : list (str * list str);
  allowedProtocols : list str;
  allowedStyles : list str;
  allowStyleTags : bool;
  allowDataUrls : bool
}.

Definition SAFE_HTML_CONFIG : Config :=
  {| allowedTags := lits
       [ "p"; "br"; "strong"; "b"; "em"; "i"; "u"; "span"; "div";
         "h1"; "h2"; "h3"; "h4"; "h5"; "h6";
         "ul"; "ol"; "li";
         "a"; "img";
         "table"; "thead"; "tbody"; "tr"; "td"; "th";
         "code"; "pre"; "blockquote";
         "article"; "section"; "aside"; "header"; "footer"; "main"; "nav";
         "hr"; "small"; "sub"; "sup"; "mark"; "del"; "ins"; "abbr"; "cite";
         "q"; "dfn"; "time"; "kbd"; "samp"; "var"; "details"; "summary" ]%string;
     allowedAttributes :=
       [ (lit "a", lits ["href"; "title"; "target"; "rel"]%string);
         (lit "img", lits ["src"; "alt"; "title"; "width"; "height"]%string);
         (lit "blockquote", lits ["cite"]%string);
         (lit "q", lits ["cite"]%string);
         (lit "time", lits ["datetime"]%string);
         (lit "abbr", lits ["title"]%string);
         (lit "dfn", lits ["title"]%string);
         (lit "th", lits ["scope"; "colspan"; "rowspan"]%string);
         (lit "td", lits ["colspan"; "rowspan"]%string);
         (lit "details", lits ["open"]%string);
         (lit "*", lits ["class"; "id"; "style"]%string) ];
     allowedProtocols := lits ["http"; "https"; "mailto"; "tel"]%string;
     allowedStyles := lits
       [ "color"; "background-color"; "font-size"; "font-family"; "font-weight";
         "text-align"; "text-decoration"; "margin"; "padding"; "border";
         "width"; "height"; "display"; "float"; "clear" ]%string;
     allowStyleTags := false;
     allowDataUrls := false |}.

Definition isQuote (c : ascii) : bool := eqc dquote c || eqc squote c.
Definition sp : re := Chr isSpace.

(** [/<tag\b[^<]*(?:(?!<\/tag>)<[^<]* )*<\/tag>/gi] *)
Definition re_block (tag : string) : re :=
  Seqs [ LitI ("<" ++ tag); WordB; Star (Chr (notb (eqc "<")));
         Star (Seqs [ NotAhead (LitI ("</" ++ tag ++ ">"));
                      Chr (eqc "<"); Star (Chr (notb (eqc "<"))) ]);
         LitI ("</" ++ tag ++ ">") ]%string.

(** [\s*NAME\s*=\s*QUOTE[^QUOTE]*QUOTE] with flags [gi], where NAME is
    [on\w+] or one of the listed handler names. *)
Definition re_quoted_attr (name : re) : re :=
  Seqs [ Star sp; name; Star sp; Chr (eqc "="); Star sp;
         Chr isQuote; Star (Chr (notb isQuote)); Chr isQuote ].

Definition re_on_handler : re := Seq (LitI "on") (Plus (Chr isWord)).

(** [/\s*on\w+\s*=\s*[^QUOTE\s>]+/gi] *)
Definition re_bare_handler : re :=
  Seqs [ Star sp; re_on_handler; Star sp; Chr (eqc "="); Star sp;
         Plus (Chr (fun c => negb (isQuote c || isSpace c || eqc ">" c))) ].

Definition dangerousAttrs : list string :=
  [ "onload"; "onerror"; "onclick"; "onmouseover"; "onmouseout";
    "onkeydown"; "onkeyup"; "onsubmit"; "onchange"; "onfocus";
    "onblur"; "onscroll"; "onresize"; "onunload"; "onbeforeunload" ]%string.

Definition re_tagname : re := Seq (Chr isAlpha) (Star (Chr isAlnum)).

(** [/<\/?([a-zA-Z][a-zA-Z0-9]* )[^>]*>/g] *)
Definition tagRegex : re :=
  Seqs [ Chr (eqc "<"); Opt (Chr (eqc "/")); Group 1 re_tagname;
         Star (Chr (notb (eqc ">"))); Chr (eqc ">") ].

Definition sanitizeElements (html : str) (config : Config) : str :=
  replace_all tagRegex
    (fun mt =>
       let lowerTagName := toLowerCase (group 1 mt) in
       if negb (mem lowerTagName (allowedTags config)) then [] else m_text mt)
    html.

(** [/<([a-zA-Z][a-zA-Z0-9]* )((?:\s+[^>]* )?)>/g] *)
Definition elementRegex : re :=
  Seqs [ Chr (eqc "<"); Group 1 re_tagname;
         Group 2 (Opt (Seq (Plus sp) (Star (Chr (notb (eqc ">"))))));
         Chr (eqc ">") ].

(** [/\s+([a-zA-Z][a-zA-Z0-9-]* )\s*=\s*QUOTE([^QUOTE]* )QUOTE/g] *)
Definition attrRegex : re :=
  Seqs [ Plus sp;
         Group 1 (Seq (Chr isAlpha) (Star (Chr (fun c => isAlnum c || eqc "-" c))));
         Star sp; Chr (eqc "="); Star sp;
         Chr isQuote; Group 2 (Star (Chr (notb isQuote))); Chr isQuote ].

(** [s.split(c)] for a one-character separator *)
Fixpoint splitChar_go (sep : ascii) (s : str) (cur : str) : list str :=
  match s with
  | [] => [rev cur]
  | c :: t =>
      if (c =? sep)%char then rev cur :: splitChar_go sep t []
      else splitChar_go sep t (c :: cur)
  end.

Definition splitChar (sep : ascii) (s : str) : list str := splitChar_go sep s [].

Section WithURL.

(** [new URL(url)] is the platform's parser: [urlProtocol url] is
    [urlObj.protocol.slice(0, -1)], or [None] when the constructor throws. *)
Variable urlProtocol : str -> option str.

Definition sanitizeURL (url : str) (protocols : list str) : option str :=
  if blank url then None
  else
    let url := trim url in
    if test (Seqs [Bos; Alts [LitI "javascript"; LitI "vbscript"; LitI "data"]; Chr (eqc ":")]) url
    then None
    else if startsWith (lit "/") url || startsWith (lit "./") url || startsWith (lit "../") url
    then Some url
    else match urlProtocol url with
         | Some proto => if negb (mem proto protocols) then None else Some url
         | None => Some url
         end.

(** [/(expression|javascript|vbscript|behavior|binding|@import|url\()/i] *)
Definition re_dangerous_css : re :=
  Alts [ LitI "expression"; LitI "javascript"; LitI "vbscript"; LitI "behavior";
         LitI "binding"; LitI "@import"; LitI "url(" ].

Definition sanitizeStyleAttribute (style : str) (styles : list str) : str :=
  if blank style then []
  else
    let declarations :=
      filter (fun decl => negb (blank decl)) (map trim (splitChar ";" style)) in
    let sanitizedDeclarations :=
      flat_map
        (fun declaration =>
           let parts := map trim (splitChar ":" declaration) in
           let property := nth 0 parts [] in
           let value := nth 1 parts [] in
           if negb (blank property) && negb (blank value)
              && mem (toLowerCase property) styles
           then if negb (test re_dangerous_css value)
                then [property ++ lit ": " ++ value]
                else []
           else [])
        declarations in
    joinWith (lit "; ") sanitizedDeclarations.

(** [value.replace(/[^a-zA-Z0-9_-\s]/g, '').trim()] *)
Definition sanitizeClassOrId (value : str) : str :=
  if blank value then []
  else trim (replace_all
               (Chr (fun c => negb (isAlnum c || eqc "_" c || eqc "-" c || isSpace c)))
               (const_ []) value).

Definition sanitizeAttributeValue (attrName attrValue : str) (config : Config)
  : option str :=
  if blank attrValue then Some []
  else if str_eqb attrName (lit "href")
  then sanitizeURL attrValue (allowedProtocols config)
  else if str_eqb attrName (lit "src")
  then sanitizeURL attrValue (allowedProtocols config ++ [lit "data"])
  else if str_eqb attrName (lit "style")
  then Some (sanitizeStyleAttribute attrValue (allowedStyles config))
  else if str_eqb attrName (lit "class") || str_eqb attrName (lit "id")
  then Some (sanitizeClassOrId attrValue)
  else if str_eqb attrName (lit "target")
  then if mem attrValue (lits ["_blank"; "_self"; "_parent"; "_top"]%string)
       then Some attrValue else None
  else if str_eqb attrName (lit "rel")
  then
    let allowedRels :=
      lits ["nofollow"; "noopener"; "noreferrer"; "alternate"; "canonical"]%string in
    let rels := filter (fun rel => mem rel allowedRels) (split (Plus sp) attrValue) in
    match rels with
    | [] => None
    | _ => Some (joinWith (lit " ") rels)
    end
  else Some (escapeHTML attrValue).

(** [config.allowedAttributes[name] || []] *)
Fixpoint attrsFor (name : str) (tbl : list (str * list str)) : list str :=
  match tbl with
  | [] => []
  | (k, v) :: rest => if str_eqb name k then v else attrsFor name rest
  end.

Definition sanitizeAttributes (html : str) (config : Config) : str :=
  replace_all elementRegex
    (fun mt =>
       let tagName := group 1 mt in
       let attributes := group 2 mt in
       let lowerTagName := toLowerCase tagName in
       if blank attributes then m_text mt
       else
         let sanitizedAttrs :=
           flat_map
             (fun attrMatch =>
                let attrName := group 1 attrMatch in
                let attrValue := group 2 attrMatch in
                let lowerAttrName := toLowerCase attrName in
                let allowedForTag := attrsFor lowerTagName (allowedAttributes config) in
                let allowedGlobally := attrsFor (lit "*") (allowedAttributes config) in
                if mem lowerAttrName allowedForTag || mem lowerAttrName allowedGlobally
                then match sanitizeAttributeValue lowerAttrName attrValue config with
                     | Some sanitizedValue =>
                         [attrName ++ lit "=" ++ [dquote] ++ sanitizedValue ++ [dquote]]
                     | None => []
                     end
                else [])
             (match_all attrRegex attributes) in
         let attrString :=
           match sanitizedAttrs with
           | [] => []
           | _ => lit " " ++ joinWith (lit " ") sanitizedAttrs
           end in
         lit "<" ++ tagName ++ attrString ++ lit ">")
    html.

(** [/<(\w+)(?:\s+[^>]* )?>[\s]*<\/\1>/gi] *)
Definition re_empty_element : re :=
  Seqs [ Chr (eqc "<"); Group 1 (Plus (Chr isWord));
         Opt (Seq (Plus sp) (Star (Chr (notb (eqc ">")))));
         Chr (eqc ">"); Star sp; Lit "</"; Backref true 1; Chr (eqc ">") ].

(** [sanitizeHTML(html, options)]; [config] is the merged
    [{...SAFE_HTML_CONFIG, ...options}]. *)
Definition sanitizeHTML (html : str) (config : Config) : str :=
  if blank html then []
  else
    let html := replace_all (re_block "script") (const_ []) html in
    let html :=
      if negb (allowStyleTags config)
      then replace_all (re_block "style") (const_ []) html else html in
    let html := replace_all (re_quoted_attr re_on_handler) (const_ []) html in
    let html := replace_all re_bare_handler (const_ []) html in
    let html := replace_all (LitI "javascript:") (const_ []) html in
    let html :=
      if negb (allowDataUrls config)
      then replace_all (LitI "data:") (const_ []) html else html in
    let html := replace_all (LitI "vbscript:") (const_ []) html in
    let html :=
      fold_left
        (fun html attr => replace_all (re_quoted_attr (LitI attr)) (const_ []) html)
        dangerousAttrs html in
    let html := sanitizeElements html config in
    let html := sanitizeAttributes html config in
    let html := replace_all re_empty_element (const_ []) html in
    trim html.

End WithURL.

End Security.

(** ** Exceptions and results

    A thrown JavaScript error is its class name, its message and, for
    the API client's errors, the HTTP status it carries. *)

Record Exn : Type := mkExn {
  ename : str;
  emessage : str;
  estatus : option nat
}.

Definition Error (msg : str) : Exn := mkExn (lit "Error") msg None.

Inductive Result (A : Type) : Type :=
| Ok (a : A)
| Throw (e : Exn).

Arguments Ok {A} a.
Arguments Throw {A} e.

(** [`${n}`] for a number *)
Definition decimal (n : nat) : str :=
  lit (NilZero.string_of_uint (Nat.to_uint n)).

(** ** [utils/slug-sanitizer.js] *)

Module Slug.

(** [Math.floor(Math.random() * 36)] is an oracle: [rnd i] is the value of
    the i-th draw of a call. *)
Definition Rand := nat -> nat.

Definition randomChars : str := lit "abcdefghijklmnopqrstuvwxyz0123456789".

Definition generateRandomString (length : nat) (rnd : Rand) : str :=
  map (fun i => nth (rnd i mod 36) randomChars "a"%char) (seq 0 length).

(** The table of [stripDiacritics], keyed by code unit. *)
Definition diacriticsMap : list (nat * string) :=
  [ (192, "A"); (193, "A"); (194, "A"); (195, "A"); (196, "A"); (197, "A"); (198, "AE");
    (199, "C"); (200, "E"); (201, "E"); (202, "E"); (203, "E"); (204, "I"); (205, "I");
    (206, "I"); (207, "I"); (208, "D"); (209, "N"); (210, "O"); (211, "O"); (212, "O");
    (213, "O"); (214, "O"); (216, "O"); (217, "U"); (218, "U"); (219, "U"); (220, "U");
    (221, "Y"); (222, "TH"); (223, "ss"); (224, "a"); (225, "a"); (226, "a"); (227, "a");
    (228, "a"); (229, "a"); (230, "ae"); (231, "c"); (232, "e"); (233, "e"); (234, "e");
    (235, "e"); (236, "i"); (237, "i"); (238, "i"); (239, "i"); (240, "d"); (241, "n");
    (242, "o"); (243, "o"); (244, "o"); (245, "o"); (246, "o"); (248, "o"); (249, "u");
    (250, "u"); (251, "u"); (252, "u"); (253, "y"); (254, "th"); (255, "y") ]%string.

Fixpoint diacritic (n : nat) (tbl : list (nat * string)) : option str :=
  match tbl with
  | [] => None
  | (k, v) :: rest => if n =? k then Some (lit v) else diacritic n rest
  end.

(** [str.replace(/[^\u0000-~]/g, char => diacriticsMap[char] || char)] *)
Definition stripDiacritics (s : str) : str :=
  replace_all (Chr (fun c => negb (code c <=? 126)))
    (fun mt =>
       match m_text mt with
       | [c] => match diacritic (code c) diacriticsMap with
                | Some v => v
                | None => [c]
                end
       | other => other
       end)
    s.

(** The options of [generateSlug].  [maxLength] is a whole number.
    An entry of [customReplacements] is given as the pattern its key
    compiles to under [new RegExp(find, 'g')] and the text it puts in
    place of a match: this covers the tables of this code base (none,
    and the seven entries of [cleanUserSlug]), whose keys compile and
    whose replacement texts contain no [$]. *)
Record SlugConfig : Type := mkSlugConfig {
  maxLength : nat;
  lowercase : bool;
  stripDiacriticsOpt : bool;
  allowUnicode : bool;
  customReplacements : list (re * str)
}.

Definition defaultConfig : SlugConfig :=
  mkSlugConfig 80 true true false [].

Definition isDashDot (c : ascii) : bool := eqc "-" c || eqc "." c.
Definition isSlugChar (c : ascii) : bool :=
  isWord c || eqc "-" c || eqc "." c || eqc "~" c.

(** [s.lastIndexOf(c)], [None] for -1 *)
Fixpoint lastIndexOf_go (x : ascii) (s : str) (i : nat) (acc : option nat)
  : option nat :=
  match s with
  | [] => acc
  | c :: t => lastIndexOf_go x t (S i) (if (c =? x)%char then Some i else acc)
  end.

Definition lastIndexOf (x : ascii) (s : str) : option nat :=
  lastIndexOf_go x s 0 None.

(** The steps of [generateSlug] up to and including the two trimming
    replacements, before the length is looked at. *)
Definition normalizeText (text : str) (config : SlugConfig) : str :=
  let slug := text in
  let slug :=
    fold_left (fun slug fr => replace_all (fst fr) (const_ (snd fr)) slug)
              (customReplacements config) slug in
  (* /<[^>]*>/g *)
  let slug :=
    replace_all (Seqs [Chr (eqc "<"); Star (Chr (notb (eqc ">"))); Chr (eqc ">")])
                (const_ []) slug in
  let slug := if stripDiacriticsOpt config then stripDiacritics slug else slug in
  let slug := if lowercase config then toLowerCase slug else slug in
  (* /[\s_]+/g *)
  let slug := replace_all (Plus (Chr (fun c => isSpace c || eqc "_" c))) (const_ (lit "-")) slug in
  (* /-+/g *)
  let slug := replace_all (Plus (Chr (eqc "-"))) (const_ (lit "-")) slug in
  (* /[^\w\-\.~]/g *)
  let slug :=
    replace_all (Chr (notb isSlugChar))
                (const_ (if allowUnicode config then [] else lit "-")) slug in
  (* /^[-\.]+|[-\.]+$/g *)
  let slug :=
    replace_all (Alt (Seq Bos (Plus (Chr isDashDot))) (Seq (Plus (Chr isDashDot)) Eos))
                (const_ []) slug in
  (* /-+/g *)
  let slug := replace_all (Plus (Chr (eqc "-"))) (const_ (lit "-")) slug in
  (* /^[^a-zA-Z0-9]+/ and /[^a-zA-Z0-9]+$/ *)
  let slug := replace_first (Seq Bos (Plus (Chr (notb isAlnum)))) (const_ []) slug in
  let slug := replace_first (Seq (Plus (Chr (notb isAlnum))) Eos) (const_ []) slug in
  slug.

(** [maxLength * 0.7] is a product of doubles.  The double nearest to
    0.7 is [point7 / 2^53]; its product with an integer below 2^53 is
    rounded to 53 significant bits, ties to even.  [roundDouble n] is
    the double nearest to [n / 2^53], counted in units of 2^-53. *)
Definition point7 : N := 6305039478318694.

Definition roundDouble (n : N) : N :=
  let bits := N.size n in
  if (bits <=? 53)%N then n
  else
    let shift := (bits - 53)%N in
    let q := N.shiftr n shift in
    let r := (n mod 2 ^ shift)%N in
    let half := (2 ^ (shift - 1))%N in
    let q := if (half <? r)%N || ((r =? half)%N && N.odd q) then (q + 1)%N else q in
    N.shiftl q shift.

(** [lastDash > maxLength * 0.7] *)
Definition beyond70 (lastDash maxLength : nat) : bool :=
  (roundDouble (N.of_nat maxLength * point7) <? N.of_nat lastDash * 2 ^ 53)%N.

(** The length trimming. *)
Definition truncateSlug (slug : str) (config : SlugConfig) : str :=
  if maxLength config <? length slug then
    let slug := substring0 (maxLength config) slug in
    match lastIndexOf "-" slug with
    | Some lastDash =>
        if beyond70 lastDash (maxLength config)
        then substring0 lastDash slug else slug
    | None => slug
    end
  else slug.

Definition generateSlug (text : str) (config : SlugConfig) (rnd : Rand)
  : Result str :=
  if blank text then Throw (Error (lit "generateSlug requires a non-empty string"))
  else
    let slug := normalizeText text config in
    let slug := truncateSlug slug config in
    let slug :=
      if length slug <? 3
      then lit "post-" ++ generateRandomString 6 rnd else slug in
    Ok slug.

Definition reservedWords : list str := lits
  [ "api"; "admin"; "auth"; "login"; "logout"; "register"; "dashboard";
    "static"; "assets"; "public"; "images"; "css"; "js"; "robots.txt";
    "sitemap.xml"; "favicon.ico"; "manifest.json";
    "search"; "about"; "contact"; "help"; "privacy"; "terms"; "stats";
    "health"; "status"; "ping"; "metrics"; "sitemap"; "feed"; "rss";
    "www"; "mail"; "ftp"; "localhost"; "test"; "staging"; "dev"; "demo";
    "blog"; "news"; "posts"; "post"; "page"; "pages"; "user"; "users";
    "profile"; "settings"; "config"; "system"; "internal"; "external";
    "get"; "post"; "put"; "patch"; "delete"; "head"; "options"; "trace";
    "connect"; "webhook"; "callback"; "oauth"; "token"; "refresh";
    "db"; "database"; "sql"; "query"; "index"; "cache"; "session";
    "cookie"; "cors"; "csrf"; "xss"; "injection"; "exploit";
    "html"; "htm"; "xml"; "json"; "txt"; "pdf"; "jpg"; "jpeg"; "png";
    "gif"; "svg"; "ico"; "css"; "js"; "php"; "asp"; "jsp" ]%string.

Definition isReservedSlug (slug : str) : bool :=
  mem (toLowerCase slug) reservedWords.

Record Validation : Type := mkValidation {
  isValid : bool;
  errors : list str
}.

Definition isSlugAllowed (c : ascii) : bool :=
  isAlnum c || eqc "-" c || eqc "." c || eqc "~" c.

Definition check (failed : bool) (msg : string) : list str :=
  if failed then [lit msg] else [].

Definition validateSlug (slug : str) : Validation :=
  if blank slug
  then mkValidation false [lit "Slug must be a non-empty string"]
  else
    let errors :=
      check (length slug <? 3) "Slug must be at least 3 characters long"
      ++ check (80 <? length slug) "Slug must be no more than 80 characters long"
      (* /^[a-zA-Z0-9\-\.~]+$/ *)
      ++ check (negb (test (Seqs [Bos; Plus (Chr isSlugAllowed); Eos]) slug))
           "Slug contains invalid characters (only letters, numbers, hyphens, dots, and tildes allowed)"
      (* /^[a-zA-Z0-9]/ *)
      ++ check (negb (test (Seq Bos (Chr isAlnum)) slug))
           "Slug must start with a letter or number"
      (* /[a-zA-Z0-9]$/ *)
      ++ check (negb (test (Seq (Chr isAlnum) Eos) slug))
           "Slug must end with a letter or number"
      (* /--+/ *)
      ++ check (test (Seq (Chr (eqc "-")) (Plus (Chr (eqc "-")))) slug)
           "Slug cannot contain consecutive hyphens"
      ++ check (isReservedSlug slug) "Slug cannot be a reserved word" in
    mkValidation (length errors =? 0) errors.

Section UniqueSlug.

(** The existence callback is supplied by the caller and may keep state
    of its own (the test-suite passes a mock that answers differently on
    each call), so it is a state transformer. *)
Variable St : Type.
Variable existsCallback : str -> St -> bool * St.

Definition maxAttempts : nat := 100.

(** The result of a run: the slug, the callback's final state and the
    slugs the callback was invoked on, in order. *)
Record UniqueRun : Type := mkRun {
  run_slug : str;
  run_state : St;
  run_calls : list str
}.

(** The [while] loop; [fuel] bounds the number of evaluations of its
    condition. *)
Fixpoint uniqueLoop (fuel : nat) (baseSlug : str) (rnd : Rand)
  (slug : str) (counter : nat) (st : St) (calls : list str)
  : option UniqueRun :=
  match fuel with
  | 0 => None
  | S fuel' =>
      let (found, st') := existsCallback slug st in
      let calls' := calls ++ [slug] in
      if found then
        if maxAttempts <? counter
        then Some (mkRun (baseSlug ++ lit "-" ++ generateRandomString 8 rnd) st' calls')
        else uniqueLoop fuel' baseSlug rnd
               (baseSlug ++ lit "-" ++ decimal counter) (S counter) st' calls'
      else Some (mkRun slug st' calls')
  end.

Definition generateUniqueSlug_fuel (fuel : nat) (baseSlug : str) (rnd : Rand)
  (st : St) : option UniqueRun :=
  uniqueLoop fuel baseSlug rnd baseSlug 1 st [].

End UniqueSlug.

Definition titleToSlug (title : str) (rnd : Rand) : Result str :=
  generateSlug title (mkSlugConfig 60 true true false []) rnd.

Definition cleanUserSlug (userInput : str) (rnd : Rand) : Result str :=
  if blank userInput then Ok []
  else
    generateSlug userInput
      (mkSlugConfig 80 true true false
         [ (Lit "&", lit "and");
           (Lit "@", lit "at");
           (Lit "#", lit "hash");
           (Lit "%", lit "percent");
           (Lit "$", lit "dollar");
           (Lit "+", lit "plus");
           (Lit "=", lit "equals") ])
      rnd.

End Slug.

(** ** The world outside the pipeline

    The pipeline talks to a language-model HTTP API, a SQLite table of
    posts and the chat platform.  The embedding threads one explicit
    [World] through the code, in which every call on a collaborator is
    recorded. *)

(** A JavaScript value as the response validation looks at it. *)
Inductive JsVal : Type :=
| VUndefined
| VStr (s : str)
| VOther (truthy : bool).

(** [response.choices[0].message.content] as [JSON.parse] reads it. *)
Inductive Parsed : Type :=
| ParseError (msg : str)
| PNull
| PObject (slug title description : JsVal).

(** [response.data] of a 2xx reply. *)
Inductive ApiData : Type :=
| NoChoices
| NoMessage (typeError : str)
| EmptyContent
| Content (p : Parsed).

(** What one POST to the API comes back with. *)
Inductive HttpReply : Type :=
| Reply2xx (data : ApiData)
| ReplyStatus (status : nat) (errorMessage : option str)
| NoResponse
| SetupFailure (msg : str).

(** A row of the [posts] table of [001_init.sql]. *)
Record Row : Type := mkRow {
  r_id : nat;
  r_slug : str;
  r_title : str;
  r_description : str;
  r_html_content : str;
  r_discord_user_id : str;
  r_discord_username : str;
  r_created_at : str;
  r_updated_at : str
}.

(** The table and its AUTOINCREMENT counter. *)
Record Store : Type := mkStore {
  rows : list Row;
  lastId : nat
}.

(** A post object; a field that is [null] or [undefined] is [None]. *)
Record Post : Type := mkPost {
  p_id : option nat;
  p_slug : option str;
  p_title : option str;
  p_description : option str;
  p_html_content : option str;
  p_discord_user_id : option str;
  p_discord_username : option str;
  p_created_at : option str;
  p_updated_at : option str
}.

(** The metadata returned by the analyzer (the fields the command
    handler and the specification use). *)
Record Features : Type := mkFeatures {
  hasImagesF : bool;
  hasLinksF : bool;
  hasCodeF : bool;
  hasListsF : bool
}.

Record Metadata : Type := mkMetadata {
  md_slug : str;
  md_title : str;
  md_description : str;
  md_wordCount : nat;
  md_readingTime : nat;
  md_contentType : str;
  md_features : Features;
  md_analyzer : str;
  md_error : option str
}.

(** The failures of the extractor; each stands for the message built at
    the place it is raised. *)
Inductive ExtractError : Type :=
| InvalidAttachment (tooLarge badExtension noName noUrl : bool)
| EmptyDownload
| NotHtml
| NetworkError
| RequestTimeout
| FileTooLarge
| ProcessFailed (message : str)
| NoContentFound.

(** What the handler sends to the chat platform.  The fixed texts are
    named rather than spelled out. *)
Inductive Outgoing : Type :=
| SendTyping
| ReplyExtractionError (error : ExtractError)
| ReplyNoHtmlFound                          (* No HTML content found. ...        *)
| ReplyProcessing                           (* Processing your HTML content...   *)
| EditAnalysisComplete                      (* AI analysis complete, ...         *)
| EditSaving                                (* Saving to database...             *)
| DeleteProcessing
| ReplySuccess (post : Post) (analysis : Metadata)
| ReplyFailed                               (* Failed to process your content.   *)
| ReplyInvalidFormat                        (* Invalid content format.           *)
| ReplySlugExists                           (* A post with this title already exists. *)
| ReplyServiceUnavailable                   (* AI analysis service is ... unavailable *)
| ReplyDatabaseError.                       (* Database error occurred.          *)

(** A request body sent to the API: the user content and the sampling
    temperature in tenths. *)
Record Request : Type := mkRequest {
  rq_content : str;
  rq_instructions : str;
  rq_temperature10 : nat
}.

Inductive Event : Type :=
| EvPost (rq : Request)             (* one HTTP POST to /chat/completions *)
| EvSleep (ms : nat)                (* GrokClient.sleep                   *)
| EvSelectSlug (slug : str)         (* SELECT id FROM posts WHERE slug    *)
| EvInsert (row : Row)              (* INSERT INTO posts                  *)
| EvCreate (data : Post)            (* a call of Post.create              *)
| EvChat (o : Outgoing).

Record World : Type := mkWorld {
  db : Store;
  posted : nat;               (* number of API requests made so far *)
  log : list Event            (* everything done so far, oldest first *)
}.

(** What a list of events says about each collaborator. *)
Definition posts (evs : list Event) : list Request :=
  flat_map (fun e => match e with EvPost rq => [rq] | _ => [] end) evs.

Definition sleeps (evs : list Event) : list nat :=
  flat_map (fun e => match e with EvSleep ms => [ms] | _ => [] end) evs.

Definition slugQueries (evs : list Event) : list str :=
  flat_map (fun e => match e with EvSelectSlug s => [s] | _ => [] end) evs.

Definition inserts (evs : list Event) : list Row :=
  flat_map (fun e => match e with EvInsert r => [r] | _ => [] end) evs.

Definition creates (evs : list Event) : list Post :=
  flat_map (fun e => match e with EvCreate data => [data] | _ => [] end) evs.

Definition replies (evs : list Event) : list Outgoing :=
  flat_map (fun e => match e with EvChat o => [o] | _ => [] end) evs.

(** What the environment decides. *)
Record Env : Type := mkEnv {
  api : nat -> HttpReply;            (* the reply to the i-th API request      *)
  purify : str -> option str;        (* DOMPurify.sanitize, None when it throws *)
  bodyText : str -> option str;      (* JSDOM body.textContent, None on throw   *)
  timestamp : nat -> str;            (* CURRENT_TIMESTAMP when row i is written *)
  random : nat -> nat                (* Math.floor(Math.random() * 36)          *)
}.

(** Computations: state and exceptions. *)
Definition M (A : Type) : Type := World -> Result A * World.

Definition ret {A} (a : A) : M A := fun w => (Ok a, w).
Definition throw {A} (e : Exn) : M A := fun w => (Throw e, w).

Definition bind {A B} (c : M A) (k : A -> M B) : M B :=
  fun w =>
    match c w with
    | (Ok a, w') => k a w'
    | (Throw e, w') => (Throw e, w')
    end.

(** [try { c } catch (error) { h error }] *)
Definition tryCatch {A} (c : M A) (h : Exn -> M A) : M A :=
  fun w =>
    match c w with
    | (Ok a, w') => (Ok a, w')
    | (Throw e, w') => h e w'
    end.

Definition emit (e : Event) : M unit :=
  fun w => (Ok tt, mkWorld (db w) (posted w) (log w ++ [e])).

Definition liftR {A} (r : Result A) : M A := fun w => (r, w).

Declare Scope m_scope.
Delimit Scope m_scope with m.
Notation "x <- c ;; k" := (bind c (fun x => k))
  (at level 61, c at next level, right associativity) : m_scope.
Notation "c ;;; k" := (bind c (fun _ => k))
  (at level 61, right associativity) : m_scope.
Open Scope m_scope.

(** ** [ai/grok-client.js] *)

Module Grok.

Definition GrokAPIError (msg : str) (status : option nat) : Exn :=
  mkExn (lit "GrokAPIError") msg status.

Definition isGrokAPIError (e : Exn) : bool := str_eqb (ename e) (lit "GrokAPIError").

Definition maxRetries : nat := 3.
Definition retryDelay : nat := 1000.

Section Client.

Variable env : Env.

(** [this.client.post(endpoint, data)] followed by the response
    interceptor, which turns every failure into a [GrokAPIError]. *)
Definition post (rq : Request) : M ApiData :=
  fun w =>
    let w' := mkWorld (db w) (S (posted w)) (log w ++ [EvPost rq]) in
    match api env (posted w) with
    | Reply2xx data => (Ok data, w')
    | ReplyStatus status msg =>
        (Throw (GrokAPIError
                  (lit "API request failed: " ++ decimal status ++ lit " - " ++
                   match msg with Some m => m | None => lit "Unknown error" end)
                  (Some status)), w')
    | NoResponse =>
        (Throw (GrokAPIError (lit "Network error: No response received from API") None), w')
    | SetupFailure msg =>
        (Throw (GrokAPIError (lit "Request setup error: " ++ msg) None), w')
    end.

Definition sleep (ms : nat) : M unit := emit (EvSleep ms).

Definition shouldRetry (error : Exn) : bool :=
  if isGrokAPIError error then
    match estatus error with
    | Some status =>
        (status =? 429) || (status =? 502) || (status =? 503) || (status =? 504)
    | None => false
    end
  else false.

(** [makeRequest(endpoint, data, retries)]; the recursion is on the
    retry counter, [fuel] bounds its depth. *)
Fixpoint makeRequest_fuel (fuel : nat) (data : Request) (retries : nat)
  : M (option ApiData) :=
  match fuel with
  | 0 => ret None
  | S fuel' =>
      tryCatch
        (response <- post data ;; ret (Some response))
        (fun error =>
           if (retries <? maxRetries) && shouldRetry error then
             let delay := retryDelay * Nat.pow 2 retries in
             sleep delay ;;;
             makeRequest_fuel fuel' data (retries + 1)
           else throw error)
  end.

(** The depth never exceeds [maxRetries + 1]; with that much fuel the
    [None] of an exhausted fuel is never returned (see
    [makeRequest_total]). *)
Definition makeRequest (data : Request) : M ApiData :=
  r <- makeRequest_fuel (S maxRetries) data 0 ;;
  match r with
  | Some response => ret response
  | None => throw (Error (lit "unreachable"))
  end.

(** [/^[a-z0-9-]+$/] *)
Definition re_simple_slug : re :=
  Seqs [Bos; Plus (Chr (fun c => isLower c || isDigit c || eqc "-" c)); Eos].

(** [generateFallbackSlug], which [ContentAnalyzer.generateSlugFromTitle]
    repeats word for word. *)
Definition generateFallbackSlug (title : str) : str :=
  if isBlank title then lit "untitled-post"
  else
    let s := toLowerCase title in
    (* /[^a-z0-9\s-]/g *)
    let s := replace_all
               (Chr (fun c => negb (isLower c || isDigit c || isSpace c || eqc "-" c)))
               (const_ []) s in
    (* /\s+/g *)
    let s := replace_all (Plus (Chr isSpace)) (const_ (lit "-")) s in
    (* /-+/g *)
    let s := replace_all (Plus (Chr (eqc "-"))) (const_ (lit "-")) s in
    let s := substring0 50 (trim s) in
    if blank s then lit "untitled-post" else s.

Record Analysis : Type := mkAnalysis {
  a_slug : str;
  a_title : str;
  a_description : str
}.

Definition falsy (v : JsVal) : bool :=
  match v with
  | VUndefined => true
  | VStr s => blank s
  | VOther truthy => negb truthy
  end.

Definition asString (v : JsVal) : option str :=
  match v with VStr s => Some s | _ => None end.

(** The body of the [try] of [analyzeContent], after the request. *)
Definition readResponse (response : ApiData) : M Analysis :=
  match response with
  | NoChoices => throw (GrokAPIError (lit "No response choices received from API") None)
  | NoMessage typeError => throw (mkExn (lit "TypeError") typeError None)
  | EmptyContent => throw (GrokAPIError (lit "Empty response content from API") None)
  | Content (ParseError msg) =>
      throw (GrokAPIError (lit "Failed to parse JSON response: " ++ msg) None)
  | Content PNull =>
      throw (mkExn (lit "TypeError") (lit "Cannot read properties of null") None)
  | Content (PObject slug title description) =>
      let missingFields :=
        (if falsy slug then [lit "slug"] else []) ++
        (if falsy title then [lit "title"] else []) ++
        (if falsy description then [lit "description"] else []) in
      if 0 <? length missingFields then
        throw (GrokAPIError (lit "Missing required fields in response: " ++
                             joinWith (lit ", ") missingFields) None)
      else
        match asString slug, asString title, asString description with
        | Some slug, Some title, Some description =>
            let slug :=
              if negb (test re_simple_slug slug)
              then generateFallbackSlug title else slug in
            ret (mkAnalysis slug title description)
        | _, _, _ =>
            throw (GrokAPIError (lit "All metadata fields must be strings") None)
        end
  end.

Definition analyzeContent (htmlContent : str) (customInstructions : str)
  (temperature10 : nat) : M Analysis :=
  if isBlank htmlContent then throw (Error (lit "HTML content is required"))
  else
    tryCatch
      (response <- makeRequest (mkRequest htmlContent customInstructions temperature10) ;;
       readResponse response)
      (fun error =>
         if isGrokAPIError error then throw error
         else throw (GrokAPIError (lit "Content analysis failed: " ++ emessage error) None)).

End Client.

End Grok.

(** ** [ai/content-analyzer.js] *)

Module Analyzer.

Record Options : Type := mkOptions {
  contentType : str;
  skipSanitization : bool;
  fallbackTitle : str;
  maxRetries : nat
}.

(** The defaults of the destructuring in [analyzeContent]. *)
Definition defaultOptions : Options :=
  mkOptions (lit "general") false (lit "Untitled Post") 2.

(** [/<[^>]*>/g] *)
Definition re_any_tag : re :=
  Seqs [Chr (eqc "<"); Star (Chr (notb (eqc ">"))); Chr (eqc ">")].

(** [/<NAME[^>]*>/i] and [/<a[^>]*href[^>]*>/i] *)
Definition re_open_tag (name : re) : re :=
  Seqs [Chr (eqc "<"); name; Star (Chr (notb (eqc ">"))); Chr (eqc ">")].

Definition hasImages (html : str) : bool := test (re_open_tag (LitI "img")) html.
Definition hasLinks (html : str) : bool :=
  test (Seqs [ LitI "<a"; Star (Chr (notb (eqc ">"))); LitI "href";
               Star (Chr (notb (eqc ">"))); Chr (eqc ">") ]) html.
Definition hasCode (html : str) : bool :=
  test (re_open_tag (Alt (LitI "pre") (LitI "code"))) html.
Definition hasLists (html : str) : bool :=
  test (re_open_tag (Alt (LitI "ul") (LitI "ol"))) html.

(** [text.split(/\s+/).filter(word => word.length > 0).length] *)
Definition getWordCount (text : str) : nat :=
  length (filter (fun word => 0 <? length word) (split (Plus (Chr isSpace)) text)).

(** [Math.ceil(wordCount / 200)] *)
Definition calculateReadingTime (text : str) : nat :=
  (getWordCount text + 199) / 200.

Definition detectContentType (text : str) : str :=
  let lowerText := toLowerCase text in
  let has (w : string) := includes (lit w) lowerText in
  if has "function" || has "algorithm" || has "code" || has "programming"
  then lit "technical"
  else if has "step" || has "tutorial" || has "how to" || has "guide"
  then lit "tutorial"
  else if has "breaking" || has "announced" || has "report" || has "according to"
  then lit "news"
  else if has "story" || has "poem" || has "creative" || has "imagine"
  then lit "creative"
  else lit "general".

(** The template chosen for the prompt, by its key in
    [getPromptTemplates()]. *)
Definition selectPromptTemplate (contentType extractedContent : str) : str :=
  let contentType :=
    if str_eqb contentType (lit "general")
    then detectContentType extractedContent else contentType in
  if mem contentType (lits ["technical"; "creative"; "news"; "tutorial"]%string)
  then contentType else lit "general".

Definition generateSlugFromTitle (title : str) : str :=
  Grok.generateFallbackSlug title.

Definition ellipsis : str := lit "...".

Definition generateDescriptionFromContent (content : str) : str :=
  if isBlank content then lit "User-generated content shared via Discord"
  else
    (* content.split(/[.!?]+/).filter(s => s.trim().length > 10) *)
    let sentences :=
      filter (fun s => 10 <? length (trim s))
             (split (Plus (Chr (oneOf ".!?"))) content) in
    match sentences with
    | first :: _ =>
        let description := trim first in
        if 157 <? length description
        then substring0 154 description ++ ellipsis
        else description
    | [] =>
        if 157 <? length content
        then substring0 154 content ++ ellipsis
        else content
    end.

(** [a || b] on strings *)
Definition orElse (a b : str) : str := if blank a then b else a.

Definition postProcessAnalysis (analysis : Grok.Analysis)
  (extractedContent fallbackTitle : str) : Grok.Analysis :=
  let slug := orElse (Grok.a_slug analysis) [] in
  let slug :=
    if negb (test Grok.re_simple_slug slug)
    then generateSlugFromTitle (orElse (Grok.a_title analysis) fallbackTitle)
    else slug in
  let title := orElse (Grok.a_title analysis) fallbackTitle in
  let title :=
    if 60 <? length title then substring0 57 title ++ ellipsis else title in
  let description :=
    orElse (Grok.a_description analysis)
           (generateDescriptionFromContent extractedContent) in
  let description :=
    if 160 <? length description
    then substring0 157 description ++ ellipsis else description in
  Grok.mkAnalysis slug title description.

Definition features (html : str) : Features :=
  mkFeatures (hasImages html) (hasLinks html) (hasCode html) (hasLists html).

Inductive LoopOut : Type :=
| OutOfFuel
| Undefined
| Got (analysis : Grok.Analysis).

Section WithEnv.

Variable env : Env.

Definition sanitizeHTML (htmlContent : str) : str :=
  match purify env htmlContent with
  | Some clean => clean
  | None => htmlContent
  end.

Definition extractTextContent (htmlContent : str) : str :=
  match bodyText env htmlContent with
  | Some textContent => trim textContent
  | None => trim (replace_all re_any_tag (const_ []) htmlContent)
  end.

(** The [while (attempt <= maxRetries)] loop of step 3. *)
Fixpoint analysisLoop (fuel : nat) (sanitizedContent promptTemplate : str)
  (maxRetries attempt : nat) : M LoopOut :=
  match fuel with
  | 0 => ret OutOfFuel
  | S fuel' =>
      if attempt <=? maxRetries then
        tryCatch
          (analysis <- Grok.analyzeContent env sanitizedContent promptTemplate
                         (7 + attempt) ;;
           ret (Got analysis))
          (fun error =>
             if attempt =? maxRetries then throw error
             else analysisLoop fuel' sanitizedContent promptTemplate
                    maxRetries (attempt + 1))
      else ret Undefined
  end.

Definition generateFallbackMetadata (htmlContent fallbackTitle : str)
  (error : str) : Metadata :=
  let extractedContent := extractTextContent htmlContent in
  let title := fallbackTitle in
  let slug := generateSlugFromTitle title in
  let description := generateDescriptionFromContent extractedContent in
  mkMetadata slug title description
    (getWordCount extractedContent)
    (calculateReadingTime extractedContent)
    (lit "general")
    (features htmlContent)
    (lit "fallback-analyzer")
    (Some (orElse error (lit "AI analysis failed, used fallback"))).

Definition analyzeContent (htmlContent : str) (options : Options) : M Metadata :=
  if isBlank htmlContent then throw (Error (lit "HTML content is required"))
  else
    tryCatch
      (let sanitizedContent :=
         if skipSanitization options then htmlContent
         else sanitizeHTML htmlContent in
       let extractedContent := extractTextContent sanitizedContent in
       let promptTemplate :=
         selectPromptTemplate (contentType options) extractedContent in
       out <- analysisLoop (S (maxRetries options)) sanitizedContent promptTemplate
                (maxRetries options) 0 ;;
       match out with
       | Got analysis =>
           let processed :=
             postProcessAnalysis analysis extractedContent (fallbackTitle options) in
           ret (mkMetadata
                  (Grok.a_slug processed) (Grok.a_title processed)
                  (Grok.a_description processed)
                  (getWordCount extractedContent)
                  (calculateReadingTime extractedContent)
                  (contentType options)
                  (features sanitizedContent)
                  (lit "grok-content-analyzer")
                  None)
       | Undefined =>
           throw (mkExn (lit "TypeError")
                        (lit "Cannot read properties of undefined") None)
       | OutOfFuel => throw (Error (lit "unreachable"))
       end)
      (fun error =>
         ret (generateFallbackMetadata htmlContent (fallbackTitle options)
                                       (emessage error))).

End WithEnv.

End Analyzer.

(** ** [database/models/post.js] *)

Module PostModel.

(** [value || null] *)
Definition orNull (v : option str) : option str :=
  match v with
  | Some s => if blank s then None else Some s
  | None => None
  end.

Definition orNullId (v : option nat) : option nat :=
  match v with
  | Some 0 => None
  | other => other
  end.

(** [new Post(data)] *)
Definition newPost (data : Post) : Post :=
  mkPost (orNullId (p_id data)) (orNull (p_slug data)) (orNull (p_title data))
         (orNull (p_description data)) (orNull (p_html_content data))
         (orNull (p_discord_user_id data)) (orNull (p_discord_username data))
         (orNull (p_created_at data)) (orNull (p_updated_at data)).

(** [!this.f || this.f.trim() === ''] *)
Definition missing (v : option str) : bool :=
  match v with
  | Some s => isBlank s
  | None => true
  end.

Definition validate (this : Post) : list str :=
  Slug.check (missing (p_slug this)) "Slug is required" ++
  Slug.check (missing (p_title this)) "Title is required" ++
  Slug.check (missing (p_description this)) "Description is required" ++
  Slug.check (missing (p_html_content this)) "HTML content is required" ++
  Slug.check (missing (p_discord_user_id this)) "Discord user ID is required" ++
  Slug.check (missing (p_discord_username this)) "Discord username is required" ++
  Slug.check
    (match p_slug this with
     | Some slug => negb (blank slug) && negb (test Grok.re_simple_slug slug)
     | None => false
     end)
    "Slug must contain only lowercase letters, numbers, and hyphens".

Definition text (v : option str) : str :=
  match v with Some s => s | None => [] end.

Definition postOfRow (r : Row) : Post :=
  mkPost (Some (r_id r)) (Some (r_slug r)) (Some (r_title r))
         (Some (r_description r)) (Some (r_html_content r))
         (Some (r_discord_user_id r)) (Some (r_discord_username r))
         (Some (r_created_at r)) (Some (r_updated_at r)).

Definition hasSlug (slug : str) (r : Row) : bool := str_eqb (r_slug r) slug.

(** What [dbAsync.run] resolves to.  [promisifyDb] (connection.js)
    wraps [db.run] with [util.promisify]; sqlite3 gives [lastID] and
    [changes] to the callback as [this] and passes it the error only,
    so the promise of a statement that ran resolves to [undefined]:
    [RunThis] is what a callback reading [this] would have seen, and
    is never produced. *)
Inductive RunResult : Type :=
| RunUndefined
| RunThis (lastID changes : nat).

Definition undefinedProperty (name : string) : Exn :=
  mkExn (lit "TypeError")
        (lit "Cannot read properties of undefined (reading '" ++ lit name ++ lit "')")
        None.

(** [result.lastID] and [result.changes] *)
Definition lastIDOf (result : RunResult) : Result nat :=
  match result with
  | RunThis lastID _ => Ok lastID
  | RunUndefined => Throw (undefinedProperty "lastID")
  end.

Definition changesOf (result : RunResult) : Result nat :=
  match result with
  | RunThis _ changes => Ok changes
  | RunUndefined => Throw (undefinedProperty "changes")
  end.

Section WithEnv.

Variable env : Env.

(** [SELECT id FROM posts WHERE slug = ?] *)
Definition selectBySlug (slug : str) : M (option Row) :=
  fun w =>
    (Ok (find (hasSlug slug) (rows (db w))),
     mkWorld (db w) (posted w) (log w ++ [EvSelectSlug slug])).

(** [INSERT INTO posts (...) VALUES (...)] through [dbAsync.run]: the
    UNIQUE constraint on [slug] is checked by the table itself; the id
    is the next value of the AUTOINCREMENT counter and both timestamps
    default to the current time.  The promise resolves to [undefined]
    once the row is written. *)
Definition insertPost (post : Post) : M RunResult :=
  fun w =>
    let slug := text (p_slug post) in
    if existsb (hasSlug slug) (rows (db w)) then
      (Throw (Error (lit "SQLITE_CONSTRAINT: UNIQUE constraint failed: posts.slug")), w)
    else
      let id := S (lastId (db w)) in
      let row :=
        mkRow id slug (text (p_title post)) (text (p_description post))
              (text (p_html_content post)) (text (p_discord_user_id post))
              (text (p_discord_username post))
              (timestamp env id) (timestamp env id) in
      (Ok RunUndefined, mkWorld (mkStore (rows (db w) ++ [row]) id) (posted w)
                                (log w ++ [EvInsert row])).

(** [SELECT * FROM posts WHERE id = ?] *)
Definition selectById (id : nat) : M (option Row) :=
  fun w => (Ok (find (fun r => r_id r =? id) (rows (db w))), w).

(** [Post.create(data)] *)
Definition create (data : Post) : M Post :=
  emit (EvCreate data) ;;;
  let post := newPost data in
  let validationErrors := validate post in
  if 0 <? length validationErrors then
    throw (Error (lit "Validation failed: " ++ joinWith (lit ", ") validationErrors))
  else
    existingPost <- selectBySlug (text (p_slug post)) ;;
    match existingPost with
    | Some _ =>
        throw (Error (lit "Post with slug '" ++ text (p_slug post) ++
                      lit "' already exists"))
    | None =>
        result <- insertPost post ;;
        lastID <- liftR (lastIDOf result) ;;
        createdPost <- selectById lastID ;;
        match createdPost with
        | Some row => ret (newPost (postOfRow row))
        | None => throw (undefinedProperty "id")
        end
    end.

End WithEnv.

End PostModel.

(** ** [bot/utils/file-handler.js] *)

Module FileHandler.

(** What [axios.get(attachment.url, ...)] comes back with. *)
Inductive Fetch : Type :=
| Fetched (data : str)
| FetchError (code : str) (message : str).

Record Attachment : Type := mkAttachment {
  at_url : str;
  at_name : str;
  at_size : N;
  at_fetch : Fetch
}.

Inductive Extracted : Type :=
| Success (content : str) (type : str) (filename : option str)
| Failure (error : ExtractError).

Definition newline : ascii := "010"%char.
Definition backtick : ascii := "096"%char.

(** [/<[a-zA-Z][^>]*>/] *)
Definition re_html_tag : re :=
  Seqs [Chr (eqc "<"); Chr isAlpha; Star (Chr (notb (eqc ">"))); Chr (eqc ">")].

Definition isValidHtml (content : str) : bool :=
  if isBlank content then false
  else
    let hasHtmlTags := test re_html_tag content in
    let tagCount := length (match_all re_html_tag content) in
    hasHtmlTags && (1 <=? tagCount).

(** Three backticks, an optional language word, an optional newline,
    the body (lazy), an optional newline, three backticks. *)
Definition re_code_block (lang : re) : re :=
  Seqs [ Lit "```"; lang; Opt (Chr (eqc newline));
         Group 1 (LazyStar (Chr (fun _ => true)));
         Opt (Chr (eqc newline)); Lit "```" ].

(** One backtick, one or more other characters, one backtick. *)
Definition inlineCodeRegex : re :=
  Seqs [ Chr (eqc backtick); Group 1 (Plus (Chr (notb (eqc backtick))));
         Chr (eqc backtick) ].

Fixpoint firstInline (matches : list Match) : option str :=
  match matches with
  | [] => None
  | mt :: rest =>
      let content :=
        trim (replace_all (Chr (eqc backtick)) (const_ []) (m_text mt)) in
      if isValidHtml content && (20 <? length content)
      then Some content else firstInline rest
  end.

Definition extractFromCodeBlock (messageContent : str) : option str :=
  let fromBlock (r : re) : option str :=
    match search r messageContent with
    | Some htmlMatch =>
        if negb (blank (group 1 htmlMatch)) then
          let htmlContent := trim (group 1 htmlMatch) in
          if isValidHtml htmlContent then Some htmlContent else None
        else None
    | None => None
    end in
  match fromBlock (re_code_block (LitI "html")) with
  | Some htmlContent => Some htmlContent
  | None =>
      match fromBlock (re_code_block Eps) with
      | Some content => Some content
      | None => firstInline (match_all inlineCodeRegex messageContent)
      end
  end.

(** [filename.toLowerCase().split('.')], last part. *)
Definition getFileExtension (filename : str) : str :=
  if isBlank filename then []
  else
    let parts := Security.splitChar "." (toLowerCase filename) in
    if 1 <? length parts then lit "." ++ last parts [] else [].

(** [MAX_FILE_SIZE], 25 MB by default. *)
Definition maxFileSize : N := 26214400%N.

Definition validateAttachment (attachment : Attachment) : option ExtractError :=
  let tooLarge := (maxFileSize <? at_size attachment)%N in
  let badExtension :=
    negb (mem (getFileExtension (at_name attachment))
              (lits [".html"; ".htm"; ".xhtml"])) in
  let noName := isBlank (at_name attachment) in
  let noUrl := blank (at_url attachment) in
  if tooLarge || badExtension || noName || noUrl
  then Some (InvalidAttachment tooLarge badExtension noName noUrl)
  else None.

Definition extractFromAttachment (attachment : Attachment) : Extracted :=
  match validateAttachment attachment with
  | Some error => Failure error
  | None =>
      match at_fetch attachment with
      | Fetched data =>
          if isBlank data then Failure EmptyDownload
          else
            let htmlContent := trim data in
            if negb (isValidHtml htmlContent) then Failure NotHtml
            else Success htmlContent (lit "attachment") (Some (at_name attachment))
      | FetchError code message =>
          if str_eqb code (lit "ENOTFOUND") || str_eqb code (lit "ECONNREFUSED")
          then Failure NetworkError
          else if str_eqb code (lit "ECONNABORTED")
          then Failure RequestTimeout
          else if includes (lit "maxContentLength") message
          then Failure FileTooLarge
          else Failure (ProcessFailed message)
      end
  end.

(** [extractContent(message)], given the message's attachments and text. *)
Definition extractContent (attachments : list Attachment) (content : str)
  : Extracted :=
  match attachments with
  | attachment :: _ => extractFromAttachment attachment
  | [] =>
      match extractFromCodeBlock content with
      | Some codeBlockContent => Success codeBlockContent (lit "codeblock") None
      | None => Failure NoContentFound
      end
  end.

End FileHandler.

(** ** [bot/commands/poop.js] *)

Module Command.

Import FileHandler.

Record Message : Type := mkMessage {
  msg_content : str;
  msg_attachments : list Attachment;
  author_id : str;
  author_username : str
}.

Definition detectContentType (htmlContent : str) : str :=
  let lowerContent := toLowerCase htmlContent in
  let has (w : string) := includes (lit w) lowerContent in
  if has "<code>" || has "<pre>" || has "function" || has "algorithm"
  then lit "technical"
  else if has "tutorial" || has "how to" || has "step" || has "guide"
  then lit "tutorial"
  else if has "breaking" || has "news" || has "announced" || has "report"
  then lit "news"
  else if has "story" || has "poem" || has "creative" || has "art"
  then lit "creative"
  else lit "general".

(** The pattern written [/\\.html?$/i] in the source: a backslash, any
    character but a line break, [htm], an optional [l], the end. *)
Definition re_html_suffix : re :=
  Seqs [ Chr (eqc "\"); Chr (fun c => negb (eqc "010" c || eqc "013" c));
         LitI "htm"; Opt (LitI "l"); Eos ].

Definition chat (o : Outgoing) : M unit := emit (EvChat o).

Section WithEnv.

Variable env : Env.

(** The [catch] block: the reply is chosen by what the message of the
    error contains. *)
Definition onError (error : Exn) : M unit :=
  let message := emessage error in
  let errorMessage :=
    if includes (lit "Validation failed") message then ReplyInvalidFormat
    else if includes (lit "slug") message && includes (lit "exists") message
    then ReplySlugExists
    else if includes (lit "API") message then ReplyServiceUnavailable
    else if includes (lit "Database") message then ReplyDatabaseError
    else ReplyFailed in
  chat errorMessage.

Definition handlePoopCommand (message : Message) : M unit :=
  if negb (startsWith (lit "!poop") (msg_content message)) then ret tt
  else
    chat SendTyping ;;;
    tryCatch
      (match extractContent (msg_attachments message) (msg_content message) with
       | Failure error => chat (ReplyExtractionError error)
       | Success htmlContent contentType filename =>
           if isBlank htmlContent then chat ReplyNoHtmlFound
           else
             chat ReplyProcessing ;;;
             analysis <-
               Analyzer.analyzeContent env htmlContent
                 (Analyzer.mkOptions
                    (detectContentType htmlContent)
                    false
                    (match filename with
                     | Some filename =>
                         if blank filename then lit "Discord Post"
                         else replace_first re_html_suffix (const_ []) filename
                     | None => lit "Discord Post"
                     end)
                    2) ;;
             chat EditAnalysisComplete ;;;
             sanitizedSlug <- liftR (Slug.cleanUserSlug (md_slug analysis) (random env)) ;;
             chat EditSaving ;;;
             post <-
               PostModel.create env
                 (mkPost None (Some sanitizedSlug) (Some (md_title analysis))
                         (Some (md_description analysis)) (Some htmlContent)
                         (Some (author_id message)) (Some (author_username message))
                         None None) ;;
             chat DeleteProcessing ;;;
             chat (ReplySuccess post analysis)
       end)
      onError.

End WithEnv.

End Command.

(** ** Notions used in the statements *)

Module Notions.

(** The length of the longest prefix made of characters of a class. *)
Fixpoint spanLen (p : ascii -> bool) (s : str) : nat :=
  match s with
  | [] => 0
  | c :: t => if p c then S (spanLen p t) else 0
  end.

(** Every run of characters of a class replaced by [rep]; [inrun] says
    that the previous character belonged to a run. *)
Fixpoint collapse_go (p : ascii -> bool) (rep : str) (inrun : bool) (s : str) : str :=
  match s with
  | [] => []
  | c :: t =>
      if p c then (if inrun then [] else rep) ++ collapse_go p rep true t
      else c :: collapse_go p rep false t
  end.

Definition collapse (p : ascii -> bool) (rep : str) (s : str) : str :=
  collapse_go p rep false s.

(** The longest suffix made of characters of a class removed. *)
Fixpoint trimEnd (p : ascii -> bool) (s : str) : str :=
  match s with
  | [] => []
  | c :: t => if forallb p (c :: t) then [] else c :: trimEnd p t
  end.

(** Two adjacent occurrences of a character. *)
Fixpoint hasDouble (d : ascii) (s : str) : bool :=
  match s with
  | a :: ((b :: _) as t) => (eqc d a && eqc d b) || hasDouble d t
  | _ => false
  end.

Definition headIs (p : ascii -> bool) (s : str) : bool :=
  match s with c :: _ => p c | [] => false end.

Fixpoint lastIs (p : ascii -> bool) (s : str) : bool :=
  match s with
  | [] => false
  | [c] => p c
  | _ :: t => lastIs p t
  end.

(** A character [validateSlug] accepts. *)
Definition allowed (c : ascii) : Prop := Slug.isSlugAllowed c = true.

(** What [escapeHTML] does to one character. *)
Definition escapable (c : ascii) : bool :=
  oneOf "&<>/" c || eqc dquote c || eqc squote c.

Definition escapeChar (c : ascii) : str :=
  if escapable c then Security.lookup Security.htmlEscapes [c] else [c].

(** The candidates [generateUniqueSlug] tries: the base slug, then the
    base with [-1], [-2], ... appended. *)
Definition candidate (baseSlug : str) (n : nat) : str :=
  match n with
  | 0 => baseSlug
  | S _ => baseSlug ++ lit "-" ++ decimal n
  end.

(** The slug taken when the budget of attempts is used up. *)
Definition fallbackSlug (baseSlug : str) (rnd : Slug.Rand) : str :=
  baseSlug ++ lit "-" ++ Slug.generateRandomString 8 rnd.

(** The answers a callback gives when it is asked about the given
    slugs one after the other, from the state [st] on. *)
Fixpoint answers {St : Type} (cb : str -> St -> bool * St) (slugs : list str) (st : St)
  : list bool :=
  match slugs with
  | [] => []
  | slug :: rest => let (found, st') := cb slug st in found :: answers cb rest st'
  end.

(** The position of the first answer that is no. *)
Fixpoint firstNo (bs : list bool) : option nat :=
  match bs with
  | [] => None
  | true :: rest => option_map S (firstNo rest)
  | false :: _ => Some 0
  end.

(** A string of [n] characters, each a small letter or a digit. *)
Definition randomSuffix (n : nat) (s : str) : Prop :=
  length s = n /\ Forall (fun c => isLower c || isDigit c = true) s.

(** An existence predicate that holds exactly on the listed slugs. *)
Definition existsIn (taken : list str) : str -> bool :=
  fun slug => mem slug taken.

(** A callback without state of its own. *)
Definition pureCallback (existsFn : str -> bool) : str -> unit -> bool * unit :=
  fun slug st => (existsFn slug, st).

(** The replies on which [makeRequest] tries again. *)
Definition retryable (r : HttpReply) : bool :=
  match r with
  | ReplyStatus status _ =>
      (status =? 429) || (status =? 502) || (status =? 503) || (status =? 504)
  | _ => false
  end.

(** The number of retries made when the next request is the i-th and
    [budget] retries are still allowed. *)
Fixpoint retriesFrom (env : Env) (i budget : nat) : nat :=
  match budget with
  | 0 => 0
  | S budget' =>
      if retryable (api env i) then S (retriesFrom env (S i) budget') else 0
  end.

(** The delays slept before retries [from], [from + 1], ... *)
Definition backoff (from k : nat) : list nat :=
  map (fun i => Grok.retryDelay * Nat.pow 2 i) (seq from k).

(** The events of one [makeRequest] that retries [k] times, starting
    with retry counter [retries]. *)
Fixpoint attemptEvents (rq : Request) (retries k : nat) : list Event :=
  match k with
  | 0 => [EvPost rq]
  | S k' =>
      EvPost rq :: EvSleep (Grok.retryDelay * Nat.pow 2 retries)
        :: attemptEvents rq (S retries) k'
  end.

(** An event of the API client carrying the given user content. *)
Definition netEvent (content : str) (e : Event) : Prop :=
  match e with
  | EvPost rq => rq_content rq = content
  | EvSleep _ => True
  | _ => False
  end.

(** The argument of [Post.create] in the command handler. *)
Definition submission (message : Command.Message) (slug title description html : str)
  : Post :=
  mkPost None (Some slug) (Some title) (Some description) (Some html)
         (Some (Command.author_id message)) (Some (Command.author_username message))
         None None.

(** A reply from which the client obtains metadata. *)
Definition usable (r : HttpReply) : bool :=
  match r with
  | Reply2xx (Content (PObject (VStr slug) (VStr title) (VStr description))) =>
      negb (blank slug) && negb (blank title) && negb (blank description)
  | _ => false
  end.

(** A call of the client whose first request is the i-th one ends,
    after its retries, on the reply [finalReply env i]; the next
    request is the one numbered [afterCall env i]. *)
Definition finalReply (env : Env) (i : nat) : HttpReply :=
  api env (i + retriesFrom env i Grok.maxRetries).

Definition afterCall (env : Env) (i : nat) : nat :=
  i + retriesFrom env i Grok.maxRetries + 1.

(** [n] calls of the client in a row, the first starting with the i-th
    request, each end on a reply from which no metadata is obtained. *)
Fixpoint callsFail (env : Env) (i n : nat) : bool :=
  match n with
  | 0 => true
  | S n' => negb (usable (finalReply env i)) && callsFail env (afterCall env i) n'
  end.

(** The analysis fails for good: the content to send is blank, which
    the client refuses, or every one of the [maxRetries + 1] calls of
    the client fails. *)
Definition analysisFails (env : Env) (content : str) (i maxRetries : nat) : bool :=
  isBlank content || callsFail env i (S maxRetries).

(** A well-formed table: ids do not exceed the AUTOINCREMENT counter
    and no two rows share a slug. *)
Definition storeOk (s : Store) : Prop :=
  Forall (fun r => r_id r <= lastId s) (rows s) /\ NoDup (map r_slug (rows s)).

(** A field that is present and not blank. *)
Definition filled (v : option str) : bool :=
  match v with
  | Some s => negb (isBlank s)
  | None => false
  end.

(** The data that pass the validation of [Post.create]: the six
    required fields are not blank and the slug has the format the
    model checks, [/^[a-z0-9-]+$/]. *)
Definition acceptable (data : Post) : bool :=
  filled (p_slug data) && filled (p_title data) && filled (p_description data) &&
  filled (p_html_content data) && filled (p_discord_user_id data) &&
  filled (p_discord_username data) &&
  match p_slug data with
  | Some slug => test Grok.re_simple_slug slug
  | None => false
  end.

(** The row [Post.create] writes for a validated post. *)
Definition rowOf (env : Env) (post : Post) (id : nat) : Row :=
  mkRow id (PostModel.text (p_slug post)) (PostModel.text (p_title post))
        (PostModel.text (p_description post)) (PostModel.text (p_html_content post))
        (PostModel.text (p_discord_user_id post))
        (PostModel.text (p_discord_username post))
        (timestamp env id) (timestamp env id).

(** What the response interceptor makes of a reply. *)
Definition postResult (r : HttpReply) : Result ApiData :=
  match r with
  | Reply2xx data => Ok data
  | ReplyStatus status msg =>
      Throw (Grok.GrokAPIError
               (lit "API request failed: " ++ decimal status ++ lit " - " ++
                match msg with Some m => m | None => lit "Unknown error" end)
               (Some status))
  | NoResponse =>
      Throw (Grok.GrokAPIError (lit "Network error: No response received from API") None)
  | SetupFailure msg =>
      Throw (Grok.GrokAPIError (lit "Request setup error: " ++ msg) None)
  end.

End Notions.

(** ** Scenarios *)

Module Scenarios.

Definition emptyWorld : World := mkWorld (mkStore [] 0) 0 [].

Definition goodReply : HttpReply :=
  Reply2xx (Content (PObject (VStr (lit "hello")) (VStr (lit "Hello"))
                             (VStr (lit "A greeting")))).

Definition noDescription : HttpReply :=
  Reply2xx (Content (PObject (VStr (lit "hello")) (VStr (lit "Hello")) VUndefined)).

(** An environment whose API answers [reply i] to the i-th request and
    whose HTML sanitizer is [clean]. *)
Definition envWith (reply : nat -> HttpReply) (clean : str -> option str) : Env :=
  mkEnv reply clean (fun _ => None) (fun _ => lit "2025-01-14 12:00:00") (fun _ => 0).

(** Three 503 replies, then a good one. *)
Definition threeThenGood (i : nat) : HttpReply :=
  if i <? 3 then ReplyStatus 503 None else goodReply.

Definition helloRow : Row :=
  mkRow 1 (lit "hello") (lit "Hello") (lit "A greeting") (lit "<p>Hello</p>")
        (lit "u0") (lit "user zero") (lit "2025-01-13 09:00:00")
        (lit "2025-01-13 09:00:00").

(** A store in which the slug [hello] is taken. *)
Definition helloWorld : World := mkWorld (mkStore [helloRow] 1) 0 [].

Definition helloData : Post :=
  mkPost None (Some (lit "hello")) (Some (lit "Hello again"))
         (Some (lit "Another greeting")) (Some (lit "<h1>Hello</h1>"))
         (Some (lit "u1")) (Some (lit "user one")) None None.

(** A stand-in for DOMPurify: the sanitizer of [utils/security.js]. *)
Definition scrub (html : str) : option str :=
  Some (Security.sanitizeHTML (fun _ => None) html Security.SAFE_HTML_CONFIG).

Definition scenarioHtml : str := lit "<h1>Hello</h1><script>alert(1)</script>".

(** The message of the end-to-end scenario, for the [!poop] command. *)
Definition scenarioMessage : Command.Message :=
  Command.mkMessage
    (lit "!poop ```html" ++ [FileHandler.newline] ++ scenarioHtml ++
     [FileHandler.newline] ++ lit "```")
    [] (lit "u1") (lit "user one").

End Scenarios.


(** * The rest of the utilities

    The functions of the same source files that the pipeline itself
    does not go through: the remaining security utilities, slug helpers,
    content helpers and queries of the post model. *)

From Stdlib Require Import ZArith Sorted.
From Stdlib Require HexadecimalString DecimalNat.

(** ** JavaScript [Map] objects with string keys

    The entries are kept in insertion order, which is the order of
    iteration; [set] on a key that is present replaces its value in
    place, [delete] removes the entry. *)

Module JsMap.

Section Map.

Variable V : Type.

Definition t : Type := list (str * V).

Fixpoint get (k : str) (m : t) : option V :=
  match m with
  | [] => None
  | (k', v) :: rest => if str_eqb k k' then Some v else get k rest
  end.

Fixpoint set (k : str) (v : V) (m : t) : t :=
  match m with
  | [] => [(k, v)]
  | (k', v') :: rest =>
      if str_eqb k k' then (k, v) :: rest else (k', v') :: set k v rest
  end.

Fixpoint delete (k : str) (m : t) : t :=
  match m with
  | [] => []
  | (k', v') :: rest =>
      if str_eqb k k' then rest else (k', v') :: delete k rest
  end.

Definition keys (m : t) : list str := map fst m.

End Map.

End JsMap.

(** ** [utils/security.js]: input validation *)

Module InputValidation.

Import Security.

(** The nine patterns of [xssPatterns], in the order of the source.
    Each is created by the call that uses it, so every [test] starts at
    the beginning of the input. *)
Definition xssPatterns : list re :=
  [ (* /<script\b[^<]*(?:(?!<\/script>)<[^<]* )*<\/script>/gi *)
    re_block "script";
    (* /on\w+\s*=\s*[QUOTE][^QUOTE]*[QUOTE]/gi *)
    Seqs [ re_on_handler; Star sp; Chr (eqc "="); Star sp;
           Chr isQuote; Star (Chr (notb isQuote)); Chr isQuote ];
    (* /javascript:/gi *)
    LitI "javascript:";
    (* /vbscript:/gi *)
    LitI "vbscript:";
    (* /data:(?!image\/)/gi *)
    Seq (LitI "data:") (NotAhead (LitI "image/"));
    (* /expression\s*\(/gi *)
    Seqs [ LitI "expression"; Star sp; Chr (eqc "(") ];
    (* /@import/gi *)
    LitI "@import";
    (* /behavior\s*:/gi *)
    Seqs [ LitI "behavior"; Star sp; Chr (eqc ":") ];
    (* /binding\s*:/gi *)
    Seqs [ LitI "binding"; Star sp; Chr (eqc ":") ] ].

(** A reported threat: its type is always XSS and its description is
    fixed, so it is the pattern that raised it. *)
Record Threat : Type := mkThreat {
  pattern : re
}.

Record InputCheck : Type := mkInputCheck {
  isValid : bool;
  threats : list Threat
}.

Definition validateInput (input : str) : InputCheck :=
  if blank input then mkInputCheck true []
  else
    let threats :=
      flat_map (fun pattern => if test pattern input then [mkThreat pattern] else [])
               xssPatterns in
    mkInputCheck (length threats =? 0) threats.

(** *** [validateFileUpload] *)

Record File : Type := mkFile {
  f_size : N;
  f_type : str;
  f_name : str
}.

Record UploadConfig : Type := mkUploadConfig {
  maxSize : N;
  allowedTypes : list str;
  allowedExtensions : list str
}.

(** The defaults of [validateFileUpload]: 10 MB, two MIME types, three
    extensions. *)
Definition defaultUploadConfig : UploadConfig :=
  mkUploadConfig (10 * 1024 * 1024)%N
                 (lits ["text/html"; "text/plain"]%string)
                 (lits [".html"; ".htm"; ".txt"]%string).

(** The four messages, by what they are built from. *)
Inductive UploadError : Type :=
| NoFileProvided
| FileSizeExceeds (maxSize : N)
| FileTypeNotAllowed (type : str)
| FileExtensionNotAllowed (extension : str).

Record UploadCheck : Type := mkUploadCheck {
  uploadValid : bool;
  uploadErrors : list UploadError
}.

(** [/\.[^.]+$/] *)
Definition re_extension : re :=
  Seqs [ Chr (eqc "."); Plus (Chr (notb (eqc "."))); Eos ].

(** [file.name.toLowerCase().match(/\.[^.]+$/)?.[0]], the empty string
    standing for [undefined]. *)
Definition extensionOf (name : str) : str :=
  match search re_extension (toLowerCase name) with
  | Some mt => m_text mt
  | None => []
  end.

Definition validateFileUpload (file : option File) (config : UploadConfig)
  : UploadCheck :=
  match file with
  | None => mkUploadCheck false [NoFileProvided]
  | Some file =>
      let errors :=
        (if (maxSize config <? f_size file)%N
         then [FileSizeExceeds (maxSize config)] else []) ++
        (if negb (mem (f_type file) (allowedTypes config))
         then [FileTypeNotAllowed (f_type file)] else []) ++
        (let extension := extensionOf (f_name file) in
         if negb (blank extension) && negb (mem extension (allowedExtensions config))
         then [FileExtensionNotAllowed extension] else []) in
      mkUploadCheck (length errors =? 0) errors
  end.

End InputValidation.

(** ** [utils/security.js]: [createRateLimiter]

    The limiter is a closure over a [Map] from identifiers to the times
    of their recent requests; a call reads the clock once.  The map is
    threaded explicitly and the clock reading is an argument.

    The numbers of the code are doubles.  Times, window and limit are
    whole numbers here, and sums and differences are the exact ones:
    that is what the code computes as long as the clock readings and
    the window lie between 0 and 2^52, so that no sum or difference
    leaves the range in which doubles are exact. *)

Module RateLimiter.

Open Scope Z_scope.

Definition Requests : Type := JsMap.t (list Z).

Inductive Decision : Type :=
| Allowed (remaining : Z)
| Denied (resetTime : option Z).   (* [None] is [Infinity] *)

Definition isAllowed (d : Decision) : bool :=
  match d with Allowed _ => true | Denied _ => false end.

(** [Math.min(...xs)]; [None] is [Infinity], the minimum of nothing. *)
Fixpoint minimum (xs : list Z) : option Z :=
  match xs with
  | [] => None
  | x :: rest =>
      match minimum rest with
      | Some y => Some (Z.min x y)
      | None => Some x
      end
  end.

Section Limiter.

Variable windowMs : Z.
Variable maxRequests : Z.

Definition recent (windowStart : Z) (timestamps : list Z) : list Z :=
  filter (fun time => windowStart <? time) timestamps.

(** The loop over [requests.entries()]: each key is visited once, and
    its entry is either deleted or replaced in place. *)
Definition cleanOld (windowStart : Z) (requests : Requests) : Requests :=
  fold_left
    (fun requests entry =>
       let key := fst entry in
       let validTimestamps := recent windowStart (snd entry) in
       if (length validTimestamps =? 0)%nat
       then JsMap.delete key requests
       else JsMap.set key validTimestamps requests)
    requests requests.

Definition limiter (now : Z) (identifier : str) (requests : Requests)
  : Decision * Requests :=
  let windowStart := now - windowMs in
  let requests := cleanOld windowStart requests in
  let currentRequests :=
    match JsMap.get identifier requests with
    | Some timestamps => timestamps
    | None => []
    end in
  let recentRequests := recent windowStart currentRequests in
  if maxRequests <=? Z.of_nat (length recentRequests) then
    (Denied (option_map (fun oldest => oldest + windowMs) (minimum recentRequests)),
     requests)
  else
    let recentRequests := recentRequests ++ [now] in
    (Allowed (maxRequests - Z.of_nat (length recentRequests)),
     JsMap.set identifier recentRequests requests).

(** A sequence of calls, each with the clock reading it sees. *)
Fixpoint run (calls : list (Z * str)) (requests : Requests)
  : list Decision * Requests :=
  match calls with
  | [] => ([], requests)
  | (now, identifier) :: rest =>
      let (d, requests') := limiter now identifier requests in
      let (ds, final) := run rest requests' in
      (d :: ds, final)
  end.

End Limiter.

Close Scope Z_scope.

End RateLimiter.

(** ** [utils/security.js]: [CSRFTokenManager] *)

Module CSRF.

Open Scope Z_scope.

Record TokenData : Type := mkTokenData {
  token : str;
  expiresAt : Z
}.

Definition Tokens : Type := JsMap.t TokenData.

(** 24 hours *)
Definition tokenExpiry : Z := 24 * 60 * 60 * 1000.

(** [byte.toString(16)] *)
Definition toString16 (n : nat) : str :=
  lit (HexadecimalString.NilZero.string_of_uint (Nat.to_hex_uint n)).

(** [s.padStart(n, c)] for a one-character filler *)
Definition padStart (n : nat) (c : ascii) (s : str) : str :=
  repeat c (n - length s) ++ s.

(** [crypto.getRandomValues] fills the array with bytes: [bytes i] is
    what lands in cell [i], read modulo 256. *)
Definition generateRandomToken (bytes : nat -> nat) : str :=
  concat (map (fun i => padStart 2 "0" (toString16 (bytes i mod 256))) (seq 0 32)).

Definition cleanExpiredTokens (now : Z) (tokens : Tokens) : Tokens :=
  fold_left
    (fun tokens entry =>
       if expiresAt (snd entry) <? now
       then JsMap.delete (fst entry) tokens else tokens)
    tokens tokens.

(** [generateToken] reads the clock twice: for the expiry of the new
    token ([now]) and in [cleanExpiredTokens] ([later]). *)
Definition generateToken (bytes : nat -> nat) (now later : Z) (sessionId : str)
  (tokens : Tokens) : str * Tokens :=
  let token := generateRandomToken bytes in
  let expiresAt := now + tokenExpiry in
  let tokens := JsMap.set sessionId (mkTokenData token expiresAt) tokens in
  let tokens := cleanExpiredTokens later tokens in
  (token, tokens).

Definition validateToken (now : Z) (sessionId : str) (tok : str) (tokens : Tokens)
  : bool * Tokens :=
  match JsMap.get sessionId tokens with
  | None => (false, tokens)
  | Some tokenData =>
      if expiresAt tokenData <? now
      then (false, JsMap.delete sessionId tokens)
      else (str_eqb (token tokenData) tok, tokens)
  end.

Close Scope Z_scope.

End CSRF.

(** ** [utils/slug-sanitizer.js]: [extractSlugFromHTML] *)

Module SlugTools.

Import Slug.

(** The class of [.]: any character but a line terminator. *)
Definition dot (c : ascii) : bool := negb (eqc "010" c || eqc "013" c).

(** [/<TAG[^>]*>(.*?)<\/TAG>/i] *)
Definition re_element (tag : string) : re :=
  Seqs [ LitI ("<" ++ tag); Star (Chr (notb (eqc ">"))); Chr (eqc ">");
         Group 1 (LazyStar (Chr dot)); LitI ("</" ++ tag ++ ">") ]%string.

(** [/<meta[^>]*name=[Q]description[Q][^>]*content=[Q]([^Q]+)[Q][^>]*>/i],
    where Q is either quote. *)
Definition re_meta_description : re :=
  Seqs [ LitI "<meta"; Star (Chr (notb (eqc ">")));
         LitI "name="; Chr Security.isQuote; LitI "description"; Chr Security.isQuote;
         Star (Chr (notb (eqc ">")));
         LitI "content="; Chr Security.isQuote;
         Group 1 (Plus (Chr (notb Security.isQuote))); Chr Security.isQuote;
         Star (Chr (notb (eqc ">"))); Chr (eqc ">") ].

(** [m && m[1]] for [m = s.match(r)]: the first group of the first
    match, empty when there is no match. *)
Definition firstGroup (r : re) (s : str) : str :=
  match search r s with
  | Some mt => group 1 mt
  | None => []
  end.

Definition extractSlugFromHTML (htmlContent : str) (rnd : Rand) : Result str :=
  if blank htmlContent then Ok []
  else
    let title := firstGroup (re_element "title") htmlContent in
    if negb (blank title) then titleToSlug title rnd
    else
      let h1 := firstGroup (re_element "h1") htmlContent in
      if negb (blank h1) then titleToSlug h1 rnd
      else
        let h2 := firstGroup (re_element "h2") htmlContent in
        if negb (blank h2) then titleToSlug h2 rnd
        else
          let meta := firstGroup re_meta_description htmlContent in
          if negb (blank meta) then titleToSlug meta rnd
          else
            (* .replace(/<[^>]*>/g, ' ').replace(/\s+/g, ' ').trim() *)
            let textContent :=
              trim (replace_all (Plus (Chr isSpace)) (const_ (lit " "))
                      (replace_all Analyzer.re_any_tag (const_ (lit " ")) htmlContent)) in
            if 0 <? length textContent then
              let words :=
                joinWith (lit " ") (firstn 5 (Security.splitChar " " textContent)) in
              titleToSlug words rnd
            else Ok [].

End SlugTools.

(** ** [bot/utils/file-handler.js]: [sanitizeHtmlContent] *)

Module ContentTools.

(** The seven elements removed with their content. *)
Definition dangerousPatterns : list re :=
  map Security.re_block
      ["script"; "iframe"; "object"; "embed"; "form"; "input"; "button"]%string.

Definition sanitizeHtmlContent (htmlContent : str) : str :=
  let sanitized := htmlContent in
  let sanitized :=
    fold_left (fun sanitized pattern => replace_all pattern (const_ []) sanitized)
              dangerousPatterns sanitized in
  let sanitized := replace_all (LitI "javascript:") (const_ []) sanitized in
  let sanitized := replace_all (LitI "vbscript:") (const_ []) sanitized in
  (* /\s*on\w+\s*=\s*[Q][^Q]*[Q]/gi *)
  let sanitized :=
    replace_all (Security.re_quoted_attr Security.re_on_handler) (const_ []) sanitized in
  sanitized.

End ContentTools.

(** ** [database/models/post.js]: queries, update and delete *)

Module PostQueries.

Import PostModel.

(** [SELECT * FROM posts WHERE slug = ?] *)
Definition findBySlug (slug : str) : M (option Post) :=
  if isBlank slug then ret None
  else
    fun w =>
      (Ok (match find (hasSlug (trim slug)) (rows (db w)) with
           | Some postData => Some (newPost (postOfRow postData))
           | None => None
           end), w).

(** [SELECT * FROM posts WHERE id = ?]; the id is a number. *)
Definition findById (id : nat) : M (option Post) :=
  if id =? 0 then ret None
  else
    fun w =>
      (Ok (match find (fun r => r_id r =? id) (rows (db w)) with
           | Some postData => Some (newPost (postOfRow postData))
           | None => None
           end), w).

(** [SELECT COUNT( * ) as count FROM posts] *)
Definition getCount : M nat :=
  fun w => (Ok (length (rows (db w))), w).

Definition isSlugAvailable (slug : str) : M bool :=
  if isBlank slug then ret false
  else
    existingPost <- findBySlug slug ;;
    ret (match existingPost with None => true | Some _ => false end).

(** The first part of [Post.generateUniqueSlug]; [trim] ignores the
    argument the source passes to it. *)
Definition baseSlugOf (title : str) : str :=
  let s := toLowerCase title in
  (* /[^a-z0-9\s-]/g *)
  let s := replace_all
             (Chr (fun c => negb (isLower c || isDigit c || isSpace c || eqc "-" c)))
             (const_ []) s in
  (* /\s+/g *)
  let s := replace_all (Plus (Chr isSpace)) (const_ (lit "-")) s in
  (* /-+/g *)
  let s := replace_all (Plus (Chr (eqc "-"))) (const_ (lit "-")) s in
  let s := trim s in
  if blank s then lit "untitled" else s.

(** The [while] loop of [Post.generateUniqueSlug]; [fuel] bounds the
    number of evaluations of its condition. *)
Fixpoint uniqueLoop (fuel : nat) (baseSlug : str) (counter : nat)
  : M (option str) :=
  match fuel with
  | 0 => ret None
  | S fuel' =>
      let uniqueSlug := baseSlug ++ lit "-" ++ decimal counter in
      available <- isSlugAvailable uniqueSlug ;;
      if negb available then uniqueLoop fuel' baseSlug (counter + 1)
      else ret (Some uniqueSlug)
  end.

Definition generateUniqueSlug_fuel (fuel : nat) (title : str) : M (option str) :=
  if isBlank title then throw (Error (lit "Title is required to generate slug"))
  else
    let baseSlug := baseSlugOf title in
    available <- isSlugAvailable baseSlug ;;
    if available then ret (Some baseSlug)
    else uniqueLoop fuel baseSlug 1.

(** A field of the argument of [update]: absent ([undefined]), [null]
    or a string. *)
Inductive Field : Type :=
| Absent
| Null
| Value (s : str).

Record UpdateData : Type := mkUpdateData {
  u_title : Field;
  u_description : Field;
  u_html_content : Field
}.

Definition given (f : Field) : bool :=
  match f with Absent => false | _ => true end.

(** One field of [{ ...this, ...updates }] *)
Definition merged (old : option str) (f : Field) : option str :=
  match f with
  | Absent => old
  | Null => None
  | Value s => Some s
  end.

(** What the [UPDATE] writes in one column: nothing for an absent
    field; a NULL violates the NOT NULL constraint of the column. *)
Definition written (old : str) (f : Field) : option str :=
  match f with
  | Absent => Some old
  | Null => None
  | Value s => Some s
  end.

Definition updateRow (now : str) (updates : UpdateData) (r : Row) : option Row :=
  match written (r_title r) (u_title updates),
        written (r_description r) (u_description updates),
        written (r_html_content r) (u_html_content updates) with
  | Some title, Some description, Some html_content =>
      Some (mkRow (r_id r) (r_slug r) title description html_content
                  (r_discord_user_id r) (r_discord_username r)
                  (r_created_at r) now)
  | _, _, _ => None
  end.

(** [UPDATE posts SET ..., updated_at = CURRENT_TIMESTAMP WHERE id = ?]
    on the whole table; [None] when a constraint fails. *)
Fixpoint updateRows (now : str) (updates : UpdateData) (id : nat) (rs : list Row)
  : option (list Row) :=
  match rs with
  | [] => Some []
  | r :: rest =>
      match (if r_id r =? id then updateRow now updates r else Some r),
            updateRows now updates id rest with
      | Some r', Some rest' => Some (r' :: rest')
      | _, _ => None
      end
  end.

(** [post.update(updateData)]; [now] is the value of CURRENT_TIMESTAMP
    when the statement runs. *)
Definition update (now : str) (this : Post) (updateData : UpdateData) : M Post :=
  match p_id this with
  | None | Some 0 => throw (Error (lit "Cannot update post without ID"))
  | Some id =>
      if negb (given (u_title updateData) || given (u_description updateData)
               || given (u_html_content updateData))
      then throw (Error (lit "No valid fields to update"))
      else
        let tempPost :=
          newPost (mkPost (p_id this) (p_slug this)
                          (merged (p_title this) (u_title updateData))
                          (merged (p_description this) (u_description updateData))
                          (merged (p_html_content this) (u_html_content updateData))
                          (p_discord_user_id this) (p_discord_username this)
                          (p_created_at this) (p_updated_at this)) in
        let validationErrors := validate tempPost in
        if 0 <? length validationErrors then
          throw (Error (lit "Validation failed: " ++ joinWith (lit ", ") validationErrors))
        else
          fun w =>
            match updateRows now updateData id (rows (db w)) with
            | None =>
                (Throw (Error (lit "SQLITE_CONSTRAINT: NOT NULL constraint failed")), w)
            | Some rows' =>
                let w' := mkWorld (mkStore rows' (lastId (db w))) (posted w) (log w) in
                match find (fun r => r_id r =? id) rows' with
                | Some updatedPost => (Ok (newPost (postOfRow updatedPost)), w')
                | None => (Throw (undefinedProperty "id"), w')
                end
            end
  end.

(** [DELETE FROM posts WHERE id = ?] through [dbAsync.run], which
    resolves to [undefined] once the statement has run. *)
Definition deleteRow (id : nat) : M RunResult :=
  fun w =>
    let kept := filter (fun r => negb (r_id r =? id)) (rows (db w)) in
    (Ok RunUndefined, mkWorld (mkStore kept (lastId (db w))) (posted w) (log w)).

(** [post.delete()]: the statement, then [result.changes > 0]. *)
Definition delete (this : Post) : M bool :=
  match p_id this with
  | None | Some 0 => throw (Error (lit "Cannot delete post without ID"))
  | Some id =>
      result <- deleteRow id ;;
      changes <- liftR (changesOf result) ;;
      ret (0 <? changes)
  end.

End PostQueries.

(** ** Notions used in the statements on the utilities *)

Module Terms.

(** The characters with a meaning in markup that [escapeHTML] leaves
    nowhere in its output. *)
Definition markup (c : ascii) : bool :=
  oneOf "<>/" c || eqc dquote c || eqc squote c.

(** A pattern every match of which begins with a character of a
    class. *)
Inductive Starts (p : ascii -> Prop) : re -> Prop :=
| Starts_Chr (q : ascii -> bool) :
    (forall c, q c = true -> p c) -> Starts p (Chr q)
| Starts_Seq (a b : re) : Starts p a -> Starts p (Seq a b)
| Starts_Alt (a b : re) : Starts p a -> Starts p b -> Starts p (Alt a b)
| Starts_Group (i : nat) (a : re) : Starts p a -> Starts p (Group i a).

(** A pattern that matches at no position of a string; [pv] is the
    character before the string. *)
Fixpoint NoMatch (r : re) (pv : option ascii) (s : str) : Prop :=
  exec_at r pv s = None /\
  match s with
  | [] => True
  | c :: t => NoMatch r (Some c) t
  end.

(** The pattern with which [generateSlug] trims hyphens and dots at
    both ends. *)
Definition re_trim_dashdot : re :=
  Alt (Seq Bos (Plus (Chr Slug.isDashDot))) (Seq (Plus (Chr Slug.isDashDot)) Eos).

(** [a] is [b] with some characters left out. *)
Inductive Subseq : str -> str -> Prop :=
| Subseq_nil : Subseq [] []
| Subseq_drop (c : ascii) (a b : str) : Subseq a b -> Subseq a (c :: b)
| Subseq_keep (c : ascii) (a b : str) : Subseq a b -> Subseq (c :: a) (c :: b).

(** The characters of [/^[a-z0-9-]+$/]. *)
Definition simpleChar (c : ascii) : bool := isLower c || isDigit c || eqc "-" c.

Definition simple (c : ascii) : Prop := simpleChar c = true.

(** [s] ends with [suffix]. *)
Definition endsWith (suffix s : str) : bool :=
  startsWith (rev suffix) (rev s).

(** One step of a loop over the entries of a [Map] that, for each entry,
    either deletes it or stores a new value under its key. *)
Definition sweepStep {V : Type} (f : V -> option V) (acc : JsMap.t V)
  (entry : str * V) : JsMap.t V :=
  match f (snd entry) with
  | None => JsMap.delete (fst entry) acc
  | Some v => JsMap.set (fst entry) v acc
  end.

(** The value a [Map] of lists reads as at a key: the list stored there,
    or no request at all. *)
Definition view (requests : RateLimiter.Requests) (identifier : str) : list Z :=
  match JsMap.get identifier requests with
  | Some timestamps => timestamps
  | None => []
  end.

(** What the cleaning loop of the limiter does with one entry. *)
Definition keep (windowStart : Z) (timestamps : list Z) : option (list Z) :=
  if length (RateLimiter.recent windowStart timestamps) =? 0 then None
  else Some (RateLimiter.recent windowStart timestamps).

(** The times at which the calls of one identifier were let through,
    given the calls of a run and the decisions taken on them. *)
Fixpoint granted (identifier : str) (calls : list (Z * str))
  (decisions : list RateLimiter.Decision) : list Z :=
  match calls, decisions with
  | (now, id) :: calls', d :: decisions' =>
      (if RateLimiter.isAllowed d && str_eqb id identifier then [now] else []) ++
      granted identifier calls' decisions'
  | _, _ => []
  end.

(** The times of a list that fall in the window of length [windowMs]
    ending at [t], the end included. *)
Definition inWindow (windowMs t : Z) (times : list Z) : list Z :=
  filter (fun g => ((t - windowMs <? g) && (g <=? t))%Z) times.

(** A time or a length of time in milliseconds for which the sums and
    differences of the limiter are exact in doubles. *)
Definition exactTime (x : Z) : Prop := (0 <= x <= 2 ^ 52)%Z.

(** The replies of the command handler that report a failure (the
    error of the extractor and the replies of the [catch] block), and
    those that report progress. *)
Definition failureAnswer (o : Outgoing) : bool :=
  match o with
  | ReplyExtractionError _ | ReplyFailed | ReplyInvalidFormat
  | ReplySlugExists | ReplyServiceUnavailable | ReplyDatabaseError => true
  | _ => false
  end.

Definition progress (o : Outgoing) : bool :=
  match o with
  | ReplyProcessing | EditAnalysisComplete | EditSaving | DeleteProcessing => true
  | _ => false
  end.

(** The options with which the command handler calls the analyzer. *)
Definition handlerOptions (html : str) (filename : option str) : Analyzer.Options :=
  Analyzer.mkOptions
    (Command.detectContentType html)
    false
    (match filename with
     | Some filename =>
         if blank filename then lit "Discord Post"
         else replace_first Command.re_html_suffix (const_ []) filename
     | None => lit "Discord Post"
     end)
    2.

(** The value of a column after an update with the given field. *)
Definition chosen (old : str) (f : PostQueries.Field) : str :=
  match f with
  | PostQueries.Value s => s
  | _ => old
  end.

(** How a row of the table and the row at the same place after
    [update] of the post with the given id are related. *)
Definition updatedFrom (now : str) (updateData : PostQueries.UpdateData) (id : nat)
  (r r' : Row) : Prop :=
  r_id r' = r_id r /\
  r_slug r' = r_slug r /\
  r_discord_user_id r' = r_discord_user_id r /\
  r_discord_username r' = r_discord_username r /\
  r_created_at r' = r_created_at r /\
  if r_id r =? id then
    r_title r' = chosen (r_title r) (PostQueries.u_title updateData) /\
    r_description r' = chosen (r_description r) (PostQueries.u_description updateData) /\
    r_html_content r' = chosen (r_html_content r) (PostQueries.u_html_content updateData) /\
    r_updated_at r' = now
  else r' = r.

(** The candidates of [Post.generateUniqueSlug]. *)
Definition numbered (baseSlug : str) (n : nat) : str :=
  baseSlug ++ lit "-" ++ decimal n.

(** A hexadecimal digit in lower case. *)
Definition hexDigit (c : ascii) : bool := isDigit c || in_range 97 102 c.

End Terms.

(** * Properties *)

(** ** The matcher on simple patterns *)

Module RegexFacts.

Lemma exec_at_chr (p : ascii -> bool) (pv : option ascii) (c : ascii) (s : str) :
  exec_at (Chr p) pv (c :: s) = if p c then Some (1, []) else None.
Proof. unfold exec_at; simpl. destruct (p c); reflexivity. Qed.

Lemma exec_at_chr_nil (p : ascii -> bool) (pv : option ascii) :
  exec_at (Chr p) pv [] = None.
Proof. reflexivity. Qed.

(** A global replacement of a one-character class is a [flat_map]. *)
Lemma replace_go_chr (p : ascii -> bool) (f : Match -> str) (s : str) :
  forall pv,
    replace_go (Chr p) f pv s 0 =
    flat_map (fun c => if p c then f (mkMatch [c] []) else [c]) s.
Proof.
  induction s as [|c s IH]; intro pv.
  - reflexivity.
  - cbn [replace_go flat_map]. rewrite exec_at_chr.
    destruct (p c); cbn [firstn]; rewrite IH; reflexivity.
Qed.

End RegexFacts.

(** ** Escaping and unescaping ([utils/security.js]) *)

Module SecurityFacts.

Import Security RegexFacts Notions.

Lemma escapeHTML_flat_map (s : str) : escapeHTML s = flat_map escapeChar s.
Proof.
  unfold escapeHTML. destruct s as [|c s]; [reflexivity|].
  cbn [blank]. unfold replace_all, re_escapable. rewrite replace_go_chr. reflexivity.
Qed.

Lemma entity_no_match (pv : option ascii) (c : ascii) (s : str) :
  (c =? "&")%char = false -> exec_at re_entity pv (c :: s) = None.
Proof. intro H. unfold exec_at; cbn. unfold eqc. rewrite H. reflexivity. Qed.

(** One step of unescaping over the image of one character. *)
Lemma unescape_step (c : ascii) (rest : str) (pv : option ascii) :
  exists pv',
    replace_go re_entity unescapeEntity pv (escapeChar c ++ rest) 0 =
    c :: replace_go re_entity unescapeEntity pv' rest 0.
Proof.
  unfold escapeChar. destruct (escapable c) eqn:E.
  - destruct c as [[] [] [] [] [] [] [] []]; vm_compute in E; try discriminate E;
      eexists; reflexivity.
  - assert (A : (c =? "&")%char = false).
    { destruct (c =? "&")%char eqn:A; [|reflexivity].
      apply Ascii.eqb_eq in A. subst c. discriminate E. }
    exists (Some c). cbn [app replace_go]. rewrite entity_no_match by exact A.
    reflexivity.
Qed.

Lemma unescape_flat_map (s : str) :
  forall pv, replace_go re_entity unescapeEntity pv (flat_map escapeChar s) 0 = s.
Proof.
  induction s as [|c s IH]; intro pv.
  - reflexivity.
  - cbn [flat_map]. destruct (unescape_step c (flat_map escapeChar s) pv) as [pv' H].
    rewrite H, IH. reflexivity.
Qed.

(** C9.  For every string [s], [unescapeHTML (escapeHTML s) = s]:
    escaping followed by unescaping is the identity, also on strings
    that already contain entity sequences. *)
Theorem unescape_escape_id (s : str) :
  Security.unescapeHTML (Security.escapeHTML s) = s.
Proof.
  rewrite escapeHTML_flat_map. unfold unescapeHTML.
  destruct (blank (flat_map escapeChar s)) eqn:B.
  - destruct s as [|c s]; [reflexivity|]. exfalso.
    cbn [flat_map] in B. unfold escapeChar in B.
    destruct (escapable c) eqn:E.
    + destruct c as [[] [] [] [] [] [] [] []]; vm_compute in E; try discriminate E;
        discriminate B.
    + discriminate B.
  - apply unescape_flat_map.
Qed.

Example unescape_escape_amp :
  Security.unescapeHTML (Security.escapeHTML (lit "a &amp; <b>")) = lit "a &amp; <b>".
Proof. reflexivity. Qed.

End SecurityFacts.

(** ** The matcher on the patterns of the slug utility *)

Module ClassFacts.

Import Notions RegexFacts.

Lemma m_Seq (a b : re) (st : MState) (k : MState -> option MState) :
  m (Seq a b) st k = m a st (fun st' => m b st' k).
Proof. reflexivity. Qed.

Lemma m_Chr_cons (p : ascii -> bool) (pv : option ascii) (c : ascii) (t : str)
  (ps : nat) (cs : Caps) (k : MState -> option MState) :
  m (Chr p) (mkM pv (c :: t) ps cs) k =
  if p c then k (mkM (Some c) t (S ps) cs) else None.
Proof. reflexivity. Qed.

Lemma m_Chr_nil (p : ascii -> bool) (pv : option ascii) (ps : nat) (cs : Caps)
  (k : MState -> option MState) :
  m (Chr p) (mkM pv [] ps cs) k = None.
Proof. reflexivity. Qed.

Section Class.

Variable p : ascii -> bool.

(** One step of a greedy star over a class. *)
Lemma m_star_chr_cons (pv : option ascii) (c : ascii) (t : str) (ps : nat) (cs : Caps)
  (k : MState -> option MState) :
  m (Star (Chr p)) (mkM pv (c :: t) ps cs) k =
  if p c then
    match m (Star (Chr p)) (mkM (Some c) t (S ps) cs) k with
    | Some x => Some x
    | None => k (mkM pv (c :: t) ps cs)
    end
  else k (mkM pv (c :: t) ps cs).
Proof.
  cbn [m rest length pos caps]. destruct (p c); [|reflexivity].
  replace (ps <? S ps) with true by (symmetry; apply Nat.ltb_lt; lia).
  reflexivity.
Qed.

Lemma m_star_chr_nil (pv : option ascii) (ps : nat) (cs : Caps)
  (k : MState -> option MState) :
  m (Star (Chr p)) (mkM pv [] ps cs) k = k (mkM pv [] ps cs).
Proof. reflexivity. Qed.

(** At the end of a pattern the star takes the whole run. *)
Lemma m_star_chr_accept (s : str) :
  forall pv ps cs,
    exists pv',
      m (Star (Chr p)) (mkM pv s ps cs) (fun st => Some st) =
      Some (mkM pv' (skipn (spanLen p s) s) (ps + spanLen p s) cs).
Proof.
  induction s as [|c t IH]; intros pv ps cs.
  - exists pv. rewrite m_star_chr_nil. cbn [spanLen skipn]. rewrite Nat.add_0_r. reflexivity.
  - rewrite m_star_chr_cons. cbn [spanLen]. destruct (p c).
    + destruct (IH (Some c) (S ps) cs) as [pv' E]. rewrite E. exists pv'.
      cbn [skipn]. f_equal. f_equal. lia.
    + exists pv. cbn [skipn]. rewrite Nat.add_0_r. reflexivity.
Qed.

(** Before the end of the input the star succeeds only by taking all
    that is left. *)
Lemma m_star_chr_eos (s : str) :
  forall pv ps cs,
    if forallb p s
    then exists pv',
           m (Star (Chr p)) (mkM pv s ps cs) (fun st => m Eos st (fun st' => Some st')) =
           Some (mkM pv' [] (ps + length s) cs)
    else m (Star (Chr p)) (mkM pv s ps cs) (fun st => m Eos st (fun st' => Some st')) =
         None.
Proof.
  induction s as [|c t IH]; intros pv ps cs.
  - cbn [forallb]. exists pv. rewrite m_star_chr_nil. cbn. rewrite Nat.add_0_r. reflexivity.
  - rewrite m_star_chr_cons. cbn [forallb]. destruct (p c); [|reflexivity].
    specialize (IH (Some c) (S ps) cs). cbn [andb]. destruct (forallb p t).
    + destruct IH as [pv' E]. rewrite E. exists pv'. cbn [length].
      f_equal. f_equal. lia.
    + rewrite IH. reflexivity.
Qed.

Lemma exec_at_plus (pv : option ascii) (s : str) :
  exec_at (Plus (Chr p)) pv s =
  match spanLen p s with
  | 0 => None
  | S n => Some (S n, [])
  end.
Proof.
  unfold exec_at, Plus. rewrite m_Seq.
  destruct s as [|c t]; [reflexivity|]. rewrite m_Chr_cons.
  cbn [spanLen]. destruct (p c); [|reflexivity].
  destruct (m_star_chr_accept t (Some c) 1 []) as [pv' E]. rewrite E. reflexivity.
Qed.

Lemma exec_at_plus_eos (pv : option ascii) (s : str) :
  exec_at (Seq (Plus (Chr p)) Eos) pv s =
  if negb (blank s) && forallb p s then Some (length s, []) else None.
Proof.
  unfold exec_at, Plus. rewrite !m_Seq.
  destruct s as [|c t]; [reflexivity|]. rewrite m_Chr_cons.
  cbn [blank negb andb forallb]. destruct (p c); [|reflexivity].
  pose proof (m_star_chr_eos t (Some c) 1 []) as E. cbn [andb].
  destruct (forallb p t).
  - destruct E as [pv' E]. rewrite E. reflexivity.
  - rewrite E. reflexivity.
Qed.

Lemma exec_at_bos_some (r : re) (x : ascii) (s : str) :
  exec_at (Seq Bos r) (Some x) s = None.
Proof. reflexivity. Qed.

Lemma exec_at_bos_none (r : re) (s : str) :
  exec_at (Seq Bos r) None s = exec_at r None s.
Proof. reflexivity. Qed.

(** A global replacement of the runs of a class. *)
Lemma replace_go_plus (rep : str) (s : str) :
  forall pv,
    replace_go (Plus (Chr p)) (const_ rep) pv s 0 = collapse_go p rep false s /\
    replace_go (Plus (Chr p)) (const_ rep) pv s (spanLen p s) = collapse_go p rep true s.
Proof.
  induction s as [|c t IH]; intro pv; [split; reflexivity|].
  destruct (IH (Some c)) as [IH0 IH1].
  assert (Z : replace_go (Plus (Chr p)) (const_ rep) pv (c :: t) 0 =
              collapse_go p rep false (c :: t)).
  { cbn [replace_go collapse_go]. rewrite exec_at_plus. cbn [spanLen].
    destruct (p c).
    - unfold const_ at 1. rewrite IH1. reflexivity.
    - rewrite IH0. reflexivity. }
  split; [exact Z|].
  cbn [spanLen]. destruct (p c) eqn:E.
  - cbn [replace_go collapse_go]. rewrite E, IH1. reflexivity.
  - rewrite Z. cbn [collapse_go]. rewrite E. reflexivity.
Qed.

Lemma replace_all_plus (rep s : str) :
  replace_all (Plus (Chr p)) (const_ rep) s = collapse p rep s.
Proof. apply replace_go_plus. Qed.

(** The anchored trimming replacements. *)
Lemma replace_first_go_bos (r : re) (f : Match -> str) (s : str) :
  forall x, replace_first_go (Seq Bos r) f (Some x) s = s.
Proof.
  induction s as [|c t IH]; intro x; cbn [replace_first_go]; rewrite exec_at_bos_some;
    [reflexivity|]. rewrite IH. reflexivity.
Qed.

Lemma skipn_spanLen (s : str) : skipn (spanLen p s) s = dropWhile p s.
Proof.
  induction s as [|c t IH]; [reflexivity|]. cbn [spanLen dropWhile].
  destruct (p c); [exact IH|reflexivity].
Qed.

Lemma replace_first_trim_start (s : str) :
  replace_first (Seq Bos (Plus (Chr p))) (const_ []) s = dropWhile p s.
Proof.
  unfold replace_first. destruct s as [|c t]; [reflexivity|].
  cbn [replace_first_go]. rewrite exec_at_bos_none, exec_at_plus.
  cbn [spanLen dropWhile]. destruct (p c).
  - unfold const_. cbn [app skipn]. apply skipn_spanLen.
  - rewrite replace_first_go_bos. reflexivity.
Qed.

Lemma replace_first_go_trim_end (s : str) :
  forall pv,
    replace_first_go (Seq (Plus (Chr p)) Eos) (const_ []) pv s = trimEnd p s.
Proof.
  induction s as [|c t IH]; intro pv; [reflexivity|].
  cbn [replace_first_go]. rewrite exec_at_plus_eos. cbn [blank negb andb trimEnd].
  destruct (forallb p (c :: t)).
  - unfold const_. cbn [app]. apply skipn_all.
  - rewrite IH. reflexivity.
Qed.

Lemma replace_first_trim_end (s : str) :
  replace_first (Seq (Plus (Chr p)) Eos) (const_ []) s = trimEnd p s.
Proof. apply replace_first_go_trim_end. Qed.

(** The tests of [validateSlug]. *)
Lemma search_go_bos (r : re) (s : str) :
  forall x, search_go (Seq Bos r) (Some x) s = None.
Proof.
  induction s as [|c t IH]; intro x; cbn [search_go]; rewrite exec_at_bos_some;
    [reflexivity|apply IH].
Qed.

Lemma test_bos (r : re) (s : str) :
  test (Seq Bos r) s = match exec_at r None s with Some _ => true | None => false end.
Proof.
  unfold test, search. destruct s as [|c t]; cbn [search_go]; rewrite exec_at_bos_none.
  - destruct (exec_at r None []) as [[n cs]|]; reflexivity.
  - destruct (exec_at r None (c :: t)) as [[n cs]|]; [reflexivity|].
    rewrite search_go_bos. reflexivity.
Qed.

Lemma test_anchored_class (s : str) :
  test (Seqs [Bos; Plus (Chr p); Eos]) s = negb (blank s) && forallb p s.
Proof.
  cbn [Seqs]. rewrite test_bos, exec_at_plus_eos.
  destruct (negb (blank s) && forallb p s); reflexivity.
Qed.

Lemma test_head (s : str) : test (Seq Bos (Chr p)) s = headIs p s.
Proof.
  rewrite test_bos. destruct s as [|c t]; [reflexivity|].
  rewrite exec_at_chr. cbn [headIs]. destruct (p c); reflexivity.
Qed.

Lemma exec_at_chr_eos (pv : option ascii) (s : str) :
  exec_at (Seq (Chr p) Eos) pv s =
  match s with
  | [c] => if p c then Some (1, []) else None
  | _ => None
  end.
Proof.
  unfold exec_at. cbn [m rest pos caps]. destruct s as [|c [|d t]]; try reflexivity.
  - destruct (p c); reflexivity.
  - destruct (p c); reflexivity.
Qed.

Lemma test_last (s : str) : test (Seq (Chr p) Eos) s = lastIs p s.
Proof.
  unfold test, search. generalize (@None ascii) as pv.
  induction s as [|c t IH]; intro pv; [reflexivity|].
  cbn [search_go]. rewrite exec_at_chr_eos.
  destruct t as [|d t].
  - cbn [lastIs]. destruct (p c); reflexivity.
  - rewrite IH. reflexivity.
Qed.

End Class.

Lemma exec_at_double (d : ascii) (pv : option ascii) (s : str) :
  exec_at (Seq (Chr (eqc d)) (Plus (Chr (eqc d)))) pv s =
  match s with
  | a :: b :: t =>
      if eqc d a && eqc d b then Some (2 + spanLen (eqc d) t, []) else None
  | _ => None
  end.
Proof.
  unfold exec_at, Plus. rewrite !m_Seq.
  destruct s as [|a [|b t]]; [reflexivity| |].
  - rewrite m_Chr_cons. destruct (eqc d a); reflexivity.
  - rewrite m_Chr_cons. destruct (eqc d a); [|reflexivity].
    cbn beta. rewrite m_Seq, m_Chr_cons. destruct (eqc d b); [|reflexivity].
    destruct (m_star_chr_accept (eqc d) t (Some b) 2 []) as [pv' E]. rewrite E.
    reflexivity.
Qed.

Lemma test_double (d : ascii) (s : str) :
  test (Seq (Chr (eqc d)) (Plus (Chr (eqc d)))) s = hasDouble d s.
Proof.
  unfold test, search. generalize (@None ascii) as pv.
  induction s as [|a t IH]; intro pv; [reflexivity|].
  cbn [search_go]. rewrite exec_at_double.
  destruct t as [|b t]; [reflexivity|].
  cbn [hasDouble]. destruct (eqc d a && eqc d b); [reflexivity|].
  rewrite IH. reflexivity.
Qed.

(** Whatever the pattern, a replacement whose output stays in a class
    keeps a string in that class. *)
Lemma replace_go_Forall (q : ascii -> Prop) (r : re) (f : Match -> str) (s : str) :
  (forall mt, Forall q (f mt)) ->
  Forall q s ->
  forall pv skip, Forall q (replace_go r f pv s skip).
Proof.
  intros Hf Hs. induction Hs as [|c t Hc Ht IH]; intros pv skip.
  - destruct skip; cbn [replace_go]; [|constructor].
    destruct (exec_at r pv []) as [[n cs]|]; [|constructor].
    rewrite app_nil_r. apply Hf.
  - destruct skip as [|j]; cbn [replace_go]; [|apply IH].
    destruct (exec_at r pv (c :: t)) as [[n cs]|].
    + apply Forall_app. split; [apply Hf|].
      destruct n; [constructor; [exact Hc|apply IH]|apply IH].
    + constructor; [exact Hc|apply IH].
Qed.

End ClassFacts.

(** ** The sanitizer of [utils/security.js] on script elements *)

Module SanitizerFacts.

Import Security.

(** C2.  The input below contains a [<script>] element, yet the output
    of [sanitizeHTML] is a complete script element: the tag filter
    removes the two [<x>] tags after the script pass has run, and what
    is left is never looked at again.  So the output does contain
    [<script], whatever the URL parser of the platform does. *)
Theorem sanitizeHTML_script_survives (urlProtocol : str -> option str) :
  let input := lit "<script>1</script><<x>script>alert(1)<<x>/script>" in
  test (re_block "script") input = true /\
  sanitizeHTML urlProtocol input SAFE_HTML_CONFIG = lit "<script>alert(1)</script>" /\
  includes (lit "<script")
    (toLowerCase (sanitizeHTML urlProtocol input SAFE_HTML_CONFIG)) = true.
Proof. vm_compute. repeat split. Qed.

(** The sanitizer does what the specification expects on the input of
    its end-to-end scenario. *)
Example sanitizeHTML_scenario (urlProtocol : str -> option str) :
  sanitizeHTML urlProtocol (lit "<h1>Hello</h1><script>alert(1)</script>")
    SAFE_HTML_CONFIG = lit "<h1>Hello</h1>".
Proof. vm_compute. reflexivity. Qed.

End SanitizerFacts.

(** ** [generateUniqueSlug] *)

Module UniqueSlugFacts.

Import Slug Notions.

Lemma candidate_succ (base : str) (j : nat) :
  base ++ lit "-" ++ decimal (S j) = candidate base (S j).
Proof. reflexivity. Qed.

Lemma seq_snoc (j n : nat) : seq j (S n) = seq j n ++ [j + n].
Proof. rewrite seq_S. reflexivity. Qed.

Section Stateful.

Variable St : Type.
Variable cb : str -> St -> bool * St.
Variable base : str.
Variable rnd : Rand.

Lemma answers_cons (slug : str) (rest : list str) (st : St) :
  answers cb (slug :: rest) st =
  fst (cb slug st) :: answers cb rest (snd (cb slug st)).
Proof. cbn [answers]. destruct (cb slug st). reflexivity. Qed.

(** The loop from the j-th candidate on, by the answers the callback
    gives: it stops at the first no; after 101 - j times yes it takes
    the random fallback. *)
Lemma uniqueLoop_answers (fuel : nat) :
  forall j st calls,
    j <= 100 -> 100 - j < fuel ->
    exists run,
      uniqueLoop cb fuel base rnd (candidate base j) (S j) st calls = Some run /\
      match firstNo (answers cb (map (candidate base) (seq j (101 - j))) st) with
      | Some d =>
          j + d <= 100 /\
          run_calls run = calls ++ map (candidate base) (seq j (S d)) /\
          run_slug run = candidate base (j + d)
      | None =>
          run_calls run = calls ++ map (candidate base) (seq j (101 - j)) /\
          run_slug run = fallbackSlug base rnd
      end.
Proof.
  induction fuel as [|fuel IH]; intros j st calls Hj Hf; [lia|].
  replace (101 - j) with (S (100 - j)) by lia.
  cbn [uniqueLoop seq map]. rewrite answers_cons.
  destruct (cb (candidate base j) st) as [found st'] eqn:E. cbn [fst snd firstNo].
  destruct found.
  - unfold maxAttempts. destruct (100 <? S j) eqn:L.
    + apply Nat.ltb_lt in L. assert (j = 100) by lia. subst j.
      eexists. split; [reflexivity|]. cbn [run_calls run_slug].
      split; reflexivity.
    + apply Nat.ltb_ge in L. rewrite candidate_succ.
      destruct (IH (S j) st' (calls ++ [candidate base j])) as (run & H1 & H2);
        [lia|lia|].
      exists run. split; [exact H1|].
      replace (101 - S j) with (100 - j) in H2 by lia.
      destruct (firstNo (answers cb (map (candidate base) (seq (S j) (100 - j))) st'))
        as [d|]; cbn [option_map].
      * destruct H2 as (B & C & R). split; [lia|]. split.
        -- rewrite C, <- app_assoc. reflexivity.
        -- rewrite R. f_equal. lia.
      * destruct H2 as (C & R). split; [|exact R].
        rewrite C, <- app_assoc. reflexivity.
  - eexists. split; [reflexivity|]. cbn [run_calls run_slug].
    split; [lia|]. split; [reflexivity|]. rewrite Nat.add_0_r. reflexivity.
Qed.

Lemma randomChars_class (k : nat) :
  k < 36 -> isLower (nth k randomChars "a"%char) || isDigit (nth k randomChars "a"%char) = true.
Proof.
  assert (A : forallb (fun k => isLower (nth k randomChars "a"%char)
                                || isDigit (nth k randomChars "a"%char)) (seq 0 36) = true)
    by (vm_compute; reflexivity).
  intro Hk. rewrite forallb_forall in A. apply A, in_seq. lia.
Qed.

Lemma generateRandomString_suffix (n : nat) : randomSuffix n (generateRandomString n rnd).
Proof.
  unfold randomSuffix, generateRandomString. split.
  - rewrite length_map, length_seq. reflexivity.
  - apply Forall_map, Forall_forall. intros i _. apply randomChars_class.
    apply Nat.mod_upper_bound. discriminate.
Qed.

Lemma decimal_short : forall n, n <= 100 -> length (decimal n) <= 3.
Proof.
  assert (A : forallb (fun n => length (decimal n) <=? 3) (seq 0 101) = true)
    by (vm_compute; reflexivity).
  intros n Hn. rewrite forallb_forall in A.
  apply Nat.leb_le, A, in_seq. lia.
Qed.

Lemma candidate_length (k : nat) :
  k <= 100 -> length (candidate base k) <= length base + 4.
Proof.
  intro Hk. destruct k as [|k]; cbn [candidate]; [lia|].
  rewrite !length_app. pose proof (decimal_short Hk). cbn [lit list_ascii_of_string length]. lia.
Qed.

Lemma fallback_length : length (fallbackSlug base rnd) = length base + 9.
Proof.
  unfold fallbackSlug, generateRandomString.
  rewrite !length_app, length_map, length_seq. cbn [lit list_ascii_of_string length]. lia.
Qed.

Lemma fallback_fresh (j n : nat) :
  j + n <= 101 -> ~ In (fallbackSlug base rnd) (map (candidate base) (seq j n)).
Proof.
  intros Hn Hin. apply in_map_iff in Hin. destruct Hin as (k & Hk & Hin).
  apply in_seq in Hin. assert (L : length (candidate base k) <= length base + 4)
    by (apply candidate_length; lia).
  rewrite Hk, fallback_length in L. lia.
Qed.

(** A whole run, by the answers of the callback. *)
Lemma generateUniqueSlug_run (st : St) (fuel : nat) :
  101 < fuel ->
  exists run,
    generateUniqueSlug_fuel cb fuel base rnd st = Some run /\
    length (run_calls run) <= 101 /\
    match firstNo (answers cb (map (candidate base) (seq 0 101)) st) with
    | Some k =>
        k <= 100 /\
        run_calls run = map (candidate base) (seq 0 (S k)) /\
        run_slug run = candidate base k
    | None =>
        run_calls run = map (candidate base) (seq 0 101) /\
        ~ In (run_slug run) (run_calls run) /\
        exists suffix,
          randomSuffix 8 suffix /\ run_slug run = base ++ lit "-" ++ suffix
    end.
Proof.
  intro Hf. unfold generateUniqueSlug_fuel.
  destruct (@uniqueLoop_answers fuel 0 st []) as (run & H1 & H2); [lia|lia|].
  cbn [candidate] in H1. change (101 - 0) with 101 in H2.
  exists run. split; [exact H1|].
  destruct (firstNo (answers cb (map (candidate base) (seq 0 101)) st)) as [k|].
  - destruct H2 as (B & C & R). cbn [app] in C. cbn [Nat.add] in B, R.
    split; [rewrite C, length_map, length_seq; lia|]. repeat split; assumption.
  - destruct H2 as (C & R). cbn [app] in C.
    split; [rewrite C, length_map, length_seq; lia|].
    split; [exact C|]. split.
    + rewrite C, R. apply fallback_fresh. lia.
    + exists (generateRandomString 8 rnd). split; [apply generateRandomString_suffix|].
      exact R.
Qed.

(** C10.  For every base slug and every existence callback, with or
    without state of its own, [generateUniqueSlug] terminates (any
    fuel above 101 is enough), having invoked the callback at most 101
    times.  It asks about the base slug and base-1 ... base-100 in
    this order and stops at the first answer that is no, returning the
    slug just asked about.  When all 101 answers were yes it returns
    the base slug, a hyphen and 8 characters that are small letters or
    digits; this slug is none of those the callback was invoked
    on. *)
Theorem generateUniqueSlug_bounded (st : St) (fuel : nat) :
  101 < fuel ->
  exists run,
    generateUniqueSlug_fuel cb fuel base rnd st = Some run /\
    length (run_calls run) <= 101 /\
    match firstNo (answers cb (map (candidate base) (seq 0 101)) st) with
    | Some k =>
        k <= 100 /\
        run_calls run = map (candidate base) (seq 0 (S k)) /\
        run_slug run = candidate base k
    | None =>
        run_calls run = map (candidate base) (seq 0 101) /\
        ~ In (run_slug run) (run_calls run) /\
        exists suffix,
          randomSuffix 8 suffix /\ run_slug run = base ++ lit "-" ++ suffix
    end.
Proof. apply generateUniqueSlug_run. Qed.

End Stateful.

(** With a callback that always answers yes, 101 calls and the fallback. *)
Lemma generateUniqueSlug_bounded_witness :
  let cb := fun (_ : str) (n : nat) => (true, S n) in
  exists run,
    generateUniqueSlug_fuel cb 102 (lit "x") (fun _ => 0) 0 = Some run /\
    length (run_calls run) <= 101 /\
    match firstNo (answers cb (map (candidate (lit "x")) (seq 0 101)) 0) with
    | Some k =>
        k <= 100 /\
        run_calls run = map (candidate (lit "x")) (seq 0 (S k)) /\
        run_slug run = candidate (lit "x") k
    | None =>
        run_calls run = map (candidate (lit "x")) (seq 0 101) /\
        ~ In (run_slug run) (run_calls run) /\
        exists suffix,
          randomSuffix 8 suffix /\ run_slug run = lit "x" ++ lit "-" ++ suffix
    end.
Proof.
  apply (@generateUniqueSlug_bounded nat (fun (_ : str) (n : nat) => (true, S n))
           (lit "x") (fun _ => 0) 0 102).
  lia.
Defined.

(** A callback with state: it says yes twice, whatever it is asked. *)
Example generateUniqueSlug_stateful :
  let cb := fun (_ : str) (n : nat) => (n <? 2, S n) in
  firstNo (answers cb (map (candidate (lit "x")) (seq 0 101)) 0) = Some 2 /\
  generateUniqueSlug_fuel cb 102 (lit "x") (fun _ => 0) 0
  = Some (mkRun (lit "x-2") 3 (lits ["x"; "x-1"; "x-2"])).
Proof. vm_compute. split; reflexivity. Qed.

Lemma answers_pure (existsFn : str -> bool) (slugs : list str) :
  answers (pureCallback existsFn) slugs tt = map existsFn slugs.
Proof.
  induction slugs as [|slug rest IH]; [reflexivity|].
  cbn [answers pureCallback map]. rewrite IH. reflexivity.
Qed.

Lemma firstNo_first (f : nat -> bool) (n : nat) :
  forall j N,
    j <= N -> N < j + n ->
    (forall i, j <= i < N -> f i = true) -> f N = false ->
    firstNo (map f (seq j n)) = Some (N - j).
Proof.
  induction n as [|n IH]; intros j N Hj Hn T F; [lia|].
  cbn [seq map firstNo]. destruct (Nat.eq_dec j N) as [->|Ne].
  - rewrite F, Nat.sub_diag. reflexivity.
  - rewrite T by lia. rewrite (IH (S j) N) by first [lia | exact F | intros i Hi; apply T; lia].
    cbn [option_map]. f_equal. lia.
Qed.

Lemma firstNo_none (f : nat -> bool) (n : nat) :
  forall j, (forall i, j <= i < j + n -> f i = true) -> firstNo (map f (seq j n)) = None.
Proof.
  induction n as [|n IH]; intros j T; [reflexivity|].
  cbn [seq map firstNo]. rewrite T by lia.
  rewrite IH by (intros i Hi; apply T; lia). reflexivity.
Qed.

(** C8 (as amended).  For an existence predicate, [generateUniqueSlug]
    terminates (any fuel above 101 is enough) and returns the base
    slug unchanged when the predicate is false for it (N = 0), and
    otherwise the first base-N for which the predicate is false, when
    there is one with N at most 100; the slugs asked about are the
    base and base-1 ... base-N.  When the base and base-1 ... base-100
    are all taken, it returns the base slug, a hyphen and 8 characters
    that are small letters or digits, whatever the predicate says
    about base-101. *)
Theorem generateUniqueSlug_first_free
  (existsFn : str -> bool) (base : str) (rnd : Rand) (fuel : nat) :
  101 < fuel ->
  exists run,
    generateUniqueSlug_fuel (pureCallback existsFn) fuel base rnd tt = Some run /\
    (forall N,
       N <= 100 ->
       (forall j, j < N -> existsFn (candidate base j) = true) ->
       existsFn (candidate base N) = false ->
       run_slug run = candidate base N /\
       run_calls run = map (candidate base) (seq 0 (S N))) /\
    ((forall j, j <= 100 -> existsFn (candidate base j) = true) ->
     run_calls run = map (candidate base) (seq 0 101) /\
     exists suffix,
       randomSuffix 8 suffix /\ run_slug run = base ++ lit "-" ++ suffix).
Proof.
  intro Hf.
  destruct (@generateUniqueSlug_run unit (pureCallback existsFn) base rnd tt fuel Hf)
    as (run & G & _ & M).
  rewrite answers_pure, map_map in M.
  exists run. split; [exact G|]. split.
  - intros N HN T F.
    rewrite (@firstNo_first (fun i => existsFn (candidate base i)) 101 0 N) in M
      by first [lia | exact F | intros i Hi; apply T; lia].
    rewrite Nat.sub_0_r in M. destruct M as (_ & C & R). split; assumption.
  - intro T.
    rewrite (@firstNo_none (fun i => existsFn (candidate base i)) 101 0) in M
      by (intros i Hi; apply T; lia).
    destruct M as (C & _ & S). split; assumption.
Qed.

(** The scenario of the specification: taken are x, x-1 and x-2. *)
Lemma generateUniqueSlug_first_free_witness :
  let existsFn := existsIn (lits ["x"; "x-1"; "x-2"]) in
  exists run,
    generateUniqueSlug_fuel (pureCallback existsFn) 102 (lit "x") (fun _ => 0) tt
      = Some run /\
    (forall N,
       N <= 100 ->
       (forall j, j < N -> existsFn (candidate (lit "x") j) = true) ->
       existsFn (candidate (lit "x") N) = false ->
       run_slug run = candidate (lit "x") N /\
       run_calls run = map (candidate (lit "x")) (seq 0 (S N))) /\
    ((forall j, j <= 100 -> existsFn (candidate (lit "x") j) = true) ->
     run_calls run = map (candidate (lit "x")) (seq 0 101) /\
     exists suffix,
       randomSuffix 8 suffix /\ run_slug run = lit "x" ++ lit "-" ++ suffix).
Proof.
  apply (@generateUniqueSlug_first_free
           (existsIn (lits ["x"; "x-1"; "x-2"])) (lit "x") (fun _ => 0) 102).
  lia.
Defined.

Example generateUniqueSlug_x3 :
  generateUniqueSlug_fuel
    (pureCallback (existsIn (lits ["x"; "x-1"; "x-2"]))) 102 (lit "x") (fun _ => 0) tt =
  Some (mkRun (lit "x-3") tt (lits ["x"; "x-1"; "x-2"; "x-3"])).
Proof. vm_compute. reflexivity. Qed.

(** C8 as stated fails beyond the budget: when x, x-1, ..., x-100 are
    all taken and x-101 is free, the first free candidate is x-101 but
    the slug returned is the random fallback. *)
Lemma generateUniqueSlug_beyond_budget :
  let existsFn := existsIn (map (candidate (lit "x")) (seq 0 101)) in
  forallb (fun j => existsFn (candidate (lit "x") j)) (seq 0 101) = true /\
  existsFn (candidate (lit "x") 101) = false /\
  option_map (@run_slug unit)
    (generateUniqueSlug_fuel (pureCallback existsFn) 200 (lit "x") (fun _ => 0) tt)
  = Some (lit "x-aaaaaaaa") /\
  lit "x-aaaaaaaa" <> candidate (lit "x") 101.
Proof.
  vm_compute. repeat split. discriminate.
Qed.

End UniqueSlugFacts.

(** ** [generateSlug] and [validateSlug] *)

Module SlugFacts.

Import Slug Notions RegexFacts ClassFacts.

(** Facts on the direct forms of the replacements. *)

Lemma collapse_go_Forall (q : ascii -> Prop) (p : ascii -> bool) (rep s : str) :
  Forall q rep -> Forall q s -> forall b, Forall q (collapse_go p rep b s).
Proof.
  intros Hr Hs. induction Hs as [|c t Hc Ht IH]; intro b; cbn [collapse_go];
    [constructor|].
  destruct (p c).
  - apply Forall_app. split; [destruct b; [constructor|exact Hr]|apply IH].
  - constructor; [exact Hc|apply IH].
Qed.

Lemma collapse_go_removes (p : ascii -> bool) (rep s : str) :
  Forall (fun c => p c = false) rep ->
  forall b, Forall (fun c => p c = false) (collapse_go p rep b s).
Proof.
  intro Hr. induction s as [|c t IH]; intro b; cbn [collapse_go]; [constructor|].
  destruct (p c) eqn:E.
  - apply Forall_app. split; [destruct b; [constructor|exact Hr]|apply IH].
  - constructor; [exact E|apply IH].
Qed.

Lemma eqc_refl (d : ascii) : eqc d d = true.
Proof. apply Ascii.eqb_refl. Qed.

Lemma hasDouble_cons (d c : ascii) (s : str) :
  hasDouble d (c :: s) = (eqc d c && headIs (eqc d) s) || hasDouble d s.
Proof.
  destruct s as [|b t]; cbn [hasDouble headIs]; [|reflexivity].
  rewrite andb_false_r. reflexivity.
Qed.

(** Collapsing the runs of a character leaves no two of them adjacent. *)
Lemma collapse_no_double (d : ascii) (s : str) :
  hasDouble d (collapse_go (eqc d) [d] false s) = false /\
  headIs (eqc d) (collapse_go (eqc d) [d] true s) = false /\
  hasDouble d (collapse_go (eqc d) [d] true s) = false.
Proof.
  induction s as [|c t (IH0 & IH1 & IH2)]; [repeat split; reflexivity|].
  cbn [collapse_go]. destruct (eqc d c) eqn:E.
  - cbn [app]. split; [|split; assumption].
    rewrite hasDouble_cons, IH1, IH2, andb_false_r. reflexivity.
  - rewrite hasDouble_cons, E, IH0. cbn [headIs andb orb].
    split; [reflexivity|]. split; [exact E|reflexivity].
Qed.

Lemma hasDouble_app (d : ascii) (a b : str) :
  hasDouble d (a ++ b) = false -> hasDouble d a = false /\ hasDouble d b = false.
Proof.
  induction a as [|x a IH]; cbn [app]; intro H; [split; [reflexivity|exact H]|].
  rewrite hasDouble_cons in H. apply orb_false_iff in H as [H1 H2].
  destruct (IH H2) as [Ha Hb]. split; [|exact Hb].
  rewrite hasDouble_cons, Ha. destruct a as [|y a]; cbn [headIs app] in *.
  - rewrite andb_false_r. reflexivity.
  - rewrite H1. reflexivity.
Qed.

Lemma hasDouble_firstn (d : ascii) (n : nat) (s : str) :
  hasDouble d s = false -> hasDouble d (firstn n s) = false.
Proof.
  intro H. rewrite <- (firstn_skipn n s) in H. apply hasDouble_app in H. apply H.
Qed.

Lemma hasDouble_skipn (d : ascii) (n : nat) (s : str) :
  hasDouble d s = false -> hasDouble d (skipn n s) = false.
Proof.
  intro H. rewrite <- (firstn_skipn n s) in H. apply hasDouble_app in H. apply H.
Qed.

Lemma dropWhile_skipn (p : ascii -> bool) (s : str) :
  dropWhile p s = skipn (spanLen p s) s.
Proof. symmetry. apply skipn_spanLen. Qed.

Lemma dropWhile_head (q : ascii -> bool) (s : str) :
  dropWhile (notb q) s = [] \/ headIs q (dropWhile (notb q) s) = true.
Proof.
  induction s as [|c t IH]; [left; reflexivity|]. cbn [dropWhile].
  destruct (q c) eqn:E.
  - right. unfold notb at 1. rewrite E. exact E.
  - unfold notb at 1 3. rewrite E. exact IH.
Qed.

Lemma trimEnd_nil (p : ascii -> bool) (s : str) :
  trimEnd p s = [] -> forallb p s = true.
Proof.
  destruct s as [|c t]; [reflexivity|]. cbn [trimEnd].
  destruct (forallb p (c :: t)); [reflexivity|discriminate].
Qed.

Lemma trimEnd_prefix (p : ascii -> bool) (s : str) :
  exists k, trimEnd p s = firstn k s.
Proof.
  induction s as [|c t [k IH]]; [exists 0; reflexivity|]. cbn [trimEnd].
  destruct (forallb p (c :: t)); [exists 0; reflexivity|].
  exists (S k). cbn [firstn]. rewrite IH. reflexivity.
Qed.

Lemma trimEnd_last (q : ascii -> bool) (s : str) :
  trimEnd (notb q) s = [] \/ lastIs q (trimEnd (notb q) s) = true.
Proof.
  induction s as [|c t IH]; [left; reflexivity|]. cbn [trimEnd].
  destruct (forallb (notb q) (c :: t)) eqn:F; [left; reflexivity|]. right.
  destruct IH as [N|L].
  - rewrite N. apply trimEnd_nil in N. cbn [forallb] in F. rewrite N, andb_true_r in F.
    unfold notb in F. cbn [lastIs]. destruct (q c); [reflexivity|discriminate F].
  - destruct (trimEnd (notb q) t) as [|x r]; [discriminate L|exact L].
Qed.

Lemma trimEnd_head (p q : ascii -> bool) (s : str) :
  headIs q s = true -> trimEnd p s = [] \/ headIs q (trimEnd p s) = true.
Proof.
  destruct s as [|c t]; [discriminate|]. cbn [trimEnd headIs]. intro H.
  destruct (forallb p (c :: t)); [left; reflexivity|right; exact H].
Qed.

Lemma headIs_firstn (q : ascii -> bool) (k : nat) (s : str) :
  headIs q s = true -> firstn k s = [] \/ headIs q (firstn k s) = true.
Proof.
  destruct s as [|c t]; [discriminate|]. destruct k; [left; reflexivity|].
  intro H. right. exact H.
Qed.

Lemma Forall_firstn {A} (q : A -> Prop) (k : nat) (l : list A) :
  Forall q l -> Forall q (firstn k l).
Proof.
  intro H. rewrite <- (firstn_skipn k l) in H. apply Forall_app in H. apply H.
Qed.

Lemma Forall_skipn {A} (q : A -> Prop) (k : nat) (l : list A) :
  Forall q l -> Forall q (skipn k l).
Proof.
  intro H. rewrite <- (firstn_skipn k l) in H. apply Forall_app in H. apply H.
Qed.

(** The class left by the replacement of the characters outside
    [\w], hyphen, dot and tilde, once underscores are gone. *)
Lemma allowed_of_slugChar (c : ascii) :
  eqc "_" c = false -> isSlugChar c = true -> isSlugAllowed c = true.
Proof.
  unfold isSlugChar, isSlugAllowed, isWord, eqc. intros U H.
  rewrite U, orb_false_r in H. exact H.
Qed.

(** After the second collapse of hyphens the text is made of allowed
    characters and has no two adjacent hyphens; the last two steps
    trim it at both ends. *)
Lemma normalizeText_shape (text : str) :
  exists s8,
    Forall allowed s8 /\
    hasDouble "-" s8 = false /\
    normalizeText text defaultConfig =
    trimEnd (notb isAlnum) (dropWhile (notb isAlnum) s8).
Proof.
  unfold normalizeText.
  cbn [customReplacements stripDiacriticsOpt lowercase allowUnicode defaultConfig fold_left].
  rewrite replace_first_trim_end, replace_first_trim_start, !replace_all_plus.
  set (s3 := toLowerCase _).
  set (s5 := collapse (eqc "-") (lit "-") (collapse _ (lit "-") s3)).
  unfold replace_all at 2. rewrite replace_go_chr.
  set (s6 := flat_map _ s5).
  set (s7 := replace_all _ _ s6).
  set (s8 := collapse (eqc "-") (lit "-") s7).
  exists s8.
  assert (A5 : Forall (fun c => eqc "_" c = false) s5).
  { subst s5. unfold collapse. apply collapse_go_Forall.
    - repeat constructor.
    - eapply Forall_impl; [|apply collapse_go_removes; repeat constructor].
      cbn beta. intros c H. apply orb_false_iff in H. apply H. }
  assert (A6 : Forall allowed s6).
  { subst s6. clearbody s5. induction A5 as [|c t Hc Ht IH]; cbn [flat_map]; [constructor|].
    apply Forall_app. split; [|exact IH]. unfold notb, const_.
    destruct (isSlugChar c) eqn:E; cbn [negb].
    - constructor; [|constructor]. apply allowed_of_slugChar; assumption.
    - repeat constructor. }
  assert (A7 : Forall allowed s7).
  { subst s7. unfold replace_all. apply replace_go_Forall; [|exact A6].
    intro mt. constructor. }
  split; [|split; [|reflexivity]].
  - subst s8. unfold collapse. apply collapse_go_Forall; [repeat constructor|exact A7].
  - subst s8. unfold collapse. apply (collapse_no_double "-" s7).
Qed.

(** What the normalization establishes, whatever the text. *)
Lemma normalizeText_props (text : str) :
  Forall allowed (normalizeText text defaultConfig) /\
  hasDouble "-" (normalizeText text defaultConfig) = false /\
  (normalizeText text defaultConfig = [] \/
   (headIs isAlnum (normalizeText text defaultConfig) = true /\
    lastIs isAlnum (normalizeText text defaultConfig) = true)).
Proof.
  destruct (normalizeText_shape text) as (s8 & A8 & D8 & ->).
  destruct (trimEnd_prefix (notb isAlnum) (dropWhile (notb isAlnum) s8)) as [k K].
  split; [|split].
  - rewrite K, dropWhile_skipn. apply Forall_firstn, Forall_skipn, A8.
  - rewrite K, dropWhile_skipn. apply hasDouble_firstn, hasDouble_skipn, D8.
  - destruct (trimEnd_last isAlnum (dropWhile (notb isAlnum) s8)) as [N|L];
      [left; exact N|]. right. split; [|exact L].
    destruct (dropWhile_head isAlnum s8) as [N|H].
    + rewrite N in L. discriminate L.
    + destruct (trimEnd_head (notb isAlnum) isAlnum _ H) as [N|H']; [|exact H'].
      rewrite N in L. discriminate L.
Qed.

(** The cut at [maxLength] keeps a prefix of at most 80 characters, and
    keeps everything when there is nothing to cut. *)
Lemma truncateSlug_prefix (slug : str) :
  exists k, truncateSlug slug defaultConfig = firstn k slug /\
            length (truncateSlug slug defaultConfig) <= 80 /\
            (length slug <= 80 -> truncateSlug slug defaultConfig = slug).
Proof.
  unfold truncateSlug. cbn [maxLength defaultConfig].
  destruct (80 <? length slug) eqn:L.
  - apply Nat.ltb_lt in L. unfold substring0.
    destruct (lastIndexOf "-" (firstn 80 slug)) as [lastDash|].
    + destruct (beyond70 lastDash 80).
      * exists (Nat.min lastDash 80). rewrite firstn_firstn.
        split; [reflexivity|]. split; [rewrite length_firstn; lia|lia].
      * exists 80. split; [reflexivity|]. split; [rewrite length_firstn; lia|lia].
    + exists 80. split; [reflexivity|]. split; [rewrite length_firstn; lia|lia].
  - apply Nat.ltb_ge in L. exists (length slug).
    rewrite firstn_all. split; [reflexivity|]. split; [lia|reflexivity].
Qed.

(** The checks of [validateSlug], one by one. *)
Lemma validateSlug_accepts (slug : str) :
  3 <= length slug <= 80 ->
  Forall allowed slug ->
  headIs isAlnum slug = true ->
  lastIs isAlnum slug = true ->
  hasDouble "-" slug = false ->
  isReservedSlug slug = false ->
  validateSlug slug = mkValidation true [].
Proof.
  intros [L3 L80] A H Lst D R. unfold validateSlug.
  destruct slug as [|c t]; [cbn [length] in L3; lia|]. cbn [blank].
  rewrite test_anchored_class, test_head, test_last, test_double, H, Lst, D, R.
  replace (length (c :: t) <? 3) with false by (symmetry; apply Nat.ltb_ge; lia).
  replace (80 <? length (c :: t)) with false by (symmetry; apply Nat.ltb_ge; lia).
  replace (forallb isSlugAllowed (c :: t)) with true
    by (symmetry; apply forallb_forall; apply Forall_forall; exact A).
  reflexivity.
Qed.

Lemma randomChar_alnum (n : nat) : isAlnum (nth (n mod 36) randomChars "a"%char) = true.
Proof.
  assert (A : forallb isAlnum randomChars = true) by (vm_compute; reflexivity).
  rewrite forallb_forall in A. apply A. apply nth_In.
  change (length randomChars) with 36. apply Nat.mod_upper_bound. discriminate.
Qed.

Lemma alnum_allowed (c : ascii) : isAlnum c = true -> allowed c.
Proof. unfold allowed, isSlugAllowed. intros ->. reflexivity. Qed.

Lemma alnum_not_dash (c : ascii) : isAlnum c = true -> eqc "-" c = false.
Proof.
  intro H. unfold eqc. destruct (c =? "-")%char eqn:E; [|reflexivity].
  apply Ascii.eqb_eq in E. subst c. discriminate H.
Qed.

(** The fallback slug always validates. *)
Lemma fallback_validates (rnd : Rand) :
  validateSlug (lit "post-" ++ generateRandomString 6 rnd) = mkValidation true [].
Proof.
  unfold generateRandomString. cbn [seq map lit list_ascii_of_string app].
  pose proof (randomChar_alnum (rnd 0)) as R0. pose proof (randomChar_alnum (rnd 1)) as R1.
  pose proof (randomChar_alnum (rnd 2)) as R2. pose proof (randomChar_alnum (rnd 3)) as R3.
  pose proof (randomChar_alnum (rnd 4)) as R4. pose proof (randomChar_alnum (rnd 5)) as R5.
  set (a0 := nth (rnd 0 mod 36) randomChars "a"%char) in *.
  set (a1 := nth (rnd 1 mod 36) randomChars "a"%char) in *.
  set (a2 := nth (rnd 2 mod 36) randomChars "a"%char) in *.
  set (a3 := nth (rnd 3 mod 36) randomChars "a"%char) in *.
  set (a4 := nth (rnd 4 mod 36) randomChars "a"%char) in *.
  set (a5 := nth (rnd 5 mod 36) randomChars "a"%char) in *.
  clearbody a0 a1 a2 a3 a4 a5.
  apply validateSlug_accepts.
  - cbn [length]. lia.
  - repeat (constructor; [first [apply alnum_allowed; assumption | reflexivity]|]).
    constructor.
  - reflexivity.
  - cbn [lastIs]. exact R5.
  - cbn [hasDouble]. rewrite (alnum_not_dash _ R0), (alnum_not_dash _ R1), (alnum_not_dash _ R2),
      (alnum_not_dash _ R3), (alnum_not_dash _ R4). reflexivity.
  - vm_compute. reflexivity.
Qed.

(** C4 (as amended).  For every non-empty string, [generateSlug]
    returns a slug, and [validateSlug] accepts it provided it is not a
    reserved word and either the normalized text had at most 80
    characters (nothing was cut) or the cut slug still ends in a letter
    or a digit.  When the result is the post-<random6> fallback it is
    accepted without any proviso. *)
Theorem generateSlug_validates (text : str) (rnd : Rand) :
  blank text = false ->
  exists slug,
    generateSlug text defaultConfig rnd = Ok slug /\
    (isReservedSlug slug = false ->
     length (normalizeText text defaultConfig) <= 80 \/ lastIs isAlnum slug = true ->
     isValid (validateSlug slug) = true) /\
    (length (truncateSlug (normalizeText text defaultConfig) defaultConfig) < 3 ->
     slug = lit "post-" ++ generateRandomString 6 rnd /\
     isValid (validateSlug slug) = true).
Proof.
  intro B. unfold generateSlug. rewrite B.
  destruct (normalizeText_props text) as (A & D & HL).
  destruct (truncateSlug_prefix (normalizeText text defaultConfig)) as (k & K & L80 & Same).
  set (n := normalizeText text defaultConfig) in *.
  set (t := truncateSlug n defaultConfig) in *.
  destruct (length t <? 3) eqn:L3.
  - eexists. split; [reflexivity|]. rewrite fallback_validates. cbn [isValid].
    split; [reflexivity|]. split; reflexivity.
  - apply Nat.ltb_ge in L3. exists t. split; [reflexivity|]. split; [|lia].
    intros R Cut.
    assert (N : n <> []).
    { intro E. rewrite E in K. rewrite K in L3. rewrite firstn_nil in L3.
      cbn [length] in L3. lia. }
    destruct HL as [E|[H Lst]]; [contradiction|].
    rewrite validateSlug_accepts; [reflexivity|lia| | | | |exact R].
    + rewrite K. apply Forall_firstn, A.
    + destruct (headIs_firstn isAlnum k n H) as [E|H']; [|rewrite K; exact H'].
      rewrite K, E in L3. cbn [length] in L3. lia.
    + destruct Cut as [Short|Lst']; [|exact Lst'].
      rewrite (Same Short). exact Lst.
    + rewrite K. apply hasDouble_firstn, D.
Qed.

Lemma generateSlug_validates_witness :
  exists slug,
    generateSlug (lit "Hello World") defaultConfig (fun _ => 0) = Ok slug /\
    (isReservedSlug slug = false ->
     length (normalizeText (lit "Hello World") defaultConfig) <= 80 \/
     lastIs isAlnum slug = true ->
     isValid (validateSlug slug) = true) /\
    (length (truncateSlug (normalizeText (lit "Hello World") defaultConfig)
                          defaultConfig) < 3 ->
     slug = lit "post-" ++ generateRandomString 6 (fun _ => 0) /\
     isValid (validateSlug slug) = true).
Proof.
  apply (@generateSlug_validates (lit "Hello World") (fun _ => 0)).
  reflexivity.
Defined.

(** C4 as stated fails: the slug of a reserved word is that word, which
    [validateSlug] rejects; a text cut at 80 characters may end in a
    dot; and the empty string has no slug at all. *)
Lemma generateSlug_not_always_valid :
  generateSlug (lit "api") defaultConfig (fun _ => 0) = Ok (lit "api") /\
  isValid (validateSlug (lit "api")) = false /\
  generateSlug (repeat "a"%char 79 ++ lit ".b") defaultConfig (fun _ => 0)
    = Ok (repeat "a"%char 79 ++ lit ".") /\
  isValid (validateSlug (repeat "a"%char 79 ++ lit ".")) = false /\
  generateSlug [] defaultConfig (fun _ => 0)
    = Throw (Error (lit "generateSlug requires a non-empty string")).
Proof. vm_compute. repeat split. Qed.

Example generateSlug_examples :
  generateSlug (lit "Hello & World! @#$%") defaultConfig (fun _ => 0) = Ok (lit "hello-world") /\
  generateSlug (lit "<h1>Hello World</h1>") defaultConfig (fun _ => 0) = Ok (lit "hello-world") /\
  generateSlug (lit "Hi") defaultConfig (fun _ => 0) = Ok (lit "post-aaaaaa") /\
  isValid (validateSlug (lit "hello-world")) = true.
Proof. vm_compute. repeat split. Qed.

End SlugFacts.

(** ** The retry policy of the API client ([ai/grok-client.js]) *)

Module GrokFacts.

Import Grok Notions.

Section Client.

Variable env : Env.

Lemma post_eq (rq : Request) (w : World) :
  post env rq w =
  (postResult (api env (posted w)),
   mkWorld (db w) (S (posted w)) (log w ++ [EvPost rq])).
Proof. unfold post, postResult. destruct (api env (posted w)); reflexivity. Qed.

Lemma postResult_ok (r : HttpReply) (d : ApiData) :
  postResult r = Ok d -> retryable r = false.
Proof. destruct r; cbn; intro H; try discriminate H; reflexivity. Qed.

Lemma postResult_throw (r : HttpReply) (e : Exn) :
  postResult r = Throw e -> isGrokAPIError e = true /\ shouldRetry e = retryable r.
Proof.
  destruct r; cbn; intro H; try discriminate H; injection H as <-; split; reflexivity.
Qed.

(** The events of a request that is retried k times. *)
Lemma makeRequest_fuel_spec (rq : Request) (fuel : nat) :
  forall retries w,
    retries <= maxRetries -> maxRetries - retries < fuel ->
    let k := retriesFrom env (posted w) (maxRetries - retries) in
    makeRequest_fuel env fuel rq retries w =
    (match postResult (api env (posted w + k)) with
     | Ok d => Ok (Some d)
     | Throw e => Throw e
     end,
     mkWorld (db w) (posted w + k + 1) (log w ++ attemptEvents rq retries k)).
Proof.
  induction fuel as [|fuel IH]; intros retries w Hr Hf; [lia|].
  cbn zeta. cbn [makeRequest_fuel]. unfold tryCatch, bind at 1. rewrite post_eq.
  destruct (postResult (api env (posted w))) as [d|e] eqn:P.
  - apply postResult_ok in P as R.
    assert (K : retriesFrom env (posted w) (maxRetries - retries) = 0).
    { destruct (maxRetries - retries); cbn [retriesFrom]; [reflexivity|].
      rewrite R. reflexivity. }
    rewrite K, Nat.add_0_r, P. cbn [attemptEvents ret].
    rewrite Nat.add_1_r. reflexivity.
  - pose proof (postResult_throw _ P) as [G R]. rewrite R.
    destruct (retries <? maxRetries) eqn:L.
    + apply Nat.ltb_lt in L.
      replace (maxRetries - retries) with (S (maxRetries - (retries + 1))) by lia.
      cbn [retriesFrom andb]. destruct (retryable (api env (posted w))) eqn:Q.
      * unfold bind at 1, sleep, emit. cbn [db posted log].
        rewrite IH by lia. cbn [db posted log attemptEvents].
        replace (posted w + S (retriesFrom env (S (posted w)) (maxRetries - (retries + 1))))
          with (S (posted w) + retriesFrom env (S (posted w)) (maxRetries - (retries + 1)))
          by lia.
        rewrite <- !app_assoc. cbn [app]. rewrite (Nat.add_1_r retries).
        reflexivity.
      * cbn [attemptEvents]. rewrite Nat.add_0_r, P.
        unfold throw. rewrite Nat.add_1_r. reflexivity.
    + apply Nat.ltb_ge in L. replace (maxRetries - retries) with 0 by lia.
      cbn [retriesFrom andb attemptEvents]. rewrite Nat.add_0_r, P.
      unfold throw. rewrite Nat.add_1_r. reflexivity.
Qed.

(** With the fuel it is given, [makeRequest] never runs out. *)
Lemma makeRequest_spec (rq : Request) (w : World) :
  let k := retriesFrom env (posted w) maxRetries in
  makeRequest env rq w =
  (postResult (api env (posted w + k)),
   mkWorld (db w) (posted w + k + 1) (log w ++ attemptEvents rq 0 k)).
Proof.
  cbn zeta. unfold makeRequest, bind.
  rewrite makeRequest_fuel_spec by (unfold maxRetries; lia).
  rewrite Nat.sub_0_r.
  destruct (postResult (api env (posted w + retriesFrom env (posted w) maxRetries)));
    reflexivity.
Qed.

Lemma makeRequest_total (rq : Request) (w : World) :
  fst (makeRequest_fuel env (S maxRetries) rq 0 w) <> Ok None.
Proof.
  rewrite makeRequest_fuel_spec by (unfold maxRetries; lia). cbn [fst].
  destruct (postResult _); discriminate.
Qed.

Lemma retriesFrom_le (i budget : nat) : retriesFrom env i budget <= budget.
Proof.
  revert i. induction budget as [|b IH]; intro i; cbn [retriesFrom]; [lia|].
  destruct (retryable (api env i)); [specialize (IH (S i))|]; lia.
Qed.

Lemma retriesFrom_retried (budget : nat) :
  forall i j, j < retriesFrom env i budget -> retryable (api env (i + j)) = true.
Proof.
  induction budget as [|b IH]; intros i j Hj; cbn [retriesFrom] in Hj; [lia|].
  destruct (retryable (api env i)) eqn:R; [|lia].
  destruct j as [|j]; [rewrite Nat.add_0_r; exact R|].
  replace (i + S j) with (S i + j) by lia. apply IH. lia.
Qed.

Lemma retriesFrom_final (budget : nat) :
  forall i, retriesFrom env i budget < budget ->
            retryable (api env (i + retriesFrom env i budget)) = false.
Proof.
  induction budget as [|b IH]; intros i Hk; cbn [retriesFrom] in *; [lia|].
  destruct (retryable (api env i)) eqn:R.
  - replace (i + S (retriesFrom env (S i) b)) with (S i + retriesFrom env (S i) b) by lia.
    apply IH. lia.
  - rewrite Nat.add_0_r. exact R.
Qed.

Lemma retriesFrom_all (budget : nat) :
  forall i, (forall j, j < budget -> retryable (api env (i + j)) = true) ->
            retriesFrom env i budget = budget.
Proof.
  induction budget as [|b IH]; intros i H; cbn [retriesFrom]; [reflexivity|].
  rewrite <- (Nat.add_0_r i) at 1. rewrite H by lia. f_equal. apply IH.
  intros j Hj. replace (S i + j) with (i + S j) by lia. apply H. lia.
Qed.

Lemma sleeps_attemptEvents (rq : Request) (k : nat) :
  forall retries, sleeps (attemptEvents rq retries k) = backoff retries k.
Proof.
  induction k as [|k IH]; intro retries; [reflexivity|].
  cbn [attemptEvents]. unfold sleeps in *. cbn [flat_map app].
  rewrite IH. reflexivity.
Qed.

Lemma posts_attemptEvents (rq : Request) (k : nat) :
  forall retries, length (posts (attemptEvents rq retries k)) = k + 1.
Proof.
  induction k as [|k IH]; intro retries; [reflexivity|].
  cbn [attemptEvents]. unfold posts in *. cbn [flat_map app length].
  rewrite IH. reflexivity.
Qed.

Lemma readResponse_world (response : ApiData) (w : World) :
  snd (readResponse response w) = w.
Proof.
  destruct response as [| |  |[ | |slug title description]]; try reflexivity.
  cbn [readResponse].
  destruct (0 <? length _); [reflexivity|].
  destruct (asString slug), (asString title), (asString description); reflexivity.
Qed.

(** What [analyzeContent] of the client does to the world is what its
    one [makeRequest] does. *)
Lemma analyzeContent_world (html instr : str) (t : nat) (w : World) :
  isBlank html = false ->
  let k := retriesFrom env (posted w) maxRetries in
  snd (analyzeContent env html instr t w) =
  mkWorld (db w) (posted w + k + 1)
          (log w ++ attemptEvents (mkRequest html instr t) 0 k).
Proof.
  intro B. cbn zeta. unfold analyzeContent. rewrite B.
  unfold tryCatch, bind. rewrite makeRequest_spec.
  destruct (postResult _) as [d|e].
  - pose proof (readResponse_world d
      (mkWorld (db w) (posted w + retriesFrom env (posted w) maxRetries + 1)
         (log w ++ attemptEvents (mkRequest html instr t) 0
                                 (retriesFrom env (posted w) maxRetries)))) as R.
    destruct (readResponse d _) as [[a|e] w']; cbn [snd] in R; subst w'.
    + reflexivity.
    + destruct (isGrokAPIError e); reflexivity.
  - destruct (isGrokAPIError e); reflexivity.
Qed.

(** A failed request surfaces as the error the interceptor made. *)
Lemma analyzeContent_throws (html instr : str) (t : nat) (w : World) (e : Exn) :
  isBlank html = false ->
  postResult (api env (posted w + retriesFrom env (posted w) maxRetries)) = Throw e ->
  fst (analyzeContent env html instr t w) = Throw e.
Proof.
  intros B P. unfold analyzeContent. rewrite B.
  unfold tryCatch, bind. rewrite makeRequest_spec. cbn zeta. rewrite P.
  destruct (postResult_throw _ P) as [G _]. rewrite G. reflexivity.
Qed.

(** C3 (as amended).  The client retries only on the statuses 429, 502,
    503 and 504, sleeping 1000 * 2^i ms before the i-th retry, and makes
    at most 4 attempts in total (the first one and up to 3 retries);
    every other failure is terminal at once.  Given 4 consecutive 503
    replies, [analyzeContent] raises the 503 error after exactly 4
    attempts. *)
Theorem client_retry_policy (html instr : str) (t : nat) (w : World) :
  isBlank html = false ->
  let k := retriesFrom env (posted w) maxRetries in
  let out := analyzeContent env html instr t w in
  exists events,
    log (snd out) = log w ++ events /\
    posted (snd out) = posted w + k + 1 /\
    length (posts events) = k + 1 /\
    k + 1 <= 4 /\
    sleeps events = backoff 0 k /\
    (forall j, j < k -> retryable (api env (posted w + j)) = true) /\
    (k < 3 -> retryable (api env (posted w + k)) = false) /\
    (forall e, postResult (api env (posted w + k)) = Throw e -> fst out = Throw e) /\
    ((forall j, j < 4 -> exists msg, api env (posted w + j) = ReplyStatus 503 msg) ->
     posted (snd out) = posted w + 4 /\
     exists e, fst out = Throw e /\ estatus e = Some 503).
Proof.
  intro B. cbn zeta.
  exists (attemptEvents (mkRequest html instr t) 0 (retriesFrom env (posted w) maxRetries)).
  rewrite (analyzeContent_world html instr t w B). cbn [log posted].
  pose proof (retriesFrom_le (posted w) maxRetries) as Hle. unfold maxRetries in Hle at 2.
  split; [reflexivity|]. split; [reflexivity|].
  split; [apply posts_attemptEvents|]. split; [lia|].
  split; [apply sleeps_attemptEvents|].
  split; [intros j Hj; eapply retriesFrom_retried; exact Hj|].
  split; [intro Hk; apply retriesFrom_final; unfold maxRetries in *; lia|].
  split; [intros e P; apply analyzeContent_throws; assumption|].
  intro H503.
  assert (K : retriesFrom env (posted w) maxRetries = 3).
  { apply retriesFrom_all. intros j Hj. destruct (H503 j) as [msg E]; [lia|].
    rewrite E. reflexivity. }
  rewrite K. split; [lia|].
  destruct (H503 3) as [msg E]; [lia|].
  eexists. split.
  - apply analyzeContent_throws; [exact B|]. rewrite K, E. reflexivity.
  - reflexivity.
Qed.

End Client.

(** Four 503 replies in a row: four attempts, then the error. *)
Lemma client_retry_policy_witness :
  let env := Scenarios.envWith (fun _ => ReplyStatus 503 None) (fun s => Some s) in
  let html := lit "<h1>Hello</h1>" in
  let w := Scenarios.emptyWorld in
  let k := retriesFrom env (posted w) maxRetries in
  let out := analyzeContent env html [] 7 w in
  exists events,
    log (snd out) = log w ++ events /\
    posted (snd out) = posted w + k + 1 /\
    length (posts events) = k + 1 /\
    k + 1 <= 4 /\
    sleeps events = backoff 0 k /\
    (forall j, j < k -> retryable (api env (posted w + j)) = true) /\
    (k < 3 -> retryable (api env (posted w + k)) = false) /\
    (forall e, postResult (api env (posted w + k)) = Throw e -> fst out = Throw e) /\
    ((forall j, j < 4 -> exists msg, api env (posted w + j) = ReplyStatus 503 msg) ->
     posted (snd out) = posted w + 4 /\
     exists e, fst out = Throw e /\ estatus e = Some 503).
Proof.
  apply (@client_retry_policy
           (Scenarios.envWith (fun _ => ReplyStatus 503 None) (fun s => Some s))
           (lit "<h1>Hello</h1>") [] 7 Scenarios.emptyWorld).
  reflexivity.
Defined.

(** C3 as stated fails: after three consecutive 503 replies the client
    does make a fourth attempt, and when that one is answered it
    returns normally instead of raising. *)
Lemma fourth_attempt_after_three_503 :
  let env := Scenarios.envWith Scenarios.threeThenGood (fun s => Some s) in
  let out := analyzeContent env (lit "<h1>Hello</h1>") [] 7 Scenarios.emptyWorld in
  map retryable (map (api env) [0; 1; 2]) = [true; true; true] /\
  posted (snd out) = 4 /\
  sleeps (log (snd out)) = [1000; 2000; 4000] /\
  fst out = Ok (mkAnalysis (lit "hello") (lit "Hello") (lit "A greeting")).
Proof. vm_compute. repeat split. Qed.

End GrokFacts.

(** ** The fallback of the analyzer ([ai/content-analyzer.js]) *)

Module AnalyzerFacts.

Import Analyzer Notions GrokFacts.

Lemma firstn_ellipsis_length (n : nat) (s : str) :
  n < length s -> length (substring0 n s ++ ellipsis) = n + 3.
Proof.
  intro H. unfold substring0. rewrite length_app, length_firstn.
  cbn [ellipsis lit list_ascii_of_string length]. lia.
Qed.

(** The synthesized description is never empty and never longer than
    157 characters. *)
Lemma generateDescriptionFromContent_bounds (content : str) :
  0 < length (generateDescriptionFromContent content) <= 157.
Proof.
  unfold generateDescriptionFromContent.
  destruct (isBlank content) eqn:B; [vm_compute; lia|].
  destruct (filter _ _) as [|first rest] eqn:F.
  - destruct (157 <? length content) eqn:L.
    + apply Nat.ltb_lt in L. rewrite firstn_ellipsis_length by lia. lia.
    + apply Nat.ltb_ge in L. destruct content; [discriminate B|cbn [length] in *; lia].
  - assert (I : In first (first :: rest)) by (left; reflexivity).
    rewrite <- F in I. apply filter_In in I as [_ I]. apply Nat.ltb_lt in I.
    destruct (157 <? length (trim first)) eqn:L.
    + apply Nat.ltb_lt in L. rewrite firstn_ellipsis_length by lia. lia.
    + apply Nat.ltb_ge in L. lia.
Qed.

Section WithEnv.

Variable env : Env.






End WithEnv.



Example fallback_on_missing_description :
  let env := Scenarios.envWith (fun _ => Scenarios.noDescription) (fun s => Some s) in
  let out := analyzeContent env
               (lit "<h1>Hello</h1><p>This page says hello to everybody.</p>")
               defaultOptions Scenarios.emptyWorld in
  analysisFails env (lit "<h1>Hello</h1><p>This page says hello to everybody.</p>") 0 2
  = true /\
  option_map (fun md => (md_slug md, md_title md, md_description md))
    (match fst out with Ok md => Some md | Throw _ => None end)
  = Some (lit "untitled-post", lit "Untitled Post",
          lit "HelloThis page says hello to everybody") /\
  posted (snd out) = 3.
Proof. vm_compute. repeat split; reflexivity. Qed.

(** A usable reply after two failed calls: the metadata of the
    analysis are returned. *)
Example analysis_after_two_failures :
  let env := Scenarios.envWith
               (fun i => if i <? 2 then Scenarios.noDescription else Scenarios.goodReply)
               (fun s => Some s) in
  let html := lit "<h1>Hello</h1><p>This page says hello to everybody.</p>" in
  let out := analyzeContent env html defaultOptions Scenarios.emptyWorld in
  analysisFails env html 0 2 = false /\
  option_map (fun md => (md_slug md, md_title md, md_analyzer md))
    (match fst out with Ok md => Some md | Throw _ => None end)
  = Some (lit "hello", lit "Hello", lit "grok-content-analyzer").
Proof. vm_compute. split; reflexivity. Qed.

End AnalyzerFacts.

(** ** [Post.create] ([database/models/post.js]) *)

Module PostFacts.

Import PostModel Notions.

Lemma str_eqb_eq (a b : str) : str_eqb a b = true <-> a = b.
Proof.
  revert b. induction a as [|x a IH]; intros [|y b]; cbn [str_eqb]; split; intro H;
    try reflexivity; try discriminate H.
  - apply andb_true_iff in H as [H1 H2]. apply Ascii.eqb_eq in H1. apply IH in H2.
    subst. reflexivity.
  - injection H as -> ->. apply andb_true_iff. split; [apply Ascii.eqb_refl|].
    apply IH. reflexivity.
Qed.

Lemma str_eqb_refl (a : str) : str_eqb a a = true.
Proof. apply str_eqb_eq. reflexivity. Qed.

Lemma find_existsb {A} (f : A -> bool) (l : list A) :
  existsb f l = match find f l with Some _ => true | None => false end.
Proof.
  induction l as [|x l IH]; [reflexivity|]. cbn [existsb find].
  destruct (f x); [reflexivity|exact IH].
Qed.

Lemma existsb_hasSlug (slug : str) (rs : list Row) :
  existsb (hasSlug slug) rs = true <-> In slug (map r_slug rs).
Proof.
  rewrite existsb_exists. split.
  - intros (r & I & H). apply str_eqb_eq in H. subst slug.
    apply in_map. exact I.
  - intro I. apply in_map_iff in I as (r & E & I). exists r. split; [exact I|].
    unfold hasSlug. rewrite E. apply str_eqb_refl.
Qed.

Lemma find_new_id (rs : list Row) (n : nat) (row : Row) :
  Forall (fun r => r_id r <= n) rs -> r_id row = S n ->
  find (fun r => r_id r =? S n) (rs ++ [row]) = Some row.
Proof.
  intros F E. induction F as [|r rs Hr F IH]; cbn [app find].
  - rewrite E, Nat.eqb_refl. reflexivity.
  - replace (r_id r =? S n) with false by (symmetry; apply Nat.eqb_neq; lia).
    exact IH.
Qed.

Lemma orNull_text (v : option str) : missing v = false -> orNull (Some (text v)) = v.
Proof.
  destruct v as [s|]; cbn [missing text orNull]; [|discriminate].
  unfold isBlank. intro H. apply orb_false_iff in H as [H _]. rewrite H. reflexivity.
Qed.

Lemma check_nil (b : bool) (msg : string) : Slug.check b msg = [] -> b = false.
Proof. destruct b; [discriminate|reflexivity]. Qed.

(** A post that passes [validate] has every required field. *)
Lemma validate_nil (post : Post) :
  validate post = [] ->
  missing (p_slug post) = false /\ missing (p_title post) = false /\
  missing (p_description post) = false /\ missing (p_html_content post) = false /\
  missing (p_discord_user_id post) = false /\
  missing (p_discord_username post) = false /\
  test Grok.re_simple_slug (text (p_slug post)) = true.
Proof.
  unfold validate. intro H.
  repeat (apply app_eq_nil in H; destruct H as [?H H]).
  repeat match goal with
         | X : Slug.check _ _ = [] |- _ => apply check_nil in X
         end.
  repeat split; try assumption.
  destruct (p_slug post) as [s|]; [|discriminate].
  cbn [text]. cbn [missing] in *. unfold isBlank in *.
  destruct (blank s); [discriminate|]. cbn [negb andb] in H.
  destruct (test _ s); [reflexivity|discriminate].
Qed.

(** [validate] accepts exactly the acceptable data. *)
Lemma missing_orNull (v : option str) : missing (orNull v) = negb (filled v).
Proof.
  destruct v as [s|]; [|reflexivity]. cbn [orNull filled].
  destruct s as [|c t]; [reflexivity|]. cbn [blank missing]. rewrite negb_involutive.
  reflexivity.
Qed.

Lemma filled_text (v : option str) (s : str) :
  v = Some s -> filled v = true -> orNull v = Some s.
Proof.
  intros -> F. cbn [filled orNull] in *. destruct s as [|c t]; [discriminate F|reflexivity].
Qed.

Lemma validate_acceptable (data : Post) :
  validate (newPost data) = [] <-> acceptable data = true.
Proof.
  unfold validate, acceptable. cbn [newPost p_slug p_title p_description p_html_content
                                   p_discord_user_id p_discord_username].
  rewrite !missing_orNull.
  destruct (filled (p_slug data)) eqn:F1; cbn [negb Slug.check andb app];
    [|split; discriminate].
  destruct (filled (p_title data)); cbn [negb Slug.check andb app]; [|split; discriminate].
  destruct (filled (p_description data)); cbn [negb Slug.check andb app];
    [|split; discriminate].
  destruct (filled (p_html_content data)); cbn [negb Slug.check andb app];
    [|split; discriminate].
  destruct (filled (p_discord_user_id data)); cbn [negb Slug.check andb app];
    [|split; discriminate].
  destruct (filled (p_discord_username data)); cbn [negb Slug.check andb app];
    [|split; discriminate].
  destruct (p_slug data) as [slug|]; [|discriminate F1].
  rewrite (filled_text eq_refl F1).
  destruct slug as [|c t]; [discriminate F1|]. cbn [blank negb andb].
  destruct (test Grok.re_simple_slug (c :: t)); cbn [negb Slug.check];
    split; (reflexivity || discriminate).
Qed.

Section WithEnv.

Variable env : Env.

(** The three ways [Post.create] can go.  On a fresh slug the row is
    written and the reading of [result.lastID] then fails. *)
Lemma create_cases (data : Post) (w : World) :
  let post := newPost data in
  let slug := text (p_slug post) in
  let out := create env data w in
  match validate post with
  | _ :: _ =>
      out = (Throw (Error (lit "Validation failed: " ++
                           joinWith (lit ", ") (validate post))),
             mkWorld (db w) (posted w) (log w ++ [EvCreate data]))
  | [] =>
      if existsb (hasSlug slug) (rows (db w)) then
        out = (Throw (Error (lit "Post with slug '" ++ slug ++ lit "' already exists")),
               mkWorld (db w) (posted w)
                       (log w ++ [EvCreate data; EvSelectSlug slug]))
      else
        let id := S (lastId (db w)) in
        let row := rowOf env post id in
        out =
          (Throw (undefinedProperty "lastID"),
           mkWorld (mkStore (rows (db w) ++ [row]) id) (posted w)
                   (log w ++ [EvCreate data; EvSelectSlug slug; EvInsert row]))
  end.
Proof.
  cbn zeta. unfold create, bind, emit, selectBySlug, insertPost, selectById, throw, ret, liftR.
  destruct (validate (newPost data)) as [|err errs] eqn:V.
  - cbn [length Nat.ltb Nat.leb db posted log rows lastId].
    rewrite find_existsb.
    destruct (find (hasSlug (text (p_slug (newPost data)))) (rows (db w))) eqn:F;
      cbn [db posted log rows lastId].
    + rewrite <- app_assoc. reflexivity.
    + rewrite find_existsb, F. cbn [db posted log rows lastId lastIDOf].
      fold (rowOf env (newPost data) (S (lastId (db w)))).
      rewrite <- !app_assoc. reflexivity.
  - reflexivity.
Qed.


(** The fields of the row written for acceptable data are the fields
    of the data. *)
Lemma rowOf_fields (data : Post) (id : nat) :
  acceptable data = true ->
  let row := rowOf env (newPost data) id in
  r_id row = id /\
  p_slug data = Some (r_slug row) /\
  p_title data = Some (r_title row) /\
  p_description data = Some (r_description row) /\
  p_html_content data = Some (r_html_content row) /\
  p_discord_user_id data = Some (r_discord_user_id row) /\
  p_discord_username data = Some (r_discord_username row) /\
  r_created_at row = timestamp env id /\
  r_updated_at row = timestamp env id.
Proof.
  intro A. apply validate_acceptable in A.
  destruct (validate_nil _ A) as (M1 & M2 & M3 & M4 & M5 & M6 & _).
  cbn [newPost p_slug p_title p_description p_html_content p_discord_user_id
       p_discord_username] in M1, M2, M3, M4, M5, M6.
  rewrite missing_orNull in M1, M2, M3, M4, M5, M6.
  apply negb_false_iff in M1, M2, M3, M4, M5, M6.
  cbn zeta.
  cbn [rowOf newPost r_id r_slug r_title r_description r_html_content r_discord_user_id
       r_discord_username r_created_at r_updated_at p_slug p_title p_description
       p_html_content p_discord_user_id p_discord_username].
  destruct (p_slug data) as [a|]; [|discriminate M1].
  destruct (p_title data) as [b|]; [|discriminate M2].
  destruct (p_description data) as [c|]; [|discriminate M3].
  destruct (p_html_content data) as [d|]; [|discriminate M4].
  destruct (p_discord_user_id data) as [e|]; [|discriminate M5].
  destruct (p_discord_username data) as [f|]; [|discriminate M6].
  rewrite (filled_text eq_refl M1), (filled_text eq_refl M2), (filled_text eq_refl M3),
          (filled_text eq_refl M4), (filled_text eq_refl M5), (filled_text eq_refl M6).
  cbn [text]. repeat split; reflexivity.
Qed.


End WithEnv.



(** On a fresh slug the row is written, and the call then fails on
    [result.lastID]: [dbAsync.run] resolves to [undefined]. *)
Example create_fresh_slug :
  let env := Scenarios.envWith (fun _ => Scenarios.goodReply) (fun s => Some s) in
  let out := create env Scenarios.helloData Scenarios.emptyWorld in
  fst out = Throw (mkExn (lit "TypeError")
                         (lit "Cannot read properties of undefined (reading 'lastID')")
                         None) /\
  map (fun r => (r_id r, r_slug r, r_created_at r)) (rows (db (snd out)))
  = [(1, lit "hello", lit "2025-01-14 12:00:00")].
Proof. vm_compute. split; reflexivity. Qed.

End PostFacts.

(** ** The command handler ([bot/commands/poop.js]) *)

Module CommandFacts.

Import FileHandler Command Notions GrokFacts AnalyzerFacts PostFacts ClassFacts.

(** Events of the API client say nothing about the store or the chat. *)
Lemma netEvents_silent (content : str) (evs : list Event) :
  Forall (netEvent content) evs ->
  creates evs = [] /\ slugQueries evs = [] /\ inserts evs = [] /\ replies evs = [] /\
  Forall (fun rq => rq_content rq = content) (posts evs).
Proof.
  induction 1 as [|e evs He _ (I1 & I2 & I3 & I4 & I5)]; [repeat split; constructor|].
  destruct e; cbn in He; try contradiction;
    unfold creates, slugQueries, inserts, replies, posts in *; cbn [flat_map app];
    repeat split; try assumption.
  constructor; assumption.
Qed.

Lemma attemptEvents_net (rq : Request) (k : nat) :
  forall retries, Forall (netEvent (rq_content rq)) (attemptEvents rq retries k).
Proof.
  induction k as [|k IH]; intro retries; cbn [attemptEvents].
  - repeat constructor.
  - constructor; [reflexivity|]. constructor; [exact I|]. apply IH.
Qed.

Section WithEnv.

Variable env : Env.

Lemma client_quiet (html instr : str) (t : nat) (w : World) :
  exists evs,
    db (snd (Grok.analyzeContent env html instr t w)) = db w /\
    log (snd (Grok.analyzeContent env html instr t w)) = log w ++ evs /\
    Forall (netEvent html) evs.
Proof.
  destruct (isBlank html) eqn:B.
  - exists []. unfold Grok.analyzeContent. rewrite B. cbn [throw snd].
    rewrite app_nil_r. repeat split. constructor.
  - rewrite (analyzeContent_world env html instr t w B). cbn [db log].
    eexists. split; [reflexivity|]. split; [reflexivity|].
    apply (attemptEvents_net (mkRequest html instr t)).
Qed.

Lemma analysisLoop_quiet (sanitized prompt : str) (maxR : nat) (fuel : nat) :
  forall attempt w,
    exists evs,
      db (snd (Analyzer.analysisLoop env fuel sanitized prompt maxR attempt w)) = db w /\
      log (snd (Analyzer.analysisLoop env fuel sanitized prompt maxR attempt w)) =
        log w ++ evs /\
      Forall (netEvent sanitized) evs.
Proof.
  induction fuel as [|fuel IH]; intros attempt w.
  - exists []. cbn. rewrite app_nil_r. repeat split. constructor.
  - cbn [Analyzer.analysisLoop]. destruct (attempt <=? maxR).
    + unfold tryCatch, bind.
      destruct (client_quiet sanitized prompt (7 + attempt) w) as (evs1 & D1 & L1 & N1).
      destruct (Grok.analyzeContent env sanitized prompt (7 + attempt) w) as [[a|e] w1].
      * exists evs1. cbn [ret snd] in *. repeat split; assumption.
      * cbn [snd] in D1, L1. destruct (attempt =? maxR).
        -- exists evs1. cbn [throw snd]. repeat split; assumption.
        -- destruct (IH (attempt + 1) w1) as (evs2 & D2 & L2 & N2).
           exists (evs1 ++ evs2). rewrite D2, L2, D1, L1, app_assoc.
           repeat split. apply Forall_app. split; assumption.
    + exists []. cbn. rewrite app_nil_r. repeat split. constructor.
Qed.

(** The analyzer returns metadata and touches neither the store nor the
    chat; what it sends to the API is the sanitized HTML. *)
Lemma analyzer_quiet (html : str) (options : Analyzer.Options) (w : World) :
  isBlank html = false ->
  Analyzer.skipSanitization options = false ->
  exists md w' evs,
    Analyzer.analyzeContent env html options w = (Ok md, w') /\
    db w' = db w /\
    log w' = log w ++ evs /\
    Forall (netEvent (Analyzer.sanitizeHTML env html)) evs.
Proof.
  intros B Sk. unfold Analyzer.analyzeContent. rewrite B, Sk.
  unfold tryCatch, bind.
  set (sanitized := Analyzer.sanitizeHTML env html).
  set (prompt := Analyzer.selectPromptTemplate _ _).
  destruct (analysisLoop_quiet sanitized prompt (Analyzer.maxRetries options)
              (S (Analyzer.maxRetries options)) 0 w) as (evs & D & L & N).
  destruct (Analyzer.analysisLoop env (S (Analyzer.maxRetries options)) sanitized prompt
              (Analyzer.maxRetries options) 0 w) as [[[ | |a]|e] w1];
    cbn [snd] in D, L; eexists; exists w1, evs; (split; [reflexivity|]);
    repeat split; assumption.
Qed.

Lemma cleanUserSlug_ok (s : str) (rnd : Slug.Rand) :
  exists slug, Slug.cleanUserSlug s rnd = Ok slug.
Proof.
  unfold Slug.cleanUserSlug. destruct (blank s) eqn:B; [eexists; reflexivity|].
  unfold Slug.generateSlug. rewrite B. eexists. reflexivity.
Qed.

End WithEnv.

(** Facts on [includes], for the choice of the reply in the [catch]
    block. *)
Lemma includes_absent (c : ascii) (needle s : str) :
  ~ In c s -> includes (c :: needle) s = false.
Proof.
  induction s as [|x t IH]; intro N; [reflexivity|].
  cbn [includes startsWith].
  replace (c =? x)%char with false.
  - cbn [andb orb]. apply IH. intro I. apply N. right. exact I.
  - symmetry. apply Ascii.eqb_neq. intro E. apply N. left. symmetry. exact E.
Qed.

Lemma includes_app_r (needle a b : str) :
  includes needle b = true -> includes needle (a ++ b) = true.
Proof.
  intro H. induction a as [|x a IH]; [exact H|].
  cbn [app includes]. rewrite IH. apply orb_true_r.
Qed.

(** The duplicate error is recognised by the handler as such. *)
Lemma duplicate_message_class (slug : str) :
  test Grok.re_simple_slug slug = true ->
  let message := lit "Post with slug '" ++ slug ++ lit "' already exists" in
  includes (lit "Validation failed") message = false /\
  includes (lit "slug") message = true /\
  includes (lit "exists") message = true.
Proof.
  intro T. unfold Grok.re_simple_slug in T. rewrite test_anchored_class in T.
  apply andb_true_iff in T as [_ F]. rewrite forallb_forall in F.
  cbn zeta. split; [|split].
  - apply includes_absent. rewrite !in_app_iff. intros [I|[I|I]].
    + cbn in I. repeat (destruct I as [I|I]; [discriminate I|]). exact I.
    + apply F in I. discriminate I.
    + cbn in I. repeat (destruct I as [I|I]; [discriminate I|]). exact I.
  - reflexivity.
  - apply includes_app_r, includes_app_r. reflexivity.
Qed.

Lemma bind_emit {B} (e : Event) (k : unit -> M B) (w : World) :
  bind (emit e) k w = k tt (mkWorld (db w) (posted w) (log w ++ [e])).
Proof. reflexivity. Qed.

Lemma bind_ok {A B} (c : M A) (k : A -> M B) (w w' : World) (a : A) :
  c w = (Ok a, w') -> bind c k w = k a w'.
Proof. intro H. unfold bind. rewrite H. reflexivity. Qed.

Lemma bind_throw {A B} (c : M A) (k : A -> M B) (w w' : World) (e : Exn) :
  c w = (Throw e, w') -> bind c k w = (Throw e, w').
Proof. intro H. unfold bind. rewrite H. reflexivity. Qed.

Lemma emit_eq (e : Event) (w : World) :
  emit e w = (Ok tt, mkWorld (db w) (posted w) (log w ++ [e])).
Proof. reflexivity. Qed.

Lemma bind_liftR_ok {A B} (a : A) (k : A -> M B) (w : World) :
  bind (liftR (Ok a)) k w = k a w.
Proof. reflexivity. Qed.

Ltac projections :=
  unfold creates, slugQueries, inserts, replies, posts in *;
  repeat (rewrite ?flat_map_app; cbn [flat_map app]).

Section Run.

Variable env : Env.
Variable message : Message.

(** Every run of the handler, by cases.  Either nothing reaches the
    store, or [Post.create] is called once with the extracted HTML and
    goes one of its three ways. *)
Lemma handle_run (w : World) :
  let out := handlePoopCommand env message w in
  exists evs,
    log (snd out) = log w ++ evs /\
    ((creates evs = [] /\ slugQueries evs = [] /\ inserts evs = [] /\
      db (snd out) = db w) \/
     (exists html type filename md slug,
        extractContent (msg_attachments message) (msg_content message)
          = Success html type filename /\
        isBlank html = false /\
        Forall (fun rq => rq_content rq = Analyzer.sanitizeHTML env html) (posts evs) /\
        let data := submission message slug (md_title md) (md_description md) html in
        let post := PostModel.newPost data in
        creates evs = [data] /\
        match PostModel.validate post with
        | _ :: _ =>
            slugQueries evs = [] /\ inserts evs = [] /\ db (snd out) = db w
        | [] =>
            slugQueries evs = [PostModel.text (p_slug post)] /\
            if existsb (PostModel.hasSlug (PostModel.text (p_slug post))) (rows (db w))
            then inserts evs = [] /\ db (snd out) = db w /\
                 exists before, replies evs = before ++ [ReplySlugExists]
            else inserts evs = [rowOf env post (S (lastId (db w)))] /\
                 db (snd out) =
                   mkStore (rows (db w) ++ [rowOf env post (S (lastId (db w)))])
                           (S (lastId (db w)))
        end)).
Proof.
  cbn zeta. unfold handlePoopCommand.
  destruct (startsWith (lit "!poop") (msg_content message)); cbn [negb].
  2:{ exists []. cbn [ret snd]. rewrite app_nil_r. split; [reflexivity|].
      left. repeat split. }
  unfold chat. rewrite bind_emit. unfold tryCatch.
  destruct (extractContent (msg_attachments message) (msg_content message))
    as [html type filename|err] eqn:X.
  2:{ rewrite emit_eq. cbn [snd log db]. eexists.
      split; [rewrite <- app_assoc; reflexivity|]. left. repeat split. }
  destruct (isBlank html) eqn:B.
  { rewrite emit_eq. cbn [snd log db]. eexists.
    split; [rewrite <- app_assoc; reflexivity|]. left. repeat split. }
  rewrite bind_emit. cbn [db posted log].
  set (w2 := mkWorld (db w) (posted w)
                     ((log w ++ [EvChat SendTyping]) ++ [EvChat ReplyProcessing])).
  set (options := Analyzer.mkOptions _ _ _ _).
  destruct (analyzer_quiet env html options w2 B eq_refl) as (md & w3 & evsA & A & D3 & L3 & N).
  rewrite (bind_ok _ _ _ A). rewrite bind_emit.
  destruct (cleanUserSlug_ok (md_slug md) (random env)) as [slug C].
  rewrite C, bind_liftR_ok, bind_emit. cbn [db posted log].
  fold (submission message slug (md_title md) (md_description md) html).
  set (data := submission message slug (md_title md) (md_description md) html).
  set (w5 := mkWorld (db w3) (posted w3)
                     ((log w3 ++ [EvChat EditAnalysisComplete]) ++ [EvChat EditSaving])).
  pose proof (create_cases env data w5) as CC. cbn zeta in CC.
  destruct (netEvents_silent N) as (S1 & S2 & S3 & S4 & S5).
  assert (D5 : db w5 = db w) by (subst w5 w2; cbn [db] in *; exact D3).
  assert (L5 : log w5 = log w ++ [EvChat SendTyping; EvChat ReplyProcessing] ++ evsA ++
                        [EvChat EditAnalysisComplete; EvChat EditSaving]).
  { subst w5 w2. cbn [log] in *. rewrite L3, <- !app_assoc. reflexivity. }
  assert (P5 : posted w5 = posted w3) by reflexivity.
  clearbody w5. clear A.
  assert (Html : p_html_content (PostModel.newPost data) = Some html).
  { cbn [data submission PostModel.newPost p_html_content PostModel.orNull].
    unfold isBlank in B. apply orb_false_iff in B as [B _]. rewrite B. reflexivity. }
  destruct (PostModel.validate (PostModel.newPost data)) as [|err errs] eqn:V.
  - rewrite D5 in CC.
    destruct (existsb (PostModel.hasSlug (PostModel.text (p_slug (PostModel.newPost data))))
                      (rows (db w))) eqn:E.
    + (* the slug is taken *)
      rewrite (bind_throw _ _ _ CC). unfold onError. cbn [emessage Error].
      destruct (validate_nil _ V) as (_ & _ & _ & _ & _ & _ & T).
      destruct (duplicate_message_class _ T) as (M1 & M2 & M3). cbn zeta in M1, M2, M3.
      rewrite M1, M2, M3. cbn [andb]. unfold chat. rewrite emit_eq. cbn [snd log db].
      rewrite L5. eexists. split; [rewrite <- !app_assoc; cbn [app]; reflexivity|].
      right. exists html, type, filename, md, slug.
      split; [reflexivity|]. split; [exact B|]. fold data. rewrite V, E.
      projections. rewrite S1, S2, S3, S4, !app_nil_r. cbn [app].
      split; [exact S5|]. split; [reflexivity|]. split; [reflexivity|].
      split; [reflexivity|]. split; [reflexivity|].
      exists [SendTyping; ReplyProcessing; EditAnalysisComplete; EditSaving]. reflexivity.
    + (* the row is written, and reading [result.lastID] fails *)
      set (row := rowOf env (PostModel.newPost data) (S (lastId (db w)))) in *.
      rewrite (bind_throw _ _ _ CC). unfold onError.
      replace (includes (lit "Validation failed")
                 (emessage (PostModel.undefinedProperty "lastID")))
        with false by (vm_compute; reflexivity).
      replace (includes (lit "slug") (emessage (PostModel.undefinedProperty "lastID")))
        with false by (vm_compute; reflexivity).
      replace (includes (lit "API") (emessage (PostModel.undefinedProperty "lastID")))
        with false by (vm_compute; reflexivity).
      replace (includes (lit "Database") (emessage (PostModel.undefinedProperty "lastID")))
        with false by (vm_compute; reflexivity).
      cbn [andb]. unfold chat. rewrite emit_eq. cbn [snd log db].
      rewrite L5. eexists. split; [rewrite <- !app_assoc; cbn [app]; reflexivity|].
      right. exists html, type, filename, md, slug.
      split; [reflexivity|]. split; [exact B|]. fold data. rewrite V, E.
      projections. rewrite S1, S2, S3, !app_nil_r. cbn [app].
      split; [exact S5|]. repeat split.
  - (* validation fails *)
    rewrite (bind_throw _ _ _ CC). unfold onError. cbn [emessage Error].
    replace (includes (lit "Validation failed")
               (lit "Validation failed: " ++ joinWith (lit ", ") (err :: errs)))
      with true by reflexivity.
    unfold chat. rewrite emit_eq. cbn [snd log db].
    rewrite L5. eexists. split; [rewrite <- !app_assoc; cbn [app]; reflexivity|].
    right. exists html, type, filename, md, slug.
    split; [reflexivity|]. split; [exact B|]. fold data. rewrite V.
    projections. rewrite S1, S2, S3, !app_nil_r. cbn [app].
    split; [exact S5|]. repeat split. exact D5.
Qed.

(** In every run of the handler the HTML handed to [Post.create], and
    written to the store, is the content the extractor returned, as it
    is: the output of the sanitizer goes to the language-model API
    only. *)
Lemma stored_html_is_extracted (w : World) :
  let out := handlePoopCommand env message w in
  exists evs,
    log (snd out) = log w ++ evs /\
    rows (db (snd out)) = rows (db w) ++ inserts evs /\
    (forall data, In data (creates evs) ->
       exists html type filename,
         extractContent (msg_attachments message) (msg_content message)
           = Success html type filename /\
         p_html_content data = Some html /\
         Forall (fun rq => rq_content rq = Analyzer.sanitizeHTML env html) (posts evs)) /\
    (forall row, In row (inserts evs) ->
       exists html type filename,
         extractContent (msg_attachments message) (msg_content message)
           = Success html type filename /\
         r_html_content row = html).
Proof.
  cbn zeta. destruct (handle_run w) as (evs & L & [(C & Q & I & D)|R]).
  - exists evs. split; [exact L|]. rewrite C, I, D, app_nil_r.
    split; [reflexivity|]. split; intros x [].
  - destruct R as (html & type & filename & md & slug & X & B & P & R). cbn zeta in R.
    destruct R as [C R]. exists evs. split; [exact L|].
    assert (Html : p_html_content
                     (PostModel.newPost
                        (submission message slug (md_title md) (md_description md) html))
                   = Some html).
    { cbn [submission PostModel.newPost p_html_content PostModel.orNull].
      unfold isBlank in B. apply orb_false_iff in B as [B' _]. rewrite B'. reflexivity. }
    assert (Rows : rows (db (snd (handlePoopCommand env message w))) =
                   rows (db w) ++ inserts evs /\
                   forall row, In row (inserts evs) -> r_html_content row = html).
    { destruct (PostModel.validate _) as [|err errs].
      - destruct R as [_ R]. destruct (existsb _ _).
        + destruct R as (I & D & _). rewrite I, D, app_nil_r. split; [reflexivity|intros x []].
        + destruct R as (I & D). rewrite I, D. split; [reflexivity|].
          intros row [<-|[]]. cbn [rowOf r_html_content]. rewrite Html. reflexivity.
      - destruct R as (_ & I & D). rewrite I, D, app_nil_r. split; [reflexivity|intros x []]. }
    destruct Rows as [Rows Each]. split; [exact Rows|]. split.
    + rewrite C. intros data [<-|[]]. exists html, type, filename.
      split; [exact X|]. split; [reflexivity|exact P].
    + intros row I. exists html, type, filename. split; [exact X|]. apply Each, I.
Qed.

(** C7 (as amended).  A duplicate slug is not re-resolved: in every
    run the handler calls [Post.create] at most once and the store is
    asked about at most one slug; when that slug is taken the run
    writes nothing, leaves the store as it was, and ends by telling
    the user that a post with this title already exists. *)
Theorem duplicate_slug_not_retried (w : World) :
  let out := handlePoopCommand env message w in
  exists evs,
    log (snd out) = log w ++ evs /\
    length (creates evs) <= 1 /\
    length (slugQueries evs) <= 1 /\
    (forall slug,
       In slug (slugQueries evs) -> In slug (map r_slug (rows (db w))) ->
       db (snd out) = db w /\ inserts evs = [] /\
       exists before, replies evs = before ++ [ReplySlugExists]).
Proof.
  cbn zeta. destruct (handle_run w) as (evs & L & [(C & Q & I & D)|R]).
  - exists evs. split; [exact L|]. rewrite C, Q. cbn [length].
    split; [lia|]. split; [lia|]. intros slug [].
  - destruct R as (html & type & filename & md & slug & X & B & P & R). cbn zeta in R.
    destruct R as [C R]. exists evs. split; [exact L|]. rewrite C. cbn [length].
    split; [lia|].
    destruct (PostModel.validate _) as [|err errs].
    + destruct R as [Q R]. rewrite Q. cbn [length]. split; [lia|].
      intros s [<-|[]] Taken. apply existsb_hasSlug in Taken. rewrite Taken in R.
      destruct R as (I & D & Rp). repeat split; assumption.
    + destruct R as (Q & _). rewrite Q. cbn [length]. split; [lia|]. intros s [].
Qed.

End Run.

(** C1.  The handler does not do what the claim, the command tests
    and the validation helpers beside it ask for.  On the scenario of
    the claim, with a sanitizer that turns the submitted HTML into the
    heading alone, the API is sent the heading alone, but what is
    handed to [Post.create] and written to the table still contains
    the script element. *)
Lemma stored_html_is_not_sanitized :
  let env := Scenarios.envWith (fun _ => Scenarios.goodReply) Scenarios.scrub in
  let out := handlePoopCommand env Scenarios.scenarioMessage Scenarios.emptyWorld in
  Analyzer.sanitizeHTML env Scenarios.scenarioHtml = lit "<h1>Hello</h1>" /\
  map rq_content (posts (log (snd out))) = [lit "<h1>Hello</h1>"] /\
  map p_html_content (creates (log (snd out))) = [Some Scenarios.scenarioHtml] /\
  map r_html_content (rows (db (snd out))) = [Scenarios.scenarioHtml] /\
  Scenarios.scenarioHtml <> lit "<h1>Hello</h1>".
Proof. vm_compute. repeat split. discriminate. Qed.

(** C7 as stated fails: when the slug chosen for the submission is
    taken, the handler asks the store about that one slug (inside its
    single call of [Post.create]) and about no other, and replies with
    the rejection at once. *)
Lemma duplicate_is_rejected_without_resolution :
  let env := Scenarios.envWith (fun _ => Scenarios.goodReply) Scenarios.scrub in
  let out := handlePoopCommand env Scenarios.scenarioMessage Scenarios.helloWorld in
  slugQueries (log (snd out)) = [lit "hello"] /\
  length (creates (log (snd out))) = 1 /\
  replies (log (snd out)) =
    [SendTyping; ReplyProcessing; EditAnalysisComplete; EditSaving; ReplySlugExists] /\
  db (snd out) = db Scenarios.helloWorld.
Proof. vm_compute. repeat split. Qed.

(** The end-to-end scenario on an empty store: the row is written, and
    the user is told that the processing failed, because [Post.create]
    fails after its INSERT. *)
Example scenario_stores_post :
  let env := Scenarios.envWith (fun _ => Scenarios.goodReply) Scenarios.scrub in
  let out := handlePoopCommand env Scenarios.scenarioMessage Scenarios.emptyWorld in
  map r_slug (rows (db (snd out))) = [lit "hello"] /\
  replies (log (snd out)) =
    [SendTyping; ReplyProcessing; EditAnalysisComplete; EditSaving; ReplyFailed] /\
  posted (snd out) = 1.
Proof. vm_compute. repeat split. Qed.

(** With the API down for good the row is written from the fallback
    metadata. *)
Example scenario_api_down :
  let env := Scenarios.envWith (fun _ => ReplyStatus 503 None) Scenarios.scrub in
  let out := handlePoopCommand env Scenarios.scenarioMessage Scenarios.emptyWorld in
  map r_slug (rows (db (snd out))) = [lit "discord-post"] /\
  map r_title (rows (db (snd out))) = [lit "Discord Post"] /\
  posted (snd out) = 12.
Proof. vm_compute. repeat split. Qed.

End CommandFacts.

(** * Properties of the utilities *)

(** ** The matcher, whatever the pattern *)

Module MatcherFacts.

Import Terms RegexFacts ClassFacts.

(** A pattern that must begin with a character of a class fails where
    the input does not. *)
Lemma m_Starts (p : ascii -> Prop) (r : re) :
  Starts p r ->
  forall st k,
    match rest st with c :: _ => ~ p c | [] => True end ->
    m r st k = None.
Proof.
  induction 1 as [q Hq|a b _ IH|a b _ IHa _ IHb|i a _ IH]; intros st k Hd.
  - cbn [m]. destruct (rest st) as [|c t]; [reflexivity|].
    destruct (q c) eqn:E; [|reflexivity]. exfalso. apply Hd, Hq, E.
  - cbn [m]. apply IH, Hd.
  - cbn [m]. rewrite IHa by exact Hd. apply IHb, Hd.
  - cbn [m]. apply IH, Hd.
Qed.

Lemma exec_at_Starts (p : ascii -> Prop) (r : re) (pv : option ascii) (s : str) :
  Starts p r ->
  match s with c :: _ => ~ p c | [] => True end ->
  exec_at r pv s = None.
Proof.
  intros S Hd. unfold exec_at. rewrite (m_Starts S); [reflexivity|exact Hd].
Qed.

Lemma head_of_Forall (p : ascii -> Prop) (s : str) :
  Forall (fun c => ~ p c) s -> match s with c :: _ => ~ p c | [] => True end.
Proof. intro F. destruct F; [exact I|assumption]. Qed.

(** Such a pattern finds nothing in, and changes nothing of, a string
    without characters of the class. *)
Lemma replace_go_Starts (p : ascii -> Prop) (r : re) (f : Match -> str) (s : str) :
  Starts p r -> Forall (fun c => ~ p c) s ->
  forall pv, replace_go r f pv s 0 = s.
Proof.
  intros S F. induction F as [|c t Hc Ht IH]; intro pv; cbn [replace_go].
  - rewrite (exec_at_Starts pv [] S I). reflexivity.
  - rewrite (exec_at_Starts pv (c :: t) S Hc), IH. reflexivity.
Qed.

Lemma replace_all_Starts (p : ascii -> Prop) (r : re) (f : Match -> str) (s : str) :
  Starts p r -> Forall (fun c => ~ p c) s -> replace_all r f s = s.
Proof. intros S F. apply replace_go_Starts with (p := p); assumption. Qed.

Lemma search_go_Starts (p : ascii -> Prop) (r : re) (s : str) :
  Starts p r -> Forall (fun c => ~ p c) s ->
  forall pv, search_go r pv s = None.
Proof.
  intros S F. induction F as [|c t Hc Ht IH]; intro pv; cbn [search_go].
  - rewrite (exec_at_Starts pv [] S I). reflexivity.
  - rewrite (exec_at_Starts pv (c :: t) S Hc). apply IH.
Qed.

Lemma test_Starts (p : ascii -> Prop) (r : re) (s : str) :
  Starts p r -> Forall (fun c => ~ p c) s -> test r s = false.
Proof.
  intros S F. unfold test, search. rewrite (search_go_Starts S F). reflexivity.
Qed.

(** Where [test] succeeds, the list of all matches is not empty. *)
Lemma match_all_go_search (r : re) (s : str) :
  forall pv, search_go r pv s <> None -> match_all_go r pv s 0 <> [].
Proof.
  induction s as [|c t IH]; intros pv H; cbn [search_go match_all_go] in *.
  - destruct (exec_at r pv []) as [[n cs]|]; [discriminate|contradiction].
  - destruct (exec_at r pv (c :: t)) as [[n cs]|]; [discriminate|].
    apply IH, H.
Qed.

Lemma match_all_of_test (r : re) (s : str) :
  test r s = true -> 1 <= length (match_all r s).
Proof.
  unfold test, search, match_all. intro T.
  assert (N : search_go r None s <> None).
  { destruct (search_go r None s); [discriminate|discriminate T]. }
  apply match_all_go_search in N.
  destruct (match_all_go r None s 0); [contradiction|cbn; lia].
Qed.

(** Replacing matches by nothing only leaves characters out. *)
Lemma Subseq_refl (s : str) : Subseq s s.
Proof. induction s; constructor; assumption. Qed.

Lemma Subseq_trans (a b c : str) : Subseq a b -> Subseq b c -> Subseq a c.
Proof.
  intros H1 H2. revert a H1.
  induction H2 as [|x b c _ IH|x b c _ IH]; intros a H1.
  - exact H1.
  - constructor. apply IH, H1.
  - inversion H1; subst.
    + constructor. apply IH. assumption.
    + apply Subseq_keep. apply IH. assumption.
Qed.

Lemma Subseq_length (a b : str) : Subseq a b -> length a <= length b.
Proof. induction 1; cbn [length]; lia. Qed.

Lemma Subseq_Forall (q : ascii -> Prop) (a b : str) :
  Subseq a b -> Forall q b -> Forall q a.
Proof.
  induction 1 as [|c a b _ IH|c a b _ IH]; intro F.
  - constructor.
  - inversion F; subst. apply IH. assumption.
  - inversion F; subst. constructor; [assumption|apply IH; assumption].
Qed.

Lemma replace_go_delete_Subseq (r : re) (s : str) :
  forall pv skip, Subseq (replace_go r (const_ []) pv s skip) s.
Proof.
  induction s as [|c t IH]; intros pv skip.
  - destruct skip; cbn [replace_go]; [|constructor].
    destruct (exec_at r pv []) as [[n cs]|]; constructor.
  - destruct skip as [|j]; cbn [replace_go].
    + destruct (exec_at r pv (c :: t)) as [[[|n] cs]|]; unfold const_; cbn [app].
      * apply Subseq_keep, IH.
      * apply Subseq_drop, IH.
      * apply Subseq_keep, IH.
    + apply Subseq_drop, IH.
Qed.

Lemma replace_all_delete_Subseq (r : re) (s : str) :
  Subseq (replace_all r (const_ []) s) s.
Proof. apply replace_go_delete_Subseq. Qed.

End MatcherFacts.

(** ** Literal words in patterns *)

Module LiteralFacts.

Import Terms RegexFacts ClassFacts MatcherFacts.

Lemma m_Seqs_cons (r : re) (rs : list re) (st : MState) (k : MState -> option MState) :
  m (Seqs (r :: rs)) st k = m r st (fun st' => m (Seqs rs) st' k).
Proof. destruct rs; reflexivity. Qed.

(** A case-insensitive word matches where the input, in lower case,
    starts with the word in lower case. *)
Lemma m_LitI (w : str) :
  forall pv s ps cs,
    exists pv',
      forall k,
        m (Seqs (map (fun x => Chr (fun c => (lowerChar c =? lowerChar x)%char)) w))
          (mkM pv s ps cs) k =
        if startsWith (toLowerCase w) (toLowerCase s)
        then k (mkM pv' (skipn (length w) s) (ps + length w) cs)
        else None.
Proof.
  induction w as [|x w IH]; intros pv s ps cs.
  - exists pv. intro k. cbn. rewrite Nat.add_0_r. reflexivity.
  - destruct s as [|c t].
    + exists pv. intro k. cbn [map]. rewrite m_Seqs_cons. reflexivity.
    + destruct (IH (Some c) t (S ps) cs) as [pv' E]. exists pv'. intro k.
      cbn [map]. rewrite m_Seqs_cons, m_Chr_cons.
      cbn [toLowerCase map startsWith length skipn].
      rewrite (Ascii.eqb_sym (lowerChar x) (lowerChar c)).
      destruct (lowerChar c =? lowerChar x)%char; [|reflexivity].
      cbn [andb]. rewrite E. unfold toLowerCase.
      replace (S ps + length w) with (ps + S (length w)) by lia. reflexivity.
Qed.

Lemma exec_at_LitI (w : string) (pv : option ascii) (s : str) :
  exec_at (LitI w) pv s =
  if startsWith (toLowerCase (lit w)) (toLowerCase s)
  then Some (length (lit w), []) else None.
Proof.
  unfold exec_at, LitI. destruct (m_LitI (lit w) pv s 0 []) as [pv' E].
  rewrite E. destruct (startsWith _ _); reflexivity.
Qed.

Lemma search_go_LitI (w : string) (s : str) :
  forall pv,
    match search_go (LitI w) pv s with Some _ => true | None => false end =
    includes (toLowerCase (lit w)) (toLowerCase s).
Proof.
  induction s as [|c t IH]; intro pv; cbn [search_go]; rewrite exec_at_LitI.
  - cbn [toLowerCase map includes].
    destruct (startsWith _ _); reflexivity.
  - cbn [toLowerCase map includes]. fold (toLowerCase t).
    destruct (startsWith _ _); [reflexivity|]. cbn [orb]. apply IH.
Qed.

(** [/word/i.test(s)] is [s.toLowerCase().includes(word)] for a word in
    lower case. *)
Lemma test_LitI (w : string) (s : str) :
  test (LitI w) s = includes (toLowerCase (lit w)) (toLowerCase s).
Proof. unfold test, search. apply search_go_LitI. Qed.

End LiteralFacts.

(** ** [escapeHTML] ([utils/security.js]) *)

Module EscapeFacts.

Import Security Notions Terms SecurityFacts.

Lemma escapeChar_clean (c : ascii) :
  Forall (fun x => markup x = false) (escapeChar c).
Proof.
  unfold escapeChar. destruct (escapable c) eqn:E.
  - destruct c as [[] [] [] [] [] [] [] []]; vm_compute in E; try discriminate E;
      vm_compute; repeat constructor.
  - constructor; [|constructor].
    destruct c as [[] [] [] [] [] [] [] []]; vm_compute in E; try discriminate E;
      reflexivity.
Qed.

(** X1.  Whatever the text, the output of [escapeHTML] contains none
    of the characters [<], [>], [/] and the two quotes. *)
Theorem escapeHTML_no_markup (text : str) :
  Forall (fun c => markup c = false) (escapeHTML text).
Proof.
  rewrite escapeHTML_flat_map.
  induction text as [|c t IH]; cbn [flat_map]; [constructor|].
  apply Forall_app. split; [apply escapeChar_clean|exact IH].
Qed.

(** X2.  Escaping distributes over concatenation: a text escaped piece
    by piece is the text escaped as a whole. *)
Theorem escapeHTML_app (a b : str) :
  escapeHTML (a ++ b) = escapeHTML a ++ escapeHTML b.
Proof. rewrite !escapeHTML_flat_map. apply flat_map_app. Qed.

End EscapeFacts.

(** ** [validateInput] and [validateFileUpload] ([utils/security.js]) *)

Module InputFacts.

Import Security InputValidation Terms MatcherFacts LiteralFacts.

Lemma validateInput_valid (input : str) :
  isValid (validateInput input) = true ->
  Forall (fun r => test r input = false) xssPatterns \/ input = [].
Proof.
  unfold validateInput. destruct input as [|c t]; [right; reflexivity|].
  cbn [blank isValid]. intro H. left. apply Nat.eqb_eq in H.
  induction xssPatterns as [|r rs IH]; [constructor|].
  cbn [flat_map] in H. rewrite length_app in H.
  destruct (test r (c :: t)) eqn:E; [cbn [length] in H; lia|].
  constructor; [exact E|]. apply IH. cbn [length] in H. lia.
Qed.

(** X3.  An input in which [javascript:], [vbscript:] or [@import]
    occurs, in whatever mix of upper and lower case, is reported as
    invalid by [validateInput]. *)
Theorem validateInput_flags_protocols (input : str) :
  includes (lit "javascript:") (toLowerCase input) = true \/
  includes (lit "vbscript:") (toLowerCase input) = true \/
  includes (lit "@import") (toLowerCase input) = true ->
  isValid (validateInput input) = false.
Proof.
  intro H. destruct (isValid (validateInput input)) eqn:V; [|reflexivity].
  exfalso. destruct (validateInput_valid input V) as [F|E].
  - unfold xssPatterns in F.
    repeat match goal with
           | F : Forall _ (_ :: _) |- _ => inversion F; clear F; subst
           end.
    repeat match goal with
           | T : test (LitI _) _ = false |- _ => rewrite test_LitI in T
           end.
    change (toLowerCase (lit "javascript:")) with (lit "javascript:") in *.
    change (toLowerCase (lit "vbscript:")) with (lit "vbscript:") in *.
    change (toLowerCase (lit "@import")) with (lit "@import") in *.
    destruct H as [H|[H|H]]; congruence.
  - subst input. destruct H as [H|[H|H]]; discriminate H.
Qed.

Lemma validateInput_flags_protocols_witness :
  isValid (validateInput (lit "<a href=JavaScript:alert(1)>x</a>")) = false.
Proof.
  apply (@validateInput_flags_protocols (lit "<a href=JavaScript:alert(1)>x</a>")).
  left. vm_compute. reflexivity.
Defined.

(** The extension pattern begins with a dot. *)
Lemma re_extension_Starts : Starts (fun c => c = "."%char) re_extension.
Proof.
  unfold re_extension. cbn [Seqs]. apply Starts_Seq, Starts_Chr.
  intros c H. unfold eqc in H. apply Ascii.eqb_eq in H. exact H.
Qed.

Lemma lowerChar_dot (c : ascii) : lowerChar c = "."%char -> c = "."%char.
Proof.
  destruct c as [[] [] [] [] [] [] [] []]; vm_compute; intro H;
    first [reflexivity | discriminate H].
Qed.

(** X4.  A file whose name contains no dot is never rejected for its
    extension, whatever the list of allowed extensions: it is valid
    exactly when its size and type are accepted. *)
Theorem validateFileUpload_no_extension (file : File) (config : UploadConfig) :
  ~ In "."%char (f_name file) ->
  uploadValid (validateFileUpload (Some file) config) =
  negb (maxSize config <? f_size file)%N && mem (f_type file) (allowedTypes config).
Proof.
  intro N. unfold validateFileUpload, extensionOf, search.
  rewrite (search_go_Starts re_extension_Starts).
  - cbn [blank negb andb uploadValid]. rewrite app_nil_r.
    destruct (maxSize config <? f_size file)%N;
      destruct (mem (f_type file) (allowedTypes config)); reflexivity.
  - unfold toLowerCase. apply Forall_forall. intros c I E.
    apply in_map_iff in I as (x & Ex & Ix). subst c.
    apply lowerChar_dot in E. subst x. exact (N Ix).
Qed.

Lemma validateFileUpload_no_extension_witness :
  uploadValid (validateFileUpload
                 (Some (mkFile 100 (lit "text/html") (lit "payload")))
                 defaultUploadConfig)
  = negb (maxSize defaultUploadConfig <? 100)%N
    && mem (lit "text/html") (allowedTypes defaultUploadConfig).
Proof.
  apply (@validateFileUpload_no_extension
           (mkFile 100 (lit "text/html") (lit "payload")) defaultUploadConfig).
  cbn. intros [H|[H|[H|[H|[H|[H|[H|H]]]]]]]; try discriminate H; exact H.
Defined.

End InputFacts.

(** ** [Map] objects *)

Module MapFacts.

Import PostFacts Terms.

Section Map.

Variable V : Type.

Implicit Types m : JsMap.t V.

Lemma str_eqb_neq (a b : str) : a <> b -> str_eqb a b = false.
Proof.
  intro N. destruct (str_eqb a b) eqn:E; [|reflexivity].
  apply str_eqb_eq in E. contradiction.
Qed.

Lemma str_eqb_sym (a b : str) : str_eqb a b = str_eqb b a.
Proof.
  destruct (str_eqb a b) eqn:E.
  - apply str_eqb_eq in E. subst b. symmetry. apply str_eqb_refl.
  - symmetry. apply str_eqb_neq. intro X. subst b. rewrite str_eqb_refl in E.
    discriminate E.
Qed.

Lemma get_set_same (k : str) (v : V) m : JsMap.get k (JsMap.set k v m) = Some v.
Proof.
  induction m as [|[k' v'] m IH]; cbn [JsMap.set JsMap.get].
  - rewrite str_eqb_refl. reflexivity.
  - destruct (str_eqb k k') eqn:E; cbn [JsMap.get].
    + rewrite str_eqb_refl. reflexivity.
    + rewrite E. exact IH.
Qed.

Lemma get_set_other (k k' : str) (v : V) m :
  k' <> k -> JsMap.get k' (JsMap.set k v m) = JsMap.get k' m.
Proof.
  intro N. induction m as [|[k0 v0] m IH]; cbn [JsMap.set JsMap.get].
  - rewrite (str_eqb_neq N). reflexivity.
  - destruct (str_eqb k k0) eqn:E; cbn [JsMap.get].
    + apply str_eqb_eq in E. subst k0. rewrite (str_eqb_neq N). reflexivity.
    + rewrite IH. reflexivity.
Qed.

Lemma get_None_keys (k : str) m : ~ In k (JsMap.keys m) -> JsMap.get k m = None.
Proof.
  induction m as [|[k0 v0] m IH]; cbn [JsMap.keys map fst In JsMap.get]; intro N;
    [reflexivity|].
  rewrite str_eqb_neq by (intro E; apply N; left; symmetry; exact E).
  apply IH. intro I. apply N. right. exact I.
Qed.

Lemma get_delete_same (k : str) m :
  NoDup (JsMap.keys m) -> JsMap.get k (JsMap.delete k m) = None.
Proof.
  induction m as [|[k0 v0] m IH]; cbn [JsMap.keys map fst JsMap.delete]; intro D;
    [reflexivity|].
  inversion D as [|x l Nin D']; subst.
  destruct (str_eqb k k0) eqn:E.
  - apply str_eqb_eq in E. subst k0. apply get_None_keys. exact Nin.
  - cbn [JsMap.get]. rewrite E. apply IH, D'.
Qed.

Lemma get_delete_other (k k' : str) m :
  k' <> k -> JsMap.get k' (JsMap.delete k m) = JsMap.get k' m.
Proof.
  intro N. induction m as [|[k0 v0] m IH]; cbn [JsMap.delete JsMap.get];
    [reflexivity|].
  destruct (str_eqb k k0) eqn:E; cbn [JsMap.get].
  - apply str_eqb_eq in E. subst k0. rewrite (str_eqb_neq N). reflexivity.
  - rewrite IH. reflexivity.
Qed.

Lemma keys_set (k : str) (v : V) m :
  forall x, In x (JsMap.keys (JsMap.set k v m)) <-> x = k \/ In x (JsMap.keys m).
Proof.
  induction m as [|[k0 v0] m IH]; intro x; cbn [JsMap.set JsMap.keys map fst In].
  - intuition congruence.
  - destruct (str_eqb k k0) eqn:E; cbn [JsMap.keys map fst In].
    + apply str_eqb_eq in E. subst k0. intuition congruence.
    + fold (JsMap.keys (JsMap.set k v m)). fold (JsMap.keys m). rewrite IH.
      intuition congruence.
Qed.

Lemma NoDup_set (k : str) (v : V) m :
  NoDup (JsMap.keys m) -> NoDup (JsMap.keys (JsMap.set k v m)).
Proof.
  induction m as [|[k0 v0] m IH]; cbn [JsMap.set JsMap.keys map fst]; intro D.
  - constructor; [intros []|constructor].
  - inversion D as [|x l Nin D']; subst.
    destruct (str_eqb k k0) eqn:E; cbn [JsMap.keys map fst].
    + apply str_eqb_eq in E. subst k0. constructor; assumption.
    + constructor; [|apply IH, D'].
      fold (JsMap.keys (JsMap.set k v m)). rewrite keys_set. intros [X|X].
      * subst k0. rewrite str_eqb_refl in E. discriminate E.
      * exact (Nin X).
Qed.

Lemma keys_delete (k : str) m :
  forall x, In x (JsMap.keys (JsMap.delete k m)) -> In x (JsMap.keys m).
Proof.
  induction m as [|[k0 v0] m IH]; intro x; cbn [JsMap.delete JsMap.keys map fst In];
    [tauto|].
  destruct (str_eqb k k0); cbn [JsMap.keys map fst In].
  - intro I. right. exact I.
  - intros [E|I]; [left; exact E|right; apply IH, I].
Qed.

Lemma NoDup_delete (k : str) m :
  NoDup (JsMap.keys m) -> NoDup (JsMap.keys (JsMap.delete k m)).
Proof.
  induction m as [|[k0 v0] m IH]; cbn [JsMap.delete JsMap.keys map fst]; intro D;
    [constructor|].
  inversion D as [|x l Nin D']; subst.
  destruct (str_eqb k k0); cbn [JsMap.keys map fst]; [exact D'|].
  constructor; [|apply IH, D'].
  intro I. apply Nin. apply (keys_delete k m). exact I.
Qed.

(** A loop over the entries of a map that, for each entry, either
    deletes it or stores a new value under its key. *)
Section Sweep.

Variable f : V -> option V.

Lemma sweep_get (es : JsMap.t V) :
  NoDup (JsMap.keys es) ->
  forall acc k,
    NoDup (JsMap.keys acc) ->
    NoDup (JsMap.keys (fold_left (sweepStep f) es acc)) /\
    JsMap.get k (fold_left (sweepStep f) es acc) =
    match JsMap.get k es with
    | Some v => f v
    | None => JsMap.get k acc
    end.
Proof.
  induction es as [|[k0 v0] es IH]; cbn [JsMap.keys map fst]; intros D acc k Da.
  - split; [exact Da|reflexivity].
  - inversion D as [|x l Nin D']; subst. cbn [fold_left JsMap.get].
    assert (Da' : NoDup (JsMap.keys ((sweepStep f) acc (k0, v0)))).
    { unfold sweepStep. cbn [fst snd]. destruct (f v0);
        [apply NoDup_set|apply NoDup_delete]; exact Da. }
    destruct (IH D' ((sweepStep f) acc (k0, v0)) k Da') as [N G].
    split; [exact N|]. rewrite G.
    destruct (str_eqb k k0) eqn:E.
    + apply str_eqb_eq in E. subst k0. rewrite (get_None_keys k es Nin).
      unfold sweepStep. cbn [fst snd]. destruct (f v0).
      * apply get_set_same.
      * apply get_delete_same, Da.
    + assert (Nk : k <> k0) by (intro X; subst k0; rewrite str_eqb_refl in E; discriminate E).
      destruct (JsMap.get k es); [reflexivity|].
      unfold sweepStep. cbn [fst snd]. destruct (f v0).
      * apply get_set_other, Nk.
      * apply get_delete_other, Nk.
Qed.

End Sweep.

End Map.

End MapFacts.

(** ** [createRateLimiter] ([utils/security.js]) *)

Module RateLimiterFacts.

Import RateLimiter Terms PostFacts MapFacts.

Open Scope Z_scope.

Lemma fold_left_ext {A B} (f g : A -> B -> A) (l : list B) :
  (forall a b, f a b = g a b) -> forall a, fold_left f l a = fold_left g l a.
Proof.
  intro E. induction l as [|b l IH]; intro a; cbn [fold_left]; [reflexivity|].
  rewrite E. apply IH.
Qed.

Lemma cleanOld_sweep (windowStart : Z) (requests : Requests) :
  cleanOld windowStart requests =
  fold_left (sweepStep (keep windowStart)) requests requests.
Proof.
  unfold cleanOld. apply fold_left_ext. intros acc [k ts].
  unfold sweepStep, keep. cbn [fst snd].
  destruct (length (recent windowStart ts) =? 0)%nat; reflexivity.
Qed.

(** Cleaning filters the list of every identifier. *)
Lemma view_cleanOld (windowStart : Z) (requests : Requests) (k : str) :
  NoDup (JsMap.keys requests) ->
  NoDup (JsMap.keys (cleanOld windowStart requests)) /\
  view (cleanOld windowStart requests) k = recent windowStart (view requests k).
Proof.
  intro D. rewrite cleanOld_sweep.
  destruct (@sweep_get _ (keep windowStart) requests D requests k D) as [N G].
  split; [exact N|]. unfold view. rewrite G.
  destruct (JsMap.get k requests) as [ts|]; [|reflexivity].
  unfold keep. destruct (recent windowStart ts); reflexivity.
Qed.

Lemma view_set (k k' : str) (v : list Z) (requests : Requests) :
  view (JsMap.set k v requests) k' = if str_eqb k' k then v else view requests k'.
Proof.
  unfold view. destruct (str_eqb k' k) eqn:E.
  - apply str_eqb_eq in E. subst k'. rewrite get_set_same. reflexivity.
  - rewrite get_set_other; [reflexivity|].
    intro X. subst k'. rewrite str_eqb_refl in E. discriminate E.
Qed.

Lemma recent_recent (a b : Z) (l : list Z) :
  a <= b -> recent b (recent a l) = recent b l.
Proof.
  intro H. unfold recent. induction l as [|x l IH]; cbn [filter]; [reflexivity|].
  destruct (a <? x) eqn:A; cbn [filter]; [rewrite IH; reflexivity|].
  rewrite IH. destruct (b <? x) eqn:B; [|reflexivity]. lia.
Qed.

Lemma recent_app (a : Z) (l l' : list Z) :
  recent a (l ++ l') = recent a l ++ recent a l'.
Proof. apply filter_app. Qed.

Section Limiter.

Variable windowMs : Z.
Variable maxRequests : Z.

(** One call, read through [view]. *)
Lemma limiter_view (now : Z) (identifier : str) (requests : Requests) (k : str) :
  NoDup (JsMap.keys requests) ->
  let seen := recent (now - windowMs) (view requests identifier) in
  let out := limiter windowMs maxRequests now identifier requests in
  NoDup (JsMap.keys (snd out)) /\
  isAllowed (fst out) = negb (maxRequests <=? Z.of_nat (length seen)) /\
  view (snd out) k =
    if isAllowed (fst out) && str_eqb k identifier
    then seen ++ [now]
    else recent (now - windowMs) (view requests k).
Proof.
  intro D. cbn zeta. unfold limiter.
  destruct (@view_cleanOld (now - windowMs) requests identifier D) as [N Vi].
  destruct (@view_cleanOld (now - windowMs) requests k D) as [_ Vk].
  fold (view (cleanOld (now - windowMs) requests) identifier).
  rewrite Vi, recent_recent by lia.
  destruct (maxRequests <=? _) eqn:L; cbn [fst snd isAllowed negb andb].
  - repeat split; assumption.
  - split; [apply NoDup_set, N|]. split; [reflexivity|].
    rewrite view_set. destruct (str_eqb k identifier); [reflexivity|exact Vk].
Qed.

Hypothesis window_positive : 0 < windowMs.
Hypothesis limit_nonneg : 0 <= maxRequests.

Lemma inWindow_app (t : Z) (l l' : list Z) :
  inWindow windowMs t (l ++ l') = inWindow windowMs t l ++ inWindow windowMs t l'.
Proof. apply filter_app. Qed.

Lemma inWindow_recent (t g : Z) (l : list Z) :
  g <= t ->
  (length (inWindow windowMs t l) <= length (recent (g - windowMs) l))%nat.
Proof.
  intro H. unfold inWindow, recent.
  induction l as [|x l IH]; cbn [filter]; [lia|].
  destruct ((t - windowMs <? x) && (x <=? t)) eqn:A.
  - apply andb_true_iff in A as [A _].
    replace (g - windowMs <? x) with true by (symmetry; apply Z.ltb_lt; lia).
    cbn [length]. lia.
  - destruct (g - windowMs <? x); cbn [length]; lia.
Qed.

(** The state of a run and the grants made so far to one identifier
    stay in step: the map holds the grants of the current window. *)
Lemma run_window (identifier : str) (calls : list (Z * str)) :
  forall (requests : Requests) (last : Z) (before : list Z),
    NoDup (JsMap.keys requests) ->
    view requests identifier = recent (last - windowMs) before ->
    (forall t, Z.of_nat (length (inWindow windowMs t before)) <= maxRequests) ->
    Forall (fun c => last <= fst c) calls ->
    StronglySorted Z.le (map fst calls) ->
    forall t,
      Z.of_nat (length (inWindow windowMs t
                  (before ++
                   granted identifier calls
                     (fst (run windowMs maxRequests calls requests))))) <= maxRequests.
Proof.
  induction calls as [|[now id] calls IH]; intros requests last before D V B F S t.
  - cbn [granted run fst]. rewrite app_nil_r. apply B.
  - cbn [run].
    pose proof (@limiter_view now id requests identifier D) as L. cbn zeta in L.
    destruct (limiter windowMs maxRequests now id requests) as [d requests'].
    cbn [fst snd] in L. destruct L as (D' & A & V').
    destruct (run windowMs maxRequests calls requests') as [ds final] eqn:R.
    cbn [fst granted].
    inversion F as [|c l Fc F']; subst. cbn [fst] in Fc.
    cbn [map fst] in S. inversion S as [|x l S' Sx]; subst.
    assert (F2 : Forall (fun c => now <= fst c) calls).
    { rewrite Forall_map in Sx. exact Sx. }
    rewrite V, recent_recent in V' by lia.
    rewrite app_assoc.
    replace ds with (fst (run windowMs maxRequests calls requests')) by (rewrite R; reflexivity).
    destruct (isAllowed d && str_eqb id identifier) eqn:G.
    + apply andb_true_iff in G as [Gd Gi]. apply str_eqb_eq in Gi. subst id.
      rewrite Gd, V in A. rewrite recent_recent in A by lia.
      symmetry in A. apply negb_true_iff, Z.leb_gt in A.
      apply (IH requests' now (before ++ [now]) D').
      * rewrite str_eqb_refl, Gd in V'. cbn [andb] in V'.
        rewrite V', V, recent_recent, recent_app by lia.
        f_equal. unfold recent. cbn [filter].
        replace (now - windowMs <? now) with true by (symmetry; apply Z.ltb_lt; lia).
        reflexivity.
      * intro t'. rewrite inWindow_app, length_app.
        unfold inWindow at 2. cbn [filter].
        destruct ((t' - windowMs <? now) && (now <=? t')) eqn:W; cbn [length].
        -- apply andb_true_iff in W as [_ W]. apply Z.leb_le in W.
           pose proof (@inWindow_recent t' now before W). lia.
        -- specialize (B t'). lia.
      * exact F2.
      * exact S'.
    + rewrite app_nil_r. apply (IH requests' now before D').
      * rewrite (str_eqb_sym identifier id), G in V'. exact V'.
      * exact B.
      * exact F2.
      * exact S'.
Qed.

(** X5.  With a clock that never goes back, a positive window and a
    limit that is not negative, the limiter lets through at most
    [maxRequests] calls of one identifier in any window of [windowMs]
    milliseconds, whatever the other identifiers do. *)
Theorem limiter_window_bound (calls : list (Z * str)) (identifier : str) (t : Z) :
  StronglySorted Z.le (map fst calls) ->
  Z.of_nat (length (inWindow windowMs t
              (granted identifier calls
                 (fst (run windowMs maxRequests calls []))))) <= maxRequests.
Proof.
  intro S. destruct calls as [|[now id] calls].
  - cbn. exact limit_nonneg.
  - apply (@run_window identifier ((now, id) :: calls) [] now []).
    + constructor.
    + reflexivity.
    + intro t'. cbn. exact limit_nonneg.
    + cbn [map fst] in S. inversion S as [|x l S' Sx]; subst.
      constructor; [cbn; lia|]. rewrite Forall_map in Sx. exact Sx.
    + exact S.
Qed.

End Limiter.

Lemma limiter_window_bound_witness :
  let calls := [(0, lit "a"); (10, lit "b"); (20, lit "a"); (30, lit "a"); (60025, lit "a")] in
  Z.of_nat (length (inWindow 60000 60025
              (granted (lit "a") calls (fst (run 60000 2 calls []))))) <= 2.
Proof.
  apply (@limiter_window_bound 60000 2); [lia|lia|].
  cbn [map fst]. repeat constructor; lia.
Defined.

Example limiter_run :
  fst (run 60000 2 [(0, lit "a"); (10, lit "b"); (20, lit "a"); (30, lit "a");
                    (60025, lit "a")] []) =
  [Allowed 1; Allowed 1; Allowed 0; Denied (Some 60000); Allowed 1].
Proof. vm_compute. reflexivity. Qed.

(** The lists kept in the map never grow beyond the limit. *)
Section Bounded.

Variable windowMs : Z.
Variable maxRequests : Z.

Hypothesis limit_positive : 0 < maxRequests.

Lemma recent_length (a : Z) (l : list Z) : (length (recent a l) <= length l)%nat.
Proof. apply filter_length_le. Qed.

Lemma run_bounded (calls : list (Z * str)) :
  forall requests : Requests,
    NoDup (JsMap.keys requests) ->
    (forall k, Z.of_nat (length (view requests k)) <= maxRequests) ->
    NoDup (JsMap.keys (snd (run windowMs maxRequests calls requests))) /\
    (forall k, Z.of_nat (length (view (snd (run windowMs maxRequests calls requests)) k))
               <= maxRequests).
Proof.
  induction calls as [|[now id] calls IH]; intros requests D B; [split; assumption|].
  cbn [run].
  assert (L : forall k, _) by (intro k; exact (@limiter_view windowMs maxRequests now id requests k D)).
  cbn zeta in L.
  destruct (limiter windowMs maxRequests now id requests) as [d requests'].
  cbn [fst snd] in L.
  destruct (run windowMs maxRequests calls requests') as [ds final] eqn:R.
  cbn [snd]. replace final with (snd (run windowMs maxRequests calls requests'))
    by (rewrite R; reflexivity).
  apply IH.
  - apply (L id).
  - intro k. destruct (L k) as (_ & A & V). rewrite V.
    destruct (isAllowed d && str_eqb k id) eqn:G.
    + apply andb_true_iff in G as [Gd _]. rewrite Gd in A.
      symmetry in A. apply negb_true_iff, Z.leb_gt in A.
      rewrite length_app. cbn [length]. lia.
    + pose proof (recent_length (now - windowMs) (view requests k)).
      specialize (B k). lia.
Qed.

Lemma recent_Forall (P : Z -> Prop) (a : Z) (l : list Z) :
  Forall P l -> Forall P (recent a l).
Proof.
  intro F. unfold recent. apply Forall_forall. intros x I.
  apply filter_In in I as [I _]. rewrite Forall_forall in F. apply F, I.
Qed.

(** The times kept in the map are times of calls. *)
Lemma run_times (P : Z -> Prop) (calls : list (Z * str)) :
  Forall (fun call => P (fst call)) calls ->
  forall requests : Requests,
    NoDup (JsMap.keys requests) ->
    (forall k, Forall P (view requests k)) ->
    forall k, Forall P (view (snd (run windowMs maxRequests calls requests)) k).
Proof.
  induction 1 as [|[now id] calls Hc F IH]; intros requests D B; [exact B|].
  cbn [run].
  assert (L : forall k, _) by (intro k; exact (@limiter_view windowMs maxRequests now id requests k D)).
  cbn zeta in L.
  destruct (limiter windowMs maxRequests now id requests) as [d requests'].
  cbn [fst snd] in L.
  destruct (run windowMs maxRequests calls requests') as [ds final] eqn:R.
  cbn [snd]. replace final with (snd (run windowMs maxRequests calls requests'))
    by (rewrite R; reflexivity).
  apply IH; [apply (L id)|].
  intro k. destruct (L k) as (_ & _ & V). rewrite V.
  destruct (isAllowed d && str_eqb k id).
  - apply Forall_app. split; [apply recent_Forall, B|].
    constructor; [exact Hc|constructor].
  - apply recent_Forall, B.
Qed.

Lemma minimum_spec (l : list Z) :
  l <> [] -> exists m, minimum l = Some m /\ In m l /\ Forall (Z.le m) l.
Proof.
  induction l as [|x l IH]; [contradiction|]. intros _. cbn [minimum].
  destruct l as [|y l].
  - exists x. cbn [minimum]. repeat split; [left; reflexivity|].
    constructor; [lia|constructor].
  - destruct IH as (m & E & I & F); [discriminate|]. rewrite E.
    exists (Z.min x m). split; [reflexivity|]. split.
    + destruct (Z.min_spec x m) as [[_ ->]|[_ ->]]; [left; reflexivity|right; exact I].
    + constructor; [lia|]. eapply Forall_impl; [|exact F]. cbn beta. intros. lia.
Qed.

Lemma recent_drops (m : Z) (l : list Z) :
  In m l -> (length (recent m l) < length l)%nat.
Proof.
  induction l as [|x l IH]; [contradiction|]. intros [E|I]; unfold recent; cbn [filter].
  - subst x. rewrite Z.ltb_irrefl. cbn [length].
    pose proof (recent_length m l). unfold recent in *. lia.
  - specialize (IH I). unfold recent in IH. destruct (m <? x); cbn [length]; lia.
Qed.

Lemma recent_above (a : Z) (l : list Z) : Forall (fun x => a < x) (recent a l).
Proof.
  unfold recent. apply Forall_forall. intros x I. apply filter_In in I as [_ H].
  apply Z.ltb_lt in H. exact H.
Qed.

(** X6.  When the limiter turns a call down it names a reset time; that
    time lies in the future, at most 2^53, and the same identifier
    calling again at that time is let through.  (The limit is
    positive, the state is any state the limiter can reach, and the
    clock readings and the window are whole numbers of milliseconds
    between 0 and 2^52, for which the arithmetic of the code is
    exact.) *)
Theorem limiter_reset_time (calls : list (Z * str)) (now : Z) (identifier : str)
  (resetTime : option Z) :
  exactTime windowMs ->
  maxRequests <= 2 ^ 53 ->
  Forall (fun call => exactTime (fst call)) calls ->
  exactTime now ->
  let requests := snd (run windowMs maxRequests calls []) in
  fst (limiter windowMs maxRequests now identifier requests) = Denied resetTime ->
  exists t,
    resetTime = Some t /\ now < t <= 2 ^ 53 /\
    isAllowed (fst (limiter windowMs maxRequests t identifier
                      (snd (limiter windowMs maxRequests now identifier requests))))
    = true.
Proof.
  intros Ew _ Ec _. cbn zeta. intro Dn.
  destruct (@run_bounded calls []) as [D B]; [constructor|intro k; cbn; lia|].
  pose proof (@run_times exactTime calls Ec [] (NoDup_nil _)
                (fun k => Forall_nil _) identifier) as Ex.
  set (requests := snd (run windowMs maxRequests calls [])) in *.
  destruct (@limiter_view windowMs maxRequests now identifier requests identifier D)
    as (D' & A & V). cbn zeta in *.
  set (seen := recent (now - windowMs) (view requests identifier)) in *.
  assert (Out : limiter windowMs maxRequests now identifier requests =
                (Denied (option_map (fun oldest => oldest + windowMs) (minimum seen)),
                 cleanOld (now - windowMs) requests) /\
                maxRequests <= Z.of_nat (length seen)).
  { unfold limiter in *.
    destruct (@view_cleanOld (now - windowMs) requests identifier D) as [_ Vi].
    fold (view (cleanOld (now - windowMs) requests) identifier) in *.
    rewrite Vi, recent_recent in * by lia. fold seen in Dn |- *.
    destruct (maxRequests <=? Z.of_nat (length seen)) eqn:L; [|discriminate Dn].
    split; [reflexivity|]. apply Z.leb_le. exact L. }
  destruct Out as [Out Full]. rewrite Out in Dn, V, D' |- *. cbn [fst snd] in *.
  injection Dn as <-.
  assert (Ne : seen <> []).
  { intro E. rewrite E in Full. cbn in Full. lia. }
  destruct (@minimum_spec seen Ne) as (m & E & I & F). rewrite E. cbn [option_map].
  exists (m + windowMs). split; [reflexivity|].
  pose proof (recent_above (now - windowMs) (view requests identifier)) as Ab.
  fold seen in Ab. rewrite Forall_forall in Ab. specialize (Ab m I).
  assert (Em : exactTime m).
  { apply (recent_Forall (now - windowMs)) in Ex. fold requests seen in Ex.
    rewrite Forall_forall in Ex. apply Ex, I. }
  unfold exactTime in Em, Ew.
  split; [change (2 ^ 53) with (2 ^ 52 + 2 ^ 52); lia|].
  destruct (@limiter_view windowMs maxRequests (m + windowMs) identifier
              (cleanOld (now - windowMs) requests) identifier D') as (_ & A2 & _).
  cbn zeta in A2. rewrite A2. cbn [isAllowed andb negb] in V. rewrite V.
  replace (m + windowMs - windowMs) with m by lia.
  apply negb_true_iff, Z.leb_gt.
  pose proof (@recent_drops m seen I) as Dr.
  assert (Le : Z.of_nat (length seen) <= maxRequests).
  { pose proof (recent_length (now - windowMs) (view requests identifier)).
    fold seen in H. specialize (B identifier). fold requests in B. lia. }
  lia.
Qed.

End Bounded.

Lemma limiter_reset_time_witness :
  exists t,
    Some 60000 = Some t /\ 30 < t <= 2 ^ 53 /\
    isAllowed (fst (limiter 60000 2 t (lit "a")
                      (snd (limiter 60000 2 30 (lit "a")
                              (snd (run 60000 2 [(0, lit "a"); (20, lit "a")] []))))))
    = true.
Proof.
  apply (@limiter_reset_time 60000 2 eq_refl [(0, lit "a"); (20, lit "a")] 30 (lit "a")
           (Some 60000)).
  - unfold exactTime. lia.
  - lia.
  - repeat constructor; cbn; lia.
  - unfold exactTime. lia.
  - vm_compute. reflexivity.
Defined.

Close Scope Z_scope.

End RateLimiterFacts.

(** ** [CSRFTokenManager] ([utils/security.js]) *)

Module CSRFFacts.

Import CSRF Terms PostFacts MapFacts.

Open Scope Z_scope.

(** The loop of [cleanExpiredTokens], started on any map. *)
Lemma cleanExpired_get (now : Z) (es : Tokens) :
  NoDup (JsMap.keys es) ->
  forall (acc : Tokens) (k : str),
    NoDup (JsMap.keys acc) ->
    let out :=
      fold_left (fun tokens entry =>
                   if expiresAt (snd entry) <? now
                   then JsMap.delete (fst entry) tokens else tokens) es acc in
    NoDup (JsMap.keys out) /\
    JsMap.get k out =
    match JsMap.get k es with
    | Some tokenData => if expiresAt tokenData <? now then None else JsMap.get k acc
    | None => JsMap.get k acc
    end.
Proof.
  induction es as [|[k0 v0] es IH]; cbn [JsMap.keys map fst]; intros D acc k Da; cbn zeta.
  - split; [exact Da|reflexivity].
  - inversion D as [|x l Nin D']; subst. cbn [fold_left JsMap.get fst snd].
    set (acc' := if expiresAt v0 <? now then JsMap.delete k0 acc else acc).
    assert (Da' : NoDup (JsMap.keys acc')).
    { subst acc'. destruct (expiresAt v0 <? now); [apply NoDup_delete|]; exact Da. }
    destruct (IH D' acc' k Da') as [N G]. cbn zeta in N, G.
    split; [exact N|]. rewrite G.
    destruct (str_eqb k k0) eqn:E.
    + apply str_eqb_eq in E. subst k0. rewrite (get_None_keys k es Nin).
      subst acc'. destruct (expiresAt v0 <? now); [|reflexivity].
      apply get_delete_same, Da.
    + assert (Nk : k <> k0) by (intro X; subst k0; rewrite str_eqb_refl in E; discriminate E).
      assert (Ga : JsMap.get k acc' = JsMap.get k acc).
      { subst acc'. destruct (expiresAt v0 <? now); [|reflexivity].
        apply get_delete_other, Nk. }
      rewrite Ga. reflexivity.
Qed.

Lemma cleanExpiredTokens_get (now : Z) (tokens : Tokens) (k : str) :
  NoDup (JsMap.keys tokens) ->
  NoDup (JsMap.keys (cleanExpiredTokens now tokens)) /\
  JsMap.get k (cleanExpiredTokens now tokens) =
  match JsMap.get k tokens with
  | Some tokenData => if expiresAt tokenData <? now then None else Some tokenData
  | None => None
  end.
Proof.
  intro D. destruct (@cleanExpired_get now tokens D tokens k D) as [N G].
  cbn zeta in N, G. split; [exact N|]. unfold cleanExpiredTokens. rewrite G.
  destruct (JsMap.get k tokens) as [td|]; reflexivity.
Qed.

(** What [generateToken] leaves in the map. *)
Lemma generateToken_get (bytes : nat -> nat) (now later : Z) (sessionId : str)
  (tokens : Tokens) (k : str) :
  NoDup (JsMap.keys tokens) ->
  let out := generateToken bytes now later sessionId tokens in
  fst out = generateRandomToken bytes /\
  NoDup (JsMap.keys (snd out)) /\
  JsMap.get k (snd out) =
  if str_eqb k sessionId then
    if now + tokenExpiry <? later then None
    else Some (mkTokenData (generateRandomToken bytes) (now + tokenExpiry))
  else
    match JsMap.get k tokens with
    | Some tokenData => if expiresAt tokenData <? later then None else Some tokenData
    | None => None
    end.
Proof.
  intro D. cbn zeta. unfold generateToken. cbn [fst snd].
  set (new := mkTokenData (generateRandomToken bytes) (now + tokenExpiry)).
  assert (D1 : NoDup (JsMap.keys (JsMap.set sessionId new tokens))) by (apply NoDup_set, D).
  destruct (@cleanExpiredTokens_get later (JsMap.set sessionId new tokens) k D1) as [N G].
  split; [reflexivity|]. split; [exact N|]. rewrite G.
  destruct (str_eqb k sessionId) eqn:E.
  - apply str_eqb_eq in E. subst k. rewrite get_set_same. reflexivity.
  - rewrite get_set_other; [reflexivity|].
    intro X. subst k. rewrite str_eqb_refl in E. discriminate E.
Qed.

(** X7.  While the token of a session has not expired, that is for 24
    hours on the clock, [validateToken] accepts exactly the token that
    [generateToken] returned for the session, and leaves the store as
    it is. *)
Theorem token_round_trip (bytes : nat -> nat) (now later when : Z) (sessionId tok : str)
  (tokens : Tokens) :
  NoDup (JsMap.keys tokens) ->
  later <= now + tokenExpiry ->
  when <= now + tokenExpiry ->
  let issued := fst (generateToken bytes now later sessionId tokens) in
  let tokens' := snd (generateToken bytes now later sessionId tokens) in
  validateToken when sessionId tok tokens' = (str_eqb issued tok, tokens').
Proof.
  intros D L A. cbn zeta.
  destruct (@generateToken_get bytes now later sessionId tokens sessionId D) as (I & _ & G).
  cbn zeta in I, G. rewrite str_eqb_refl in G.
  replace (now + tokenExpiry <? later) with false in G by (symmetry; apply Z.ltb_ge; lia).
  unfold validateToken. rewrite G. cbn [expiresAt token].
  replace (now + tokenExpiry <? when) with false by (symmetry; apply Z.ltb_ge; lia).
  rewrite I. reflexivity.
Qed.

Lemma token_round_trip_witness :
  let issued := fst (generateToken (fun i => i) 1000 1001 (lit "s1") []) in
  let tokens' := snd (generateToken (fun i => i) 1000 1001 (lit "s1") []) in
  validateToken 5000 (lit "s1") issued tokens' = (str_eqb issued issued, tokens').
Proof.
  apply (@token_round_trip (fun i => i) 1000 1001 5000 (lit "s1")
           (fst (generateToken (fun i => i) 1000 1001 (lit "s1") [])) []).
  - constructor.
  - vm_compute. discriminate.
  - vm_compute. discriminate.
Defined.

(** X8.  Once the 24 hours are over, [validateToken] refuses every
    token of the session, the issued one included, and the session has
    no entry in the store afterwards. *)
Theorem token_expires (bytes : nat -> nat) (now later when : Z) (sessionId tok : str)
  (tokens : Tokens) :
  NoDup (JsMap.keys tokens) ->
  now + tokenExpiry < when ->
  let tokens' := snd (generateToken bytes now later sessionId tokens) in
  fst (validateToken when sessionId tok tokens') = false /\
  JsMap.get sessionId (snd (validateToken when sessionId tok tokens')) = None.
Proof.
  intros D A. cbn zeta.
  destruct (@generateToken_get bytes now later sessionId tokens sessionId D) as (_ & N & G).
  cbn zeta in N, G. rewrite str_eqb_refl in G.
  unfold validateToken. rewrite G.
  destruct (now + tokenExpiry <? later).
  - cbn [fst snd]. split; [reflexivity|exact G].
  - cbn [expiresAt].
    replace (now + tokenExpiry <? when) with true by (symmetry; apply Z.ltb_lt; lia).
    cbn [fst snd]. split; [reflexivity|]. apply get_delete_same, N.
Qed.

Lemma token_expires_witness :
  let tokens' := snd (generateToken (fun i => i) 1000 1001 (lit "s1") []) in
  fst (validateToken 86401001 (lit "s1") (lit "00") tokens') = false /\
  JsMap.get (lit "s1") (snd (validateToken 86401001 (lit "s1") (lit "00") tokens')) = None.
Proof.
  apply (@token_expires (fun i => i) 1000 1001 86401001 (lit "s1") (lit "00") []).
  - constructor.
  - vm_compute. reflexivity.
Defined.

(** X9.  Issuing a token for one session leaves the tokens of the other
    sessions as they were: one that has not expired is still accepted,
    and still refused when compared with anything else. *)
Theorem token_isolation (bytes : nat -> nat) (now later when : Z)
  (sessionId other tok : str) (tokens : Tokens) (tokenData : TokenData) :
  NoDup (JsMap.keys tokens) ->
  other <> sessionId ->
  JsMap.get other tokens = Some tokenData ->
  later <= expiresAt tokenData ->
  when <= expiresAt tokenData ->
  let tokens' := snd (generateToken bytes now later sessionId tokens) in
  validateToken when other tok tokens' = (str_eqb (token tokenData) tok, tokens').
Proof.
  intros D Ne G0 L A. cbn zeta.
  destruct (@generateToken_get bytes now later sessionId tokens other D) as (_ & _ & G).
  cbn zeta in G. rewrite (str_eqb_neq Ne), G0 in G.
  replace (expiresAt tokenData <? later) with false in G by (symmetry; apply Z.ltb_ge; lia).
  unfold validateToken. rewrite G.
  replace (expiresAt tokenData <? when) with false by (symmetry; apply Z.ltb_ge; lia).
  reflexivity.
Qed.

Lemma token_isolation_witness :
  let tokens := [(lit "s2", mkTokenData (lit "abc") 90000000)] in
  let tokens' := snd (generateToken (fun i => i) 1000 1001 (lit "s1") tokens) in
  validateToken 5000 (lit "s2") (lit "abc") tokens' =
  (str_eqb (lit "abc") (lit "abc"), tokens').
Proof.
  apply (@token_isolation (fun i => i) 1000 1001 5000 (lit "s1") (lit "s2") (lit "abc")
           [(lit "s2", mkTokenData (lit "abc") 90000000)]
           (mkTokenData (lit "abc") 90000000)).
  - repeat constructor. intros [].
  - discriminate.
  - reflexivity.
  - vm_compute. discriminate.
  - vm_compute. discriminate.
Defined.

(** The two hexadecimal digits of a byte. *)
Lemma byte_hex :
  forallb (fun n => let h := padStart 2 "0" (toString16 n) in
                    (length h =? 2)%nat && forallb hexDigit h) (seq 0 256) = true.
Proof. vm_compute. reflexivity. Qed.

Lemma byte_hex_at (n : nat) :
  length (padStart 2 "0" (toString16 (n mod 256))) = 2%nat /\
  Forall (fun c => hexDigit c = true) (padStart 2 "0" (toString16 (n mod 256))).
Proof.
  pose proof byte_hex as H. rewrite forallb_forall in H.
  specialize (H (n mod 256)%nat). cbn zeta in H.
  assert (I : In (n mod 256)%nat (seq 0 256)).
  { apply in_seq. pose proof (Nat.mod_upper_bound n 256). lia. }
  apply H in I. apply andb_true_iff in I as [L F].
  split; [apply Nat.eqb_eq, L|]. apply Forall_forall. rewrite forallb_forall in F. exact F.
Qed.

(** X10.  A token is made of 64 characters, all of them digits or
    letters from a to f in lower case, whatever the random bytes. *)
Theorem generateRandomToken_format (bytes : nat -> nat) :
  length (generateRandomToken bytes) = 64%nat /\
  Forall (fun c => hexDigit c = true) (generateRandomToken bytes).
Proof.
  unfold generateRandomToken.
  assert (G : forall l : list nat,
             length (concat (map (fun i => padStart 2 "0" (toString16 (bytes i mod 256))) l))
             = (2 * length l)%nat /\
             Forall (fun c => hexDigit c = true)
               (concat (map (fun i => padStart 2 "0" (toString16 (bytes i mod 256))) l))).
  { induction l as [|i l [IHl IHf]]; [split; [reflexivity|constructor]|].
    cbn [map concat]. destruct (byte_hex_at (bytes i)) as [L F].
    split; [rewrite length_app, L, IHl; cbn [length]; lia|].
    apply Forall_app. split; assumption. }
  destruct (G (seq 0 32)) as [L F]. split; [|exact F].
  rewrite L, length_seq. reflexivity.
Qed.

Close Scope Z_scope.

End CSRFFacts.

(** ** The length of a slug ([utils/slug-sanitizer.js]) *)

Module SlugLengthFacts.

Import Slug Notions Terms.

Lemma truncateSlug_length (slug : str) (config : SlugConfig) :
  length (truncateSlug slug config) <= maxLength config.
Proof.
  unfold truncateSlug, substring0.
  destruct (maxLength config <? length slug) eqn:L.
  - apply Nat.ltb_lt in L.
    destruct (lastIndexOf "-" (firstn (maxLength config) slug)) as [lastDash|].
    + destruct (beyond70 lastDash (maxLength config));
        rewrite ?firstn_firstn, length_firstn; lia.
    + rewrite length_firstn. lia.
  - apply Nat.ltb_ge in L. exact L.
Qed.

Lemma generateRandomString_length (n : nat) (rnd : Rand) :
  length (generateRandomString n rnd) = n.
Proof. unfold generateRandomString. rewrite length_map, length_seq. reflexivity. Qed.

Lemma generateSlug_bounds (text : str) (config : SlugConfig) (rnd : Rand) :
  blank text = false ->
  exists slug,
    generateSlug text config rnd = Ok slug /\
    3 <= length slug <= Nat.max (maxLength config) 11.
Proof.
  intro B. unfold generateSlug. rewrite B.
  pose proof (truncateSlug_length (normalizeText text config) config) as T.
  destruct (length (truncateSlug (normalizeText text config) config) <? 3) eqn:L.
  - eexists. split; [reflexivity|].
    rewrite length_app, generateRandomString_length. cbn [length lit list_ascii_of_string].
    lia.
  - apply Nat.ltb_ge in L. eexists. split; [reflexivity|]. lia.
Qed.

(** The comparison [lastDash > maxLength * 0.7] at the limits the code
    base uses, where the product is exact, and at 90, where it is
    rounded to 62.99999999999999. *)
Lemma beyond70_60 (lastDash : nat) : beyond70 lastDash 60 = (42 <? lastDash).
Proof.
  unfold beyond70.
  replace (roundDouble (N.of_nat 60 * point7)) with (N.of_nat 42 * 2 ^ 53)%N
    by (vm_compute; reflexivity).
  destruct (Nat.ltb_spec 42 lastDash) as [H|H];
    [apply N.ltb_lt|apply N.ltb_ge]; change (2 ^ 53)%N with 9007199254740992%N; lia.
Qed.

Lemma beyond70_80 (lastDash : nat) : beyond70 lastDash 80 = (56 <? lastDash).
Proof.
  unfold beyond70.
  replace (roundDouble (N.of_nat 80 * point7)) with (N.of_nat 56 * 2 ^ 53)%N
    by (vm_compute; reflexivity).
  destruct (Nat.ltb_spec 56 lastDash) as [H|H];
    [apply N.ltb_lt|apply N.ltb_ge]; change (2 ^ 53)%N with 9007199254740992%N; lia.
Qed.

Example beyond70_90 : beyond70 63 90 = true /\ 7 * 90 = 10 * 63.
Proof. vm_compute. split; reflexivity. Qed.

(** X11.  For a text that is not empty and options without custom
    replacements, whatever the limit and the three switches,
    [generateSlug] returns a slug of at least 3 characters and of at
    most [maxLength] characters, or 11 when [maxLength] is smaller
    than that: the fallback post-<random6> has 11 characters whatever
    the limit. *)
Theorem generateSlug_length (text : str) (limit : nat) (lower strip unicode : bool)
  (rnd : Rand) :
  blank text = false ->
  exists slug,
    generateSlug text (mkSlugConfig limit lower strip unicode []) rnd = Ok slug /\
    3 <= length slug <= Nat.max limit 11.
Proof. intro B. apply generateSlug_bounds. exact B. Qed.

Lemma generateSlug_length_witness :
  exists slug,
    generateSlug (lit "Hello, World!") (mkSlugConfig 5 true true false []) (fun _ => 0)
      = Ok slug /\
    3 <= length slug <= Nat.max 5 11.
Proof.
  apply (@generateSlug_length (lit "Hello, World!") 5 true true false (fun _ => 0)).
  reflexivity.
Defined.

Example generateSlug_at_90 :
  generateSlug (repeat "a"%char 63 ++ lit "-" ++ repeat "b"%char 40)
               (mkSlugConfig 90 true true false []) (fun _ => 0)
  = Ok (repeat "a"%char 63).
Proof. vm_compute. reflexivity. Qed.

(** X12.  [cleanUserSlug] never throws: the empty input gives the empty
    slug, and any other input a slug of 3 to 80 characters. *)
Theorem cleanUserSlug_length (userInput : str) (rnd : Rand) :
  exists slug,
    cleanUserSlug userInput rnd = Ok slug /\
    if blank userInput then slug = [] else 3 <= length slug <= 80.
Proof.
  unfold cleanUserSlug. destruct (blank userInput) eqn:B.
  - exists []. split; reflexivity.
  - match goal with
    | |- context [generateSlug userInput ?cfg rnd] =>
        destruct (@generateSlug_bounds userInput cfg rnd B) as (slug & E & L)
    end.
    exists slug. split; [exact E|]. cbn [maxLength] in L. lia.
Qed.

End SlugLengthFacts.

(** ** [generateSlug] on a slug that is already valid *)

Module SlugFixpointFacts.

Import Slug Notions Terms RegexFacts ClassFacts MatcherFacts SlugFacts SlugLengthFacts.

Lemma replace_go_NoMatch (r : re) (f : Match -> str) (s : str) :
  forall pv, NoMatch r pv s -> replace_go r f pv s 0 = s.
Proof.
  induction s as [|c t IH]; intros pv [E N]; cbn [replace_go]; rewrite E; [reflexivity|].
  rewrite IH by exact N. reflexivity.
Qed.

Lemma exec_at_Alt (a b : re) (pv : option ascii) (s : str) :
  exec_at (Alt a b) pv s =
  match exec_at a pv s with Some x => Some x | None => exec_at b pv s end.
Proof.
  unfold exec_at. cbn [m].
  destruct (m a (mkM pv s 0 []) (fun st' => Some st')); reflexivity.
Qed.

(** Facts on single characters, by enumeration. *)
Lemma allowed_chars (c : ascii) :
  isSlugAllowed c = true ->
  (code c <=? 126) = true /\
  isSlugChar (lowerChar c) = true /\
  (isSpace (lowerChar c) || eqc "_" (lowerChar c)) = false /\
  eqc "<" c = false /\
  eqc "-" (lowerChar c) = eqc "-" c /\
  isAlnum (lowerChar c) = isAlnum c /\
  isSlugAllowed (lowerChar c) = true.
Proof.
  destruct c as [[] [] [] [] [] [] [] []]; vm_compute; intro H;
    first [discriminate H | repeat split].
Qed.

Lemma alnum_not_dashdot (c : ascii) : isAlnum c = true -> isDashDot c = false.
Proof.
  destruct c as [[] [] [] [] [] [] [] []]; vm_compute; intro H;
    first [discriminate H | reflexivity].
Qed.

Lemma flat_map_id (p : ascii -> bool) (f : ascii -> str) (s : str) :
  Forall (fun c => p c = false) s ->
  flat_map (fun c => if p c then f c else [c]) s = s.
Proof.
  induction 1 as [|c t Hc _ IH]; cbn [flat_map]; [reflexivity|].
  rewrite Hc, IH. reflexivity.
Qed.

Lemma collapse_id (d : ascii) (s : str) :
  hasDouble d s = false ->
  collapse_go (eqc d) [d] false s = s /\
  (headIs (eqc d) s = false -> collapse_go (eqc d) [d] true s = s).
Proof.
  induction s as [|c t IH]; intro H; [split; reflexivity|].
  rewrite hasDouble_cons in H. apply orb_false_iff in H as [H1 H2].
  destruct (IH H2) as [I0 I1]. cbn [collapse_go headIs].
  destruct (eqc d c) eqn:E.
  - cbn [andb] in H1. rewrite (I1 H1).
    unfold eqc in E. apply Ascii.eqb_eq in E. subst c.
    split; [reflexivity|discriminate].
  - rewrite I0. split; [reflexivity|reflexivity].
Qed.

Lemma lastIs_forallb (p q : ascii -> bool) (s : str) :
  (forall c, q c = true -> p c = false) ->
  lastIs q s = true -> forallb p s = false.
Proof.
  intro Hpq. induction s as [|c t IH]; [discriminate|]. cbn [lastIs forallb].
  destruct t as [|d t].
  - intro L. rewrite (Hpq c L). reflexivity.
  - intro L. rewrite (IH L). apply andb_false_r.
Qed.

Lemma trimEnd_id (q : ascii -> bool) (s : str) :
  lastIs q s = true -> trimEnd (notb q) s = s.
Proof.
  induction s as [|c t IH]; [discriminate|]. intro L. cbn [trimEnd].
  rewrite (@lastIs_forallb (notb q) q (c :: t)); [|intros x H; unfold notb; rewrite H; reflexivity|exact L].
  destruct t as [|d t]; [reflexivity|]. rewrite IH; [reflexivity|exact L].
Qed.

Lemma dropWhile_id (q : ascii -> bool) (s : str) :
  headIs q s = true -> dropWhile (notb q) s = s.
Proof.
  destruct s as [|c t]; [discriminate|]. cbn [headIs dropWhile]. unfold notb.
  intros ->. reflexivity.
Qed.

Lemma replace_all_chr_id (p : ascii -> bool) (f : Match -> str) (s : str) :
  Forall (fun c => p c = false) s -> replace_all (Chr p) f s = s.
Proof.
  intro F. unfold replace_all. rewrite replace_go_chr. apply flat_map_id, F.
Qed.

Lemma stripDiacritics_id (s : str) :
  Forall (fun c => (code c <=? 126) = true) s -> stripDiacritics s = s.
Proof.
  intro F. unfold stripDiacritics. apply replace_all_chr_id.
  eapply Forall_impl; [|exact F]. cbn beta. intros c Hc. rewrite Hc. reflexivity.
Qed.

(** The trimming of hyphens and dots at both ends finds nothing in a
    string that begins and ends with a letter or a digit. *)

Lemma trim_dashdot_inner (s : str) :
  forall x, (s = [] \/ lastIs isAlnum s = true) -> NoMatch re_trim_dashdot (Some x) s.
Proof.
  induction s as [|c t IH]; intros x L.
  - split; [reflexivity|exact I].
  - destruct L as [L|L]; [discriminate L|].
    split.
    + unfold re_trim_dashdot. rewrite exec_at_Alt, exec_at_bos_some, exec_at_plus_eos.
      rewrite (@lastIs_forallb isDashDot isAlnum (c :: t) alnum_not_dashdot L).
      rewrite andb_false_r. reflexivity.
    + apply IH. destruct t as [|d t]; [left; reflexivity|right; exact L].
Qed.

Lemma trim_dashdot_id (s : str) :
  headIs isAlnum s = true -> lastIs isAlnum s = true ->
  replace_all re_trim_dashdot (const_ []) s = s.
Proof.
  intros H L. unfold replace_all. apply replace_go_NoMatch.
  destruct s as [|c t]; [discriminate H|]. split.
  - unfold re_trim_dashdot. rewrite exec_at_Alt, exec_at_bos_none, exec_at_plus, exec_at_plus_eos.
    cbn [spanLen headIs] in *. rewrite (alnum_not_dashdot _ H).
    rewrite (@lastIs_forallb isDashDot isAlnum (c :: t) alnum_not_dashdot L).
    rewrite andb_false_r. reflexivity.
  - apply trim_dashdot_inner. destruct t as [|d t]; [left; reflexivity|right; exact L].
Qed.

(** What [validateSlug] has checked when it accepts. *)
Lemma validateSlug_valid (slug : str) :
  isValid (validateSlug slug) = true ->
  3 <= length slug <= 80 /\
  forallb isSlugAllowed slug = true /\
  headIs isAlnum slug = true /\
  lastIs isAlnum slug = true /\
  hasDouble "-" slug = false /\
  isReservedSlug slug = false.
Proof.
  unfold validateSlug. destruct slug as [|c t]; [discriminate|]. cbn [blank isValid].
  rewrite test_anchored_class, test_head, test_last, test_double.
  cbn [blank negb andb].
  intro H. apply Nat.eqb_eq in H. rewrite !length_app in H.
  unfold check in H.
  destruct (length (c :: t) <? 3) eqn:L3; [cbn [length] in H; lia|].
  destruct (80 <? length (c :: t)) eqn:L80; [cbn [length] in H; lia|].
  destruct (forallb isSlugAllowed (c :: t)) eqn:A; [|cbn [length negb] in H; lia].
  destruct (headIs isAlnum (c :: t)) eqn:Hd; [|cbn [length negb] in H; lia].
  destruct (lastIs isAlnum (c :: t)) eqn:Lt; [|cbn [length negb] in H; lia].
  destruct (hasDouble "-" (c :: t)) eqn:Db; [cbn [length negb] in H; lia|].
  destruct (isReservedSlug (c :: t)) eqn:R; [cbn [length negb] in H; lia|].
  apply Nat.ltb_ge in L3, L80. repeat split; lia.
Qed.

Lemma headIs_map (s : str) :
  headIs isAlnum s = true -> Forall (fun c => isSlugAllowed c = true) s ->
  headIs isAlnum (toLowerCase s) = true.
Proof.
  destruct s as [|c t]; [discriminate|]. cbn [headIs toLowerCase map]. intros H F.
  inversion F; subst. destruct (allowed_chars c) as (_ & _ & _ & _ & _ & A & _);
    [assumption|]. rewrite A. exact H.
Qed.

Lemma lastIs_map (s : str) :
  Forall (fun c => isSlugAllowed c = true) s ->
  lastIs isAlnum s = true -> lastIs isAlnum (toLowerCase s) = true.
Proof.
  induction 1 as [|c t Hc Ht IH]; [discriminate|]. cbn [toLowerCase map lastIs].
  destruct t as [|d t]; cbn [map].
  - destruct (allowed_chars c Hc) as (_ & _ & _ & _ & _ & A & _). rewrite A. tauto.
  - exact IH.
Qed.

Lemma hasDouble_map (s : str) :
  Forall (fun c => isSlugAllowed c = true) s ->
  hasDouble "-" (toLowerCase s) = hasDouble "-" s.
Proof.
  induction 1 as [|c t Hc Ht IH]; [reflexivity|].
  unfold toLowerCase in *. cbn [map]. rewrite !hasDouble_cons, IH.
  destruct (allowed_chars c Hc) as (_ & _ & _ & _ & D & _). rewrite D.
  destruct Ht as [|d t Hd Ht]; [reflexivity|]. cbn [map headIs].
  destruct (allowed_chars d Hd) as (_ & _ & _ & _ & D' & _). rewrite D'. reflexivity.
Qed.

(** The normalization leaves the lower-case form of a valid slug as it
    is. *)
Lemma normalizeText_valid (slug : str) :
  isValid (validateSlug slug) = true ->
  normalizeText slug defaultConfig = toLowerCase slug.
Proof.
  intro V. destruct (validateSlug_valid slug V) as (_ & A & H & L & D & _).
  assert (F : Forall (fun c => isSlugAllowed c = true) slug).
  { apply Forall_forall. rewrite forallb_forall in A. exact A. }
  unfold normalizeText.
  cbn [customReplacements stripDiacriticsOpt lowercase allowUnicode defaultConfig fold_left].
  (* tags *)
  rewrite (@replace_all_Starts (fun c => c = "<"%char) _ _ slug).
  2:{ cbn [Seqs]. apply Starts_Seq, Starts_Chr. intros c E. unfold eqc in E.
      apply Ascii.eqb_eq in E. exact E. }
  2:{ eapply Forall_impl; [|exact F]. cbn beta. intros c Hc E. subst c. discriminate Hc. }
  (* diacritics *)
  rewrite stripDiacritics_id.
  2:{ eapply Forall_impl; [|exact F]. cbn beta. intros c Hc.
      apply (allowed_chars c Hc). }
  set (low := toLowerCase slug).
  assert (Fl : Forall (fun c => isSlugAllowed c = true) low).
  { subst low. unfold toLowerCase. apply Forall_map.
    eapply Forall_impl; [|exact F]. cbn beta. intros c Hc. apply (allowed_chars c Hc). }
  assert (Fs : Forall (fun c => isSlugChar c = true) low).
  { subst low. unfold toLowerCase. apply Forall_map.
    eapply Forall_impl; [|exact F]. cbn beta. intros c Hc. apply (allowed_chars c Hc). }
  assert (Fw : Forall (fun c => ~ (isSpace c || eqc "_" c) = true) low).
  { subst low. unfold toLowerCase. apply Forall_map.
    eapply Forall_impl; [|exact F]. cbn beta. intros c Hc.
    destruct (allowed_chars c Hc) as (_ & _ & W & _). rewrite W. discriminate. }
  assert (Hl : headIs isAlnum low = true) by (apply headIs_map; assumption).
  assert (Ll : lastIs isAlnum low = true) by (apply lastIs_map; assumption).
  assert (Dl : hasDouble "-" low = false) by (subst low; rewrite hasDouble_map; assumption).
  clearbody low.
  (* whitespace and underscores *)
  rewrite (@replace_all_Starts (fun c => (isSpace c || eqc "_" c) = true) _ _ low).
  2:{ unfold Plus. apply Starts_Seq, Starts_Chr. intros c E. exact E. }
  2:{ exact Fw. }
  (* runs of hyphens *)
  rewrite !replace_all_plus. unfold collapse.
  change (lit "-") with ["-"%char]. rewrite (proj1 (collapse_id "-" low Dl)).
  (* other characters *)
  rewrite (@replace_all_chr_id (notb isSlugChar) _ low).
  2:{ eapply Forall_impl; [|exact Fs]. cbn beta. intros c Hc. unfold notb.
      rewrite Hc. reflexivity. }
  (* both ends *)
  fold re_trim_dashdot. rewrite (trim_dashdot_id low Hl Ll).
  rewrite (proj1 (collapse_id "-" low Dl)).
  rewrite replace_first_trim_start, (dropWhile_id isAlnum low Hl).
  rewrite replace_first_trim_end, (trimEnd_id isAlnum low Ll).
  reflexivity.
Qed.

(** X13.  A slug that [validateSlug] accepts comes out of
    [generateSlug], with the default configuration, unchanged but for
    its capital letters, which are turned into small ones. *)
Theorem generateSlug_of_valid (slug : str) (rnd : Rand) :
  isValid (validateSlug slug) = true ->
  generateSlug slug defaultConfig rnd = Ok (toLowerCase slug).
Proof.
  intro V. destruct (validateSlug_valid slug V) as (Len & _).
  unfold generateSlug. destruct slug as [|c t]; [cbn [length] in Len; lia|].
  cbn [blank]. rewrite (normalizeText_valid (c :: t) V).
  assert (Ll : length (toLowerCase (c :: t)) = length (c :: t))
    by (unfold toLowerCase; apply length_map).
  unfold truncateSlug. cbn [maxLength defaultConfig].
  replace (80 <? length (toLowerCase (c :: t))) with false
    by (symmetry; apply Nat.ltb_ge; lia).
  replace (length (toLowerCase (c :: t)) <? 3) with false
    by (symmetry; apply Nat.ltb_ge; lia).
  reflexivity.
Qed.

Lemma generateSlug_of_valid_witness :
  generateSlug (lit "My-Post.v2") defaultConfig (fun _ => 0)
  = Ok (toLowerCase (lit "My-Post.v2")).
Proof.
  apply (@generateSlug_of_valid (lit "My-Post.v2") (fun _ => 0)).
  vm_compute. reflexivity.
Defined.

End SlugFixpointFacts.

(** ** [extractSlugFromHTML] ([utils/slug-sanitizer.js]) *)

Module SlugExtractFacts.

Import Slug SlugTools Notions Terms ClassFacts SlugFacts SlugLengthFacts.

Lemma titleToSlug_bounds (title : str) (rnd : Rand) :
  blank title = false ->
  exists slug, titleToSlug title rnd = Ok slug /\ 3 <= length slug <= 60.
Proof.
  intro B. unfold titleToSlug.
  match goal with
  | |- context [generateSlug title ?cfg rnd] =>
      destruct (@generateSlug_bounds title cfg rnd B) as (slug & E & L)
  end.
  exists slug. split; [exact E|]. cbn [maxLength] in L. lia.
Qed.

Lemma dropWhile_first (p : ascii -> bool) (s : str) (c : ascii) (t : str) :
  dropWhile p s = c :: t -> p c = false.
Proof.
  induction s as [|x s IH]; [discriminate|]. cbn [dropWhile].
  destruct (p x) eqn:E; [exact IH|]. intro H. injection H as -> _. exact E.
Qed.

Lemma dropWhileEnd_prefix (p : ascii -> bool) (s : str) :
  exists k, dropWhileEnd p s = firstn k s.
Proof.
  unfold dropWhileEnd. rewrite dropWhile_skipn, skipn_rev, rev_involutive.
  eexists. reflexivity.
Qed.

(** A trimmed string does not begin with white space. *)
Lemma trim_first (s : str) (c : ascii) (t : str) :
  trim s = c :: t -> isSpace c = false.
Proof.
  unfold trim. destruct (dropWhileEnd_prefix isSpace (dropWhile isSpace s)) as [k K].
  rewrite K. destruct (dropWhile isSpace s) as [|x r] eqn:D.
  - rewrite firstn_nil. discriminate.
  - destruct k; [discriminate|]. cbn [firstn]. intro H. injection H as <- _.
    apply (dropWhile_first isSpace s D).
Qed.

Lemma splitChar_go_first (sep : ascii) (s : str) :
  forall cur, cur <> [] ->
    exists x xs, Security.splitChar_go sep s cur = x :: xs /\ x <> [].
Proof.
  induction s as [|c t IH]; intros cur N; cbn [Security.splitChar_go].
  - eexists. eexists. split; [reflexivity|].
    intro E. apply N. apply (f_equal (@rev ascii)) in E.
    rewrite rev_involutive in E. exact E.
  - destruct (c =? sep)%char.
    + eexists. eexists. split; [reflexivity|].
      intro E. apply N. apply (f_equal (@rev ascii)) in E.
      rewrite rev_involutive in E. exact E.
    + apply IH. discriminate.
Qed.

Lemma firstWords_not_blank (c : ascii) (t : str) :
  isSpace c = false ->
  blank (joinWith (lit " ") (firstn 5 (Security.splitChar " " (c :: t)))) = false.
Proof.
  intro S. unfold Security.splitChar. cbn [Security.splitChar_go].
  replace (c =? " ")%char with false.
  - destruct (@splitChar_go_first " " t [c]) as (x & xs & E & N); [discriminate|].
    rewrite E. destruct x as [|a x]; [contradiction|].
    change (firstn 5 ((a :: x) :: xs)) with ((a :: x) :: firstn 4 xs).
    generalize (firstn 4 xs) as others. intros [|y others]; reflexivity.
  - symmetry. apply Ascii.eqb_neq. intro E. subst c. discriminate S.
Qed.

(** X14.  [extractSlugFromHTML] never throws; what it returns is
    either empty or a slug of 3 to 60 characters. *)
Theorem extractSlugFromHTML_total (htmlContent : str) (rnd : Rand) :
  exists slug,
    extractSlugFromHTML htmlContent rnd = Ok slug /\
    (slug = [] \/ 3 <= length slug <= 60).
Proof.
  unfold extractSlugFromHTML.
  destruct (blank htmlContent); [exists []; split; [reflexivity|left; reflexivity]|].
  assert (T : forall title, blank title = false ->
              exists slug, titleToSlug title rnd = Ok slug /\
                           (slug = [] \/ 3 <= length slug <= 60)).
  { intros title B. destruct (titleToSlug_bounds title rnd B) as (slug & E & L).
    exists slug. split; [exact E|right; exact L]. }
  destruct (blank (firstGroup (re_element "title") htmlContent)) eqn:B1;
    cbn [negb]; [|apply T, B1].
  destruct (blank (firstGroup (re_element "h1") htmlContent)) eqn:B2;
    cbn [negb]; [|apply T, B2].
  destruct (blank (firstGroup (re_element "h2") htmlContent)) eqn:B3;
    cbn [negb]; [|apply T, B3].
  destruct (blank (firstGroup re_meta_description htmlContent)) eqn:B4;
    cbn [negb]; [|apply T, B4].
  set (textContent := trim _).
  destruct textContent as [|c t] eqn:E.
  - exists []. split; [reflexivity|left; reflexivity].
  - cbn [length Nat.ltb Nat.leb]. apply T. apply firstWords_not_blank.
    apply (trim_first _ E).
Qed.

Example extractSlugFromHTML_examples :
  extractSlugFromHTML (lit "<html><title>My Great Post</title><h1>Other</h1></html>")
    (fun _ => 0) = Ok (lit "my-great-post") /\
  extractSlugFromHTML (lit "<div><p>one two three four five six seven</p></div>")
    (fun _ => 0) = Ok (lit "one-two-three-four-five") /\
  extractSlugFromHTML (lit "<br> <hr>") (fun _ => 0) = Ok [].
Proof. vm_compute. repeat split. Qed.

End SlugExtractFacts.

(** ** The extractor ([bot/utils/file-handler.js]) *)

Module ExtractorFacts.

Import FileHandler Notions Terms ClassFacts MatcherFacts SlugFacts SlugExtractFacts.

Lemma dropWhile_nil (p : ascii -> bool) (s : str) :
  dropWhile p s = [] -> Forall (fun c => p c = true) s.
Proof.
  induction s as [|c t IH]; [constructor|]. cbn [dropWhile].
  destruct (p c) eqn:E; [|discriminate]. intro H. constructor; [exact E|apply IH, H].
Qed.

Lemma dropWhile_idem (p : ascii -> bool) (s : str) :
  dropWhile p (dropWhile p s) = dropWhile p s.
Proof.
  induction s as [|c t IH]; [reflexivity|]. cbn [dropWhile].
  destruct (p c) eqn:E; [exact IH|]. cbn [dropWhile]. rewrite E. reflexivity.
Qed.

Lemma dropWhile_fixed (p : ascii -> bool) (s : str) :
  match s with c :: _ => p c = false | [] => True end -> dropWhile p s = s.
Proof. destruct s as [|c t]; [reflexivity|]. cbn [dropWhile]. intros ->. reflexivity. Qed.

(** A string that trims to nothing is made of white space. *)
Lemma trim_nil (s : str) : trim s = [] -> Forall (fun c => isSpace c = true) s.
Proof.
  unfold trim, dropWhileEnd. intro H.
  apply (f_equal (@rev ascii)) in H. rewrite rev_involutive in H. cbn [rev] in H.
  apply dropWhile_nil in H.
  destruct (dropWhile isSpace s) as [|c t] eqn:D; [apply dropWhile_nil, D|].
  exfalso. pose proof (dropWhile_first isSpace s D) as Hc.
  rewrite Forall_forall in H. rewrite (H c) in Hc; [discriminate|].
  apply in_rev. rewrite rev_involutive. left. reflexivity.
Qed.

(** Trimming twice is trimming once. *)
Lemma trim_idem (s : str) : trim (trim s) = trim s.
Proof.
  assert (End : dropWhileEnd isSpace (trim s) = trim s).
  { unfold trim at 1 2, dropWhileEnd. rewrite rev_involutive, dropWhile_idem. reflexivity. }
  unfold trim at 1. rewrite dropWhile_fixed; [exact End|].
  destruct (trim s) as [|c t] eqn:T; [exact I|]. apply (trim_first s T).
Qed.

Lemma re_html_tag_Starts : Starts (fun c => c = "<"%char) re_html_tag.
Proof.
  unfold re_html_tag. cbn [Seqs]. apply Starts_Seq, Starts_Chr.
  intros c H. unfold eqc in H. apply Ascii.eqb_eq in H. exact H.
Qed.

Lemma space_not_lt (s : str) :
  Forall (fun c => isSpace c = true) s -> Forall (fun c => ~ c = "<"%char) s.
Proof.
  intro F. eapply Forall_impl; [|exact F]. cbn beta. intros c H E. subst c. discriminate H.
Qed.

(** X15.  [isValidHtml] accepts exactly the contents in which the
    pattern of an opening tag, [<] followed by a letter and closed by
    [>], occurs: the test on blank content and the count of tags add
    nothing, and a single tag is enough. *)
Theorem isValidHtml_test (content : str) :
  isValidHtml content = test re_html_tag content.
Proof.
  unfold isValidHtml. destruct (isBlank content) eqn:B.
  - symmetry. apply (test_Starts re_html_tag_Starts).
    unfold isBlank in B. apply orb_true_iff in B as [B|B].
    + destruct content; [constructor|discriminate B].
    + apply space_not_lt, trim_nil. destruct (trim content); [reflexivity|discriminate B].
  - cbn zeta. destruct (test re_html_tag content) eqn:T; [|reflexivity].
    pose proof (match_all_of_test _ _ T) as L. cbn [andb].
    apply Nat.leb_le. exact L.
Qed.

Lemma isValidHtml_not_blank (content : str) :
  isValidHtml content = true -> isBlank content = false.
Proof. unfold isValidHtml. destruct (isBlank content); [discriminate|reflexivity]. Qed.

Lemma firstInline_valid (matches : list Match) (content : str) :
  firstInline matches = Some content ->
  isValidHtml content = true /\ trim content = content.
Proof.
  induction matches as [|mt rest IH]; [discriminate|]. cbn [firstInline].
  set (c := trim _).
  destruct (isValidHtml c && (20 <? length c)) eqn:E; [|exact IH].
  intro H. injection H as <-. apply andb_true_iff in E as [E _].
  split; [exact E|apply trim_idem].
Qed.

Lemma extractFromCodeBlock_valid (messageContent content : str) :
  extractFromCodeBlock messageContent = Some content ->
  isValidHtml content = true /\ trim content = content.
Proof.
  unfold extractFromCodeBlock.
  assert (B : forall r c,
             match search r messageContent with
             | Some htmlMatch =>
                 if negb (blank (group 1 htmlMatch))
                 then if isValidHtml (trim (group 1 htmlMatch))
                      then Some (trim (group 1 htmlMatch)) else None
                 else None
             | None => None
             end = Some c ->
             isValidHtml c = true /\ trim c = c).
  { intros r c. destruct (search r messageContent) as [mt|]; [|discriminate].
    destruct (negb (blank (group 1 mt))); [|discriminate].
    destruct (isValidHtml (trim (group 1 mt))) eqn:V; [|discriminate].
    intro H. injection H as <-. split; [exact V|apply trim_idem]. }
  cbn zeta.
  destruct (match search (re_code_block (LitI "html")) messageContent with
            | Some _ => _ | None => _ end) as [c1|] eqn:E1.
  - intro H. injection H as <-. apply (B _ _ E1).
  - destruct (match search (re_code_block Eps) messageContent with
              | Some _ => _ | None => _ end) as [c2|] eqn:E2.
    + intro H. injection H as <-. apply (B _ _ E2).
    + apply firstInline_valid.
Qed.

(** What the extractor returns has passed its checks. *)
Lemma extractContent_checked (attachments : list Attachment) (text content type : str)
  (filename : option str) :
  extractContent attachments text = Success content type filename ->
  isValidHtml content = true /\ trim content = content /\ isBlank content = false.
Proof.
  intro H.
  assert (V : isValidHtml content = true /\ trim content = content).
  { unfold extractContent in H. destruct attachments as [|attachment rest].
    - destruct (extractFromCodeBlock text) as [c|] eqn:E; [|discriminate H].
      injection H as <- _ _. apply (extractFromCodeBlock_valid text E).
    - unfold extractFromAttachment in H.
      destruct (validateAttachment attachment); [discriminate H|].
      destruct (at_fetch attachment) as [data|code message].
      + destruct (isBlank data); [discriminate H|]. cbn zeta in H.
        destruct (isValidHtml (trim data)) eqn:V; cbn [negb] in H; [|discriminate H].
        injection H as <- _ _. split; [exact V|apply trim_idem].
      + destruct (str_eqb code (lit "ENOTFOUND") || str_eqb code (lit "ECONNREFUSED"));
          [discriminate H|].
        destruct (str_eqb code (lit "ECONNABORTED")); [discriminate H|].
        destruct (includes (lit "maxContentLength") message); discriminate H. }
  destruct V as [V T]. repeat split; [exact V|exact T|apply isValidHtml_not_blank, V].
Qed.

(** X16.  Whatever the extractor returns as content, from an attachment
    or from the text of the message, has been trimmed, is not blank and
    passes [isValidHtml]. *)
Theorem extractContent_valid (attachments : list Attachment) (text content type : str)
  (filename : option str) :
  extractContent attachments text = Success content type filename ->
  isValidHtml content = true /\ trim content = content /\ isBlank content = false.
Proof. apply extractContent_checked. Qed.

Lemma extractContent_valid_witness :
  isValidHtml (lit "<h1>Hello</h1><p>and more text</p>") = true /\
  trim (lit "<h1>Hello</h1><p>and more text</p>") = lit "<h1>Hello</h1><p>and more text</p>" /\
  isBlank (lit "<h1>Hello</h1><p>and more text</p>") = false.
Proof.
  apply (@extractContent_valid []
           (lit "!poop `<h1>Hello</h1><p>and more text</p>`")
           (lit "<h1>Hello</h1><p>and more text</p>") (lit "codeblock") None).
  vm_compute. reflexivity.
Defined.

(** Splitting at a character and joining with it gives the string
    back. *)
Lemma splitChar_go_not_nil (sep : ascii) (s cur : str) :
  Security.splitChar_go sep s cur <> [].
Proof.
  revert cur. induction s as [|c t IH]; intro cur; cbn [Security.splitChar_go];
    [discriminate|]. destruct (c =? sep)%char; [discriminate|apply IH].
Qed.

Lemma joinWith_cons (sep x : str) (xs : list str) :
  xs <> [] -> joinWith sep (x :: xs) = x ++ sep ++ joinWith sep xs.
Proof. destruct xs; [contradiction|reflexivity]. Qed.

Lemma join_splitChar_go (sep : ascii) (s : str) :
  forall cur, joinWith [sep] (Security.splitChar_go sep s cur) = rev cur ++ s.
Proof.
  induction s as [|c t IH]; intro cur; cbn [Security.splitChar_go].
  - cbn [joinWith]. rewrite app_nil_r. reflexivity.
  - destruct (c =? sep)%char eqn:E.
    + apply Ascii.eqb_eq in E. subst c.
      rewrite joinWith_cons by apply splitChar_go_not_nil. rewrite IH. reflexivity.
    + rewrite IH. cbn [rev]. rewrite <- app_assoc. reflexivity.
Qed.

Lemma joinWith_snoc (sep : str) (xs : list str) (x : str) :
  xs <> [] -> joinWith sep (xs ++ [x]) = joinWith sep xs ++ sep ++ x.
Proof.
  induction xs as [|y ys IH]; [contradiction|]. intros _.
  destruct ys as [|z zs]; [reflexivity|].
  change ((y :: z :: zs) ++ [x]) with (y :: ((z :: zs) ++ [x])).
  rewrite joinWith_cons by (destruct zs; discriminate).
  rewrite IH by discriminate.
  rewrite (@joinWith_cons sep y (z :: zs)) by discriminate.
  rewrite <- !app_assoc. reflexivity.
Qed.

Lemma startsWith_app (a b : str) : startsWith a (a ++ b) = true.
Proof.
  induction a as [|x a IH]; [reflexivity|]. cbn [app startsWith].
  rewrite Ascii.eqb_refl. exact IH.
Qed.

Lemma endsWith_app (a b : str) : endsWith b (a ++ b) = true.
Proof. unfold endsWith. rewrite rev_app_distr. apply startsWith_app. Qed.

(** The extension is the end of the name in lower case. *)
Lemma getFileExtension_suffix (filename : str) :
  getFileExtension filename <> [] ->
  endsWith (getFileExtension filename) (toLowerCase filename) = true.
Proof.
  unfold getFileExtension. destruct (isBlank filename); [contradiction|].
  cbn zeta. set (low := toLowerCase filename).
  pose proof (join_splitChar_go "." low []) as J. cbn [rev app] in J.
  fold (Security.splitChar "." low) in J.
  destruct (1 <? length (Security.splitChar "." low)) eqn:L; [|contradiction].
  intros _. apply Nat.ltb_lt in L.
  destruct (@exists_last _ (Security.splitChar "." low)) as (parts & lastPart & E).
  { intro X. rewrite X in L. cbn in L. lia. }
  rewrite E in J, L |- *. rewrite last_last.
  rewrite joinWith_snoc in J.
  - rewrite <- J. change (lit ".") with ["."%char]. apply endsWith_app.
  - intro X. subst parts. cbn in L. lia.
Qed.

(** X17.  An attachment that [validateAttachment] accepts is at most
    25 MB, has a URL, and its name, in lower case, ends with one of
    [.html], [.htm] and [.xhtml]. *)
Theorem validateAttachment_accepts (attachment : Attachment) :
  validateAttachment attachment = None ->
  (at_size attachment <= maxFileSize)%N /\
  at_url attachment <> [] /\
  (endsWith (lit ".html") (toLowerCase (at_name attachment)) = true \/
   endsWith (lit ".htm") (toLowerCase (at_name attachment)) = true \/
   endsWith (lit ".xhtml") (toLowerCase (at_name attachment)) = true).
Proof.
  unfold validateAttachment. cbn zeta.
  destruct (maxFileSize <? at_size attachment)%N eqn:S; [discriminate|].
  destruct (mem (getFileExtension (at_name attachment)) (lits [".html"; ".htm"; ".xhtml"]))
    eqn:X; [|discriminate].
  destruct (isBlank (at_name attachment)); [discriminate|].
  destruct (blank (at_url attachment)) eqn:U; [discriminate|]. intros _.
  split; [apply N.ltb_ge, S|]. split; [intro E; rewrite E in U; discriminate U|].
  assert (Ne : getFileExtension (at_name attachment) <> []).
  { intro E. rewrite E in X. discriminate X. }
  pose proof (getFileExtension_suffix (at_name attachment) Ne) as Sx.
  unfold mem, lits in X. cbn [map existsb] in X.
  rewrite orb_false_r in X.
  apply orb_true_iff in X as [X|X]; [|apply orb_true_iff in X as [X|X]];
    apply PostFacts.str_eqb_eq in X; rewrite X in Sx; tauto.
Qed.

Lemma validateAttachment_accepts_witness :
  let attachment :=
    mkAttachment (lit "https://cdn.example/Page.HTML") (lit "Page.HTML") 1024
                 (Fetched (lit "<p>hi</p>")) in
  (at_size attachment <= maxFileSize)%N /\
  at_url attachment <> [] /\
  (endsWith (lit ".html") (toLowerCase (at_name attachment)) = true \/
   endsWith (lit ".htm") (toLowerCase (at_name attachment)) = true \/
   endsWith (lit ".xhtml") (toLowerCase (at_name attachment)) = true).
Proof.
  apply (@validateAttachment_accepts
           (mkAttachment (lit "https://cdn.example/Page.HTML") (lit "Page.HTML") 1024
                         (Fetched (lit "<p>hi</p>")))).
  vm_compute. reflexivity.
Defined.

(** X18.  [sanitizeHtmlContent] only removes: its output is the input
    with some characters left out, in the same order, and so never
    longer than the input. *)
Theorem sanitizeHtmlContent_removes (htmlContent : str) :
  Subseq (ContentTools.sanitizeHtmlContent htmlContent) htmlContent /\
  length (ContentTools.sanitizeHtmlContent htmlContent) <= length htmlContent.
Proof.
  assert (S : Subseq (ContentTools.sanitizeHtmlContent htmlContent) htmlContent).
  { unfold ContentTools.sanitizeHtmlContent.
    eapply Subseq_trans; [apply replace_all_delete_Subseq|].
    eapply Subseq_trans; [apply replace_all_delete_Subseq|].
    eapply Subseq_trans; [apply replace_all_delete_Subseq|].
    generalize ContentTools.dangerousPatterns as patterns.
    intro patterns. revert htmlContent.
    induction patterns as [|r rs IH]; intro h; cbn [fold_left]; [apply Subseq_refl|].
    eapply Subseq_trans; [apply IH|apply replace_all_delete_Subseq]. }
  split; [exact S|apply Subseq_length, S].
Qed.

End ExtractorFacts.

(** ** Slugs made of small letters, digits and hyphens *)

Module SimpleSlugFacts.

Import Slug Notions Terms RegexFacts ClassFacts MatcherFacts SlugFacts SlugLengthFacts
       SlugFixpointFacts SlugExtractFacts.

Lemma test_simple (s : str) :
  test Grok.re_simple_slug s = negb (blank s) && forallb simpleChar s.
Proof. unfold Grok.re_simple_slug. apply test_anchored_class. Qed.

Lemma test_simple_intro (s : str) :
  s <> [] -> Forall simple s -> test Grok.re_simple_slug s = true.
Proof.
  intros N F. rewrite test_simple. destruct s as [|c t]; [contradiction|].
  cbn [blank negb andb]. apply forallb_forall. apply Forall_forall. exact F.
Qed.

Lemma test_simple_elim (s : str) :
  test Grok.re_simple_slug s = true -> s <> [] /\ Forall simple s.
Proof.
  rewrite test_simple. intro H. apply andb_true_iff in H as [B F].
  split; [intro E; subst s; discriminate B|].
  apply Forall_forall. rewrite forallb_forall in F. exact F.
Qed.

Lemma collapse_go_class (p : ascii -> bool) (q : ascii -> Prop) (rep s : str) :
  Forall q rep -> Forall (fun c => p c = false -> q c) s ->
  forall b, Forall q (collapse_go p rep b s).
Proof.
  intros Hr Hs. induction Hs as [|c t Hc Ht IH]; intro b; cbn [collapse_go];
    [constructor|].
  destruct (p c) eqn:E.
  - apply Forall_app. split; [destruct b; [constructor|exact Hr]|apply IH].
  - constructor; [apply Hc; reflexivity|apply IH].
Qed.

Lemma trim_Forall (q : ascii -> Prop) (s : str) : Forall q s -> Forall q (trim s).
Proof.
  intro F. unfold trim.
  destruct (dropWhileEnd_prefix isSpace (dropWhile isSpace s)) as [k K].
  rewrite K, dropWhile_skipn. apply Forall_firstn, Forall_skipn, F.
Qed.

Lemma simple_dash : Forall simple (lit "-").
Proof. repeat constructor. Qed.

Lemma fallbackSlug_bounds (title : str) :
  test Grok.re_simple_slug (Grok.generateFallbackSlug title) = true /\
  length (Grok.generateFallbackSlug title) <= 50.
Proof.
  unfold Grok.generateFallbackSlug. destruct (isBlank title); [split; [reflexivity|cbn; lia]|].
  cbn zeta. rewrite !replace_all_plus. unfold replace_all, collapse.
  rewrite replace_go_chr.
  set (s1 := flat_map _ (toLowerCase title)).
  set (s3 := collapse_go (eqc "-") (lit "-") false (collapse_go isSpace (lit "-") false s1)).
  assert (F1 : Forall (fun c => isSpace c = false -> simple c) s1).
  { subst s1. generalize (toLowerCase title) as l.
    induction l as [|c l IH]; cbn [flat_map]; [constructor|].
    destruct (negb (isLower c || isDigit c || isSpace c || eqc "-" c)) eqn:E;
      unfold const_; cbn [app]; [exact IH|].
    constructor; [|exact IH]. intro S. apply negb_false_iff in E.
    unfold simple, simpleChar. rewrite S, orb_false_r in E. exact E. }
  assert (F3 : Forall simple s3).
  { subst s3. apply collapse_go_Forall; [apply simple_dash|].
    apply collapse_go_class; [apply simple_dash|exact F1]. }
  clearbody s3. clear F1 s1.
  assert (F5 : Forall simple (substring0 50 (trim s3))).
  { unfold substring0. apply Forall_firstn, trim_Forall, F3. }
  assert (L5 : length (substring0 50 (trim s3)) <= 50).
  { unfold substring0. rewrite length_firstn. lia. }
  destruct (substring0 50 (trim s3)) as [|c t] eqn:E.
  - cbn [blank]. split; [reflexivity|cbn; lia].
  - cbn [blank]. split; [|exact L5]. apply test_simple_intro; [discriminate|exact F5].
Qed.

(** X19.  The slug [generateFallbackSlug] makes of a title, which is
    also what [generateSlugFromTitle] of the analyzer makes, always
    matches [/^[a-z0-9-]+$/] and has at most 50 characters. *)
Theorem generateFallbackSlug_simple (title : str) :
  test Grok.re_simple_slug (Grok.generateFallbackSlug title) = true /\
  length (Grok.generateFallbackSlug title) <= 50.
Proof. apply fallbackSlug_bounds. Qed.

(** Characters of the class are left alone by the first steps of the
    normalization. *)
Lemma simple_chars (c : ascii) :
  simpleChar c = true ->
  (code c <=? 126) = true /\ lowerChar c = c /\ isSlugAllowed c = true.
Proof.
  destruct c as [[] [] [] [] [] [] [] []]; vm_compute; intro H;
    first [discriminate H | repeat split].
Qed.

Lemma truncateSlug_firstn (slug : str) (config : SlugConfig) :
  exists k, truncateSlug slug config = firstn k slug.
Proof.
  unfold truncateSlug, substring0.
  destruct (maxLength config <? length slug).
  - destruct (lastIndexOf "-" (firstn (maxLength config) slug)) as [lastDash|].
    + destruct (beyond70 lastDash (maxLength config)).
      * rewrite firstn_firstn. eexists. reflexivity.
      * eexists. reflexivity.
    + eexists. reflexivity.
  - exists (length slug). rewrite firstn_all. reflexivity.
Qed.

Lemma randomChar_simple (n : nat) : simple (nth (n mod 36) randomChars "a"%char).
Proof.
  assert (A : forallb simpleChar randomChars = true) by (vm_compute; reflexivity).
  rewrite forallb_forall in A. apply A. apply nth_In.
  change (length randomChars) with 36. apply Nat.mod_upper_bound. discriminate.
Qed.

Lemma replaceAll_simple (r : re) (rep s : str) :
  Forall simple rep -> Forall simple s -> Forall simple (replace_all r (const_ rep) s).
Proof.
  intros Hr Hs. unfold replace_all. apply replace_go_Forall; [|exact Hs].
  intro mt. exact Hr.
Qed.

Lemma trimStart_Forall (q : ascii -> Prop) (p : ascii -> bool) (s : str) :
  Forall q s -> Forall q (replace_first (Seq Bos (Plus (Chr p))) (const_ []) s).
Proof. intro F. rewrite replace_first_trim_start, dropWhile_skipn. apply Forall_skipn, F. Qed.

Lemma trimEnd_Forall (q : ascii -> Prop) (p : ascii -> bool) (s : str) :
  Forall q s -> Forall q (replace_first (Seq (Plus (Chr p)) Eos) (const_ []) s).
Proof.
  intro F. rewrite replace_first_trim_end. destruct (trimEnd_prefix p s) as [k K].
  rewrite K. apply Forall_firstn, F.
Qed.

Lemma normalizeText_simple (text : str) (config : SlugConfig) :
  Forall (fun fr => Forall simple (snd fr)) (customReplacements config) ->
  Forall simple text ->
  Forall simple (normalizeText text config).
Proof.
  intros Hc Ht. unfold normalizeText.
  assert (F0 : Forall simple
                 (fold_left (fun slug fr => replace_all (fst fr) (const_ (snd fr)) slug)
                            (customReplacements config) text)).
  { revert text Ht. induction Hc as [|fr frs Hfr _ IH]; intros text Ht; cbn [fold_left];
      [exact Ht|]. apply IH. apply replaceAll_simple; assumption. }
  set (s0 := fold_left _ _ text) in *. clearbody s0.
  apply trimEnd_Forall, trimStart_Forall.
  apply replaceAll_simple; [apply simple_dash|].
  apply replaceAll_simple; [constructor|].
  apply replaceAll_simple; [destruct (allowUnicode config); [constructor|apply simple_dash]|].
  apply replaceAll_simple; [apply simple_dash|].
  apply replaceAll_simple; [apply simple_dash|].
  assert (F1 : Forall simple (replace_all
                                (Seqs [Chr (eqc "<"); Star (Chr (notb (eqc ">"))); Chr (eqc ">")])
                                (const_ []) s0)).
  { apply replaceAll_simple; [constructor|exact F0]. }
  set (s1 := replace_all _ _ s0) in *. clearbody s1.
  assert (F2 : Forall simple (if stripDiacriticsOpt config then stripDiacritics s1 else s1)).
  { destruct (stripDiacriticsOpt config); [|exact F1].
    rewrite stripDiacritics_id; [exact F1|].
    eapply Forall_impl; [|exact F1]. cbn beta. intros c Hs. apply (simple_chars c Hs). }
  destruct (lowercase config); [|exact F2].
  unfold toLowerCase. apply Forall_map. eapply Forall_impl; [|exact F2].
  cbn beta. intros c Hs. destruct (simple_chars c Hs) as (_ & L & _). rewrite L. exact Hs.
Qed.

Lemma cleanUserSlug_keeps_simple (userInput : str) (rnd : Rand) :
  test Grok.re_simple_slug userInput = true ->
  exists slug,
    cleanUserSlug userInput rnd = Ok slug /\
    test Grok.re_simple_slug slug = true /\
    3 <= length slug <= 80.
Proof.
  intro T. apply test_simple_elim in T as [N F].
  unfold cleanUserSlug. destruct userInput as [|c t]; [contradiction|]. cbn [blank].
  match goal with
  | |- context [generateSlug (c :: t) ?cfg rnd] => set (config := cfg)
  end.
  destruct (@generateSlug_bounds (c :: t) config rnd eq_refl) as (slug & E & L).
  exists slug. split; [exact E|]. split; [|cbn [maxLength config] in L; lia].
  apply test_simple_intro; [intro X; subst slug; cbn [length] in L; lia|].
  unfold generateSlug in E. cbn [blank] in E.
  assert (Fn : Forall simple (normalizeText (c :: t) config)).
  { apply normalizeText_simple; [|exact F]. subst config. cbn [customReplacements].
    repeat constructor. }
  destruct (truncateSlug_firstn (normalizeText (c :: t) config) config) as [k K].
  destruct (length (truncateSlug (normalizeText (c :: t) config) config) <? 3).
  - injection E as <-.
    repeat (constructor; [reflexivity|]).
    unfold generateRandomString. apply Forall_map. apply Forall_forall.
    intros i _. apply randomChar_simple.
  - injection E as <-. rewrite K. apply Forall_firstn, Fn.
Qed.

(** X20.  On an input made of small letters, digits and hyphens, as
    the slugs of the analyzer are, [cleanUserSlug] returns a slug that
    matches [/^[a-z0-9-]+$/] and has 3 to 80 characters. *)
Theorem cleanUserSlug_simple (userInput : str) (rnd : Rand) :
  test Grok.re_simple_slug userInput = true ->
  exists slug,
    cleanUserSlug userInput rnd = Ok slug /\
    test Grok.re_simple_slug slug = true /\
    3 <= length slug <= 80.
Proof. apply cleanUserSlug_keeps_simple. Qed.

Lemma cleanUserSlug_simple_witness :
  exists slug,
    cleanUserSlug (lit "hello-world") (fun _ => 0) = Ok slug /\
    test Grok.re_simple_slug slug = true /\
    3 <= length slug <= 80.
Proof.
  apply (@cleanUserSlug_simple (lit "hello-world") (fun _ => 0)).
  vm_compute. reflexivity.
Defined.

End SimpleSlugFacts.

(** ** The metadata of the analyzer and what the handler does with it *)

Module MetadataFacts.

Import Notions Terms ClassFacts SlugFacts SimpleSlugFacts GrokFacts AnalyzerFacts.

Lemma fallbackSlug_simple (title : str) :
  test Grok.re_simple_slug (Grok.generateFallbackSlug title) = true.
Proof. apply fallbackSlug_bounds. Qed.

Section WithEnv.

Variable env : Env.

Lemma readResponse_ok (response : ApiData) (w w' : World) (a : Grok.Analysis) :
  Grok.readResponse response w = (Ok a, w') ->
  test Grok.re_simple_slug (Grok.a_slug a) = true /\
  Grok.a_title a <> [] /\
  Grok.a_description a <> [].
Proof.
  unfold Grok.readResponse, throw, ret.
  destruct response as [|typeError| |[msg| |slug title description]]; try discriminate.
  destruct (Grok.falsy slug) eqn:Fs; [discriminate|].
  destruct (Grok.falsy title) eqn:Ft; [discriminate|].
  destruct (Grok.falsy description) eqn:Fd; [discriminate|].
  cbn [app length Nat.ltb Nat.leb].
  destruct slug as [|s|]; cbn [Grok.asString]; try discriminate.
  destruct title as [|t|]; cbn [Grok.asString]; try discriminate.
  destruct description as [|d|]; cbn [Grok.asString]; try discriminate.
  intro H. injection H as <- _. cbn [Grok.a_slug Grok.a_title Grok.a_description].
  split; [|split].
  - destruct (test Grok.re_simple_slug s) eqn:T; cbn [negb];
      [exact T|apply fallbackSlug_simple].
  - intro E. subst t. discriminate Ft.
  - intro E. subst d. discriminate Fd.
Qed.

(** X21.  What [GrokClient.analyzeContent] returns, when it returns,
    has a slug that matches [/^[a-z0-9-]+$/] and a title and a
    description that are not empty. *)
Theorem grok_analysis_wellformed (html instr : str) (t : nat) (w w' : World)
  (a : Grok.Analysis) :
  Grok.analyzeContent env html instr t w = (Ok a, w') ->
  test Grok.re_simple_slug (Grok.a_slug a) = true /\
  Grok.a_title a <> [] /\
  Grok.a_description a <> [].
Proof.
  unfold Grok.analyzeContent. destruct (isBlank html); [discriminate|].
  unfold tryCatch, bind.
  destruct (Grok.makeRequest env (mkRequest html instr t) w) as [[response|e] w1].
  - destruct (Grok.readResponse response w1) as [[a'|e] w2] eqn:R.
    + intro H. injection H as <- _. apply (readResponse_ok response w1 R).
    + destruct (Grok.isGrokAPIError e); discriminate.
  - destruct (Grok.isGrokAPIError e); discriminate.
Qed.

(** The shape of what the analyzer returns. *)
Lemma analyzeContent_shape (html : str) (options : Analyzer.Options) (w : World) :
  match fst (Analyzer.analyzeContent env html options w) with
  | Ok md =>
      test Grok.re_simple_slug (md_slug md) = true /\
      0 < length (md_description md) <= 160 /\
      (md_error md = None -> length (md_title md) <= 60)
  | Throw _ => isBlank html = true
  end.
Proof.
  unfold Analyzer.analyzeContent. destruct (isBlank html) eqn:B; [reflexivity|].
  unfold tryCatch, bind.
  assert (Fallback : forall h t e,
            let md := Analyzer.generateFallbackMetadata env h t e in
            test Grok.re_simple_slug (md_slug md) = true /\
            0 < length (md_description md) <= 160 /\
            (md_error md = None -> length (md_title md) <= 60)).
  { intros h t e. cbn zeta. unfold Analyzer.generateFallbackMetadata.
    cbn [md_slug md_description md_error md_title].
    split; [apply fallbackSlug_simple|].
    pose proof (generateDescriptionFromContent_bounds (Analyzer.extractTextContent env h)).
    split; [lia|discriminate]. }
  destruct (Analyzer.analysisLoop env _ _ _ _ 0 w) as [[[ | |a]|e] w1];
    cbn [fst throw ret]; try apply Fallback.
  cbn [md_slug md_description md_error md_title].
  unfold Analyzer.postProcessAnalysis.
  cbn [Grok.a_slug Grok.a_title Grok.a_description].
  split; [|split].
  - destruct (test Grok.re_simple_slug (Analyzer.orElse (Grok.a_slug a) [])) eqn:T;
      cbn [negb]; [exact T|apply fallbackSlug_simple].
  - set (d := Analyzer.orElse (Grok.a_description a) _).
    assert (Nd : 0 < length d).
    { subst d. unfold Analyzer.orElse.
      destruct (Grok.a_description a) as [|x r]; cbn [blank]; [|cbn [length]; lia].
      apply generateDescriptionFromContent_bounds. }
    destruct (160 <? length d) eqn:L.
    + apply Nat.ltb_lt in L. rewrite firstn_ellipsis_length by lia. lia.
    + apply Nat.ltb_ge in L. lia.
  - intros _. set (t := Analyzer.orElse (Grok.a_title a) _).
    destruct (60 <? length t) eqn:L.
    + apply Nat.ltb_lt in L. rewrite firstn_ellipsis_length by lia. lia.
    + apply Nat.ltb_ge in L. exact L.
Qed.

(** X22.  [ContentAnalyzer.analyzeContent] throws only on blank
    content.  Whatever else happens, the metadata it returns has a slug
    that matches [/^[a-z0-9-]+$/] and a description of 1 to 160
    characters; when the metadata comes from the API (no error is
    recorded in it) the title has at most 60 characters. *)
Theorem analyzeContent_metadata (html : str) (options : Analyzer.Options) (w : World) :
  match fst (Analyzer.analyzeContent env html options w) with
  | Ok md =>
      test Grok.re_simple_slug (md_slug md) = true /\
      0 < length (md_description md) <= 160 /\
      (md_error md = None -> length (md_title md) <= 60)
  | Throw _ => isBlank html = true
  end.
Proof. apply analyzeContent_shape. Qed.

End WithEnv.

Lemma grok_analysis_wellformed_witness :
  test Grok.re_simple_slug (Grok.a_slug (Grok.mkAnalysis (lit "hello") (lit "Hello")
                                                           (lit "A greeting"))) = true /\
  Grok.a_title (Grok.mkAnalysis (lit "hello") (lit "Hello") (lit "A greeting")) <> [] /\
  Grok.a_description (Grok.mkAnalysis (lit "hello") (lit "Hello") (lit "A greeting")) <> [].
Proof.
  apply (@grok_analysis_wellformed
           (Scenarios.envWith (fun _ => Scenarios.goodReply) (fun _ => None))
           (lit "<p>Hello</p>") (lit "general") 7 Scenarios.emptyWorld
           (snd (Grok.analyzeContent
                   (Scenarios.envWith (fun _ => Scenarios.goodReply) (fun _ => None))
                   (lit "<p>Hello</p>") (lit "general") 7 Scenarios.emptyWorld))
           (Grok.mkAnalysis (lit "hello") (lit "Hello") (lit "A greeting"))).
  vm_compute. reflexivity.
Defined.

End MetadataFacts.

(** ** The replies of the command handler ([bot/commands/poop.js]) *)

Module HandlerFacts.

Import FileHandler Command Notions Terms GrokFacts AnalyzerFacts PostFacts ClassFacts
       CommandFacts ExtractorFacts SimpleSlugFacts MetadataFacts.

Section Run.

Variable env : Env.
Variable message : Message.

(** A run of the handler on a command, step by step. *)
Lemma handle_shape (w : World) :
  startsWith (lit "!poop") (msg_content message) = true ->
  let out := handlePoopCommand env message w in
  exists evs,
    log (snd out) = log w ++ evs /\
    ((exists err,
        replies evs = [SendTyping; ReplyExtractionError err] /\ creates evs = []) \/
     (exists html type filename md w1 w2 slug final,
        extractContent (msg_attachments message) (msg_content message)
          = Success html type filename /\
        Analyzer.analyzeContent env html (handlerOptions html filename) w1 = (Ok md, w2) /\
        Slug.cleanUserSlug (md_slug md) (random env) = Ok slug /\
        creates evs = [submission message slug (md_title md) (md_description md) html] /\
        replies evs =
          [SendTyping; ReplyProcessing; EditAnalysisComplete; EditSaving] ++ final /\
        (final = [ReplyInvalidFormat] \/ final = [ReplySlugExists] \/
         final = [ReplyFailed]))).
Proof.
  intro Cmd. cbn zeta. unfold handlePoopCommand. rewrite Cmd. cbn [negb].
  unfold chat. rewrite bind_emit. unfold tryCatch.
  destruct (extractContent (msg_attachments message) (msg_content message))
    as [html type filename|err] eqn:X.
  2:{ rewrite emit_eq. cbn [snd log db]. eexists.
      split; [rewrite <- app_assoc; reflexivity|]. left. exists err. split; reflexivity. }
  destruct (extractContent_checked _ _ X) as (_ & _ & B). rewrite B.
  rewrite bind_emit. cbn [db posted log].
  set (w2 := mkWorld (db w) (posted w)
                     ((log w ++ [EvChat SendTyping]) ++ [EvChat ReplyProcessing])).
  fold (handlerOptions html filename).
  destruct (analyzer_quiet env html (handlerOptions html filename) w2 B eq_refl)
    as (md & w3 & evsA & A & D3 & L3 & N).
  rewrite (bind_ok _ _ _ A). rewrite bind_emit.
  destruct (cleanUserSlug_ok (md_slug md) (random env)) as [slug C].
  rewrite C, bind_liftR_ok, bind_emit. cbn [db posted log].
  fold (submission message slug (md_title md) (md_description md) html).
  set (data := submission message slug (md_title md) (md_description md) html).
  set (w5 := mkWorld (db w3) (posted w3)
                     ((log w3 ++ [EvChat EditAnalysisComplete]) ++ [EvChat EditSaving])).
  pose proof (create_cases env data w5) as CC. cbn zeta in CC.
  destruct (netEvents_silent N) as (S1 & S2 & S3 & S4 & S5).
  assert (L5 : log w5 = log w ++ [EvChat SendTyping; EvChat ReplyProcessing] ++ evsA ++
                        [EvChat EditAnalysisComplete; EvChat EditSaving]).
  { subst w5 w2. cbn [log] in *. rewrite L3, <- !app_assoc. reflexivity. }
  clearbody w5.
  destruct (PostModel.validate (PostModel.newPost data)) as [|err errs] eqn:V.
  - destruct (existsb (PostModel.hasSlug (PostModel.text (p_slug (PostModel.newPost data))))
                      (rows (db w5))) eqn:E.
    + (* the slug is taken *)
      rewrite (bind_throw _ _ _ CC). unfold onError. cbn [emessage Error].
      destruct (validate_nil _ V) as (_ & _ & _ & _ & _ & _ & T).
      destruct (duplicate_message_class _ T) as (M1 & M2 & M3). cbn zeta in M1, M2, M3.
      rewrite M1, M2, M3. cbn [andb]. unfold chat. rewrite emit_eq. cbn [snd log db].
      rewrite L5. eexists. split; [rewrite <- !app_assoc; cbn [app]; reflexivity|].
      right. exists html, type, filename, md, w2, w3, slug, [ReplySlugExists].
      split; [reflexivity|]. split; [exact A|]. split; [exact C|].
      projections. rewrite S1, S4, ?app_nil_r. cbn [app].
      split; [reflexivity|]. split; [reflexivity|]. right. left. reflexivity.
    + (* the row is written, and reading [result.lastID] fails *)
      rewrite (bind_throw _ _ _ CC). unfold onError.
      replace (includes (lit "Validation failed")
                 (emessage (PostModel.undefinedProperty "lastID")))
        with false by (vm_compute; reflexivity).
      replace (includes (lit "slug") (emessage (PostModel.undefinedProperty "lastID")))
        with false by (vm_compute; reflexivity).
      replace (includes (lit "API") (emessage (PostModel.undefinedProperty "lastID")))
        with false by (vm_compute; reflexivity).
      replace (includes (lit "Database") (emessage (PostModel.undefinedProperty "lastID")))
        with false by (vm_compute; reflexivity).
      cbn [andb]. unfold chat. rewrite emit_eq. cbn [snd log db].
      rewrite L5. eexists. split; [rewrite <- !app_assoc; cbn [app]; reflexivity|].
      right. exists html, type, filename, md, w2, w3, slug, [ReplyFailed].
      split; [reflexivity|]. split; [exact A|]. split; [exact C|].
      projections. rewrite S1, S4, ?app_nil_r. cbn [app].
      split; [reflexivity|]. split; [reflexivity|]. right. right. reflexivity.
  - (* validation fails *)
    rewrite (bind_throw _ _ _ CC). unfold onError. cbn [emessage Error].
    replace (includes (lit "Validation failed")
               (lit "Validation failed: " ++ joinWith (lit ", ") (err :: errs)))
      with true by reflexivity.
    unfold chat. rewrite emit_eq. cbn [snd log db].
    rewrite L5. eexists. split; [rewrite <- !app_assoc; cbn [app]; reflexivity|].
    right. exists html, type, filename, md, w2, w3, slug, [ReplyInvalidFormat].
    split; [reflexivity|]. split; [exact A|]. split; [exact C|].
    projections. rewrite S1, S4, ?app_nil_r. cbn [app].
    split; [reflexivity|]. split; [reflexivity|]. left. reflexivity.
Qed.

(** X23.  On a message that starts with the command, the handler
    shows the typing indicator, then reports progress, then sends
    exactly one final answer, and this answer reports a failure: it
    is the error of the extractor or one of the replies of the [catch]
    block.  The success reply is never sent, because [Post.create]
    fails after its INSERT. *)
Theorem handler_answers_once (w : World) :
  startsWith (lit "!poop") (msg_content message) = true ->
  exists evs before final,
    log (snd (handlePoopCommand env message w)) = log w ++ evs /\
    replies evs = SendTyping :: before ++ [final] /\
    forallb progress before = true /\
    failureAnswer final = true.
Proof.
  intro Cmd. destruct (handle_shape w Cmd) as (evs & L & [(err & R & _)|S]).
  - exists evs, [], (ReplyExtractionError err). rewrite R.
    repeat split; try reflexivity. exact L.
  - destruct S as (html & type & filename & md & w1 & w2 & slug & final & _ & _ & _ & _ & R & F).
    destruct F as [->|[->| ->]].
    + exists evs, [ReplyProcessing; EditAnalysisComplete; EditSaving], ReplyInvalidFormat.
      rewrite R. repeat split; try reflexivity. exact L.
    + exists evs, [ReplyProcessing; EditAnalysisComplete; EditSaving], ReplySlugExists.
      rewrite R. repeat split; try reflexivity. exact L.
    + exists evs, [ReplyProcessing; EditAnalysisComplete; EditSaving], ReplyFailed.
      rewrite R. repeat split; try reflexivity. exact L.
Qed.

(** X24.  The slug the handler hands to [Post.create] always matches
    [/^[a-z0-9-]+$/], the format checked by the post model and by the
    route of a post, and has 3 to 80 characters. *)
Theorem handler_slug_simple (w : World) :
  startsWith (lit "!poop") (msg_content message) = true ->
  exists evs,
    log (snd (handlePoopCommand env message w)) = log w ++ evs /\
    forall data, In data (creates evs) ->
      exists slug,
        p_slug data = Some slug /\
        test Grok.re_simple_slug slug = true /\
        3 <= length slug <= 80.
Proof.
  intro Cmd. destruct (handle_shape w Cmd) as (evs & L & [(err & _ & C)|S]).
  - exists evs. split; [exact L|]. rewrite C. intros data [].
  - destruct S as (html & type & filename & md & w1 & w2 & slug & final & _ & A & Cl & C & _).
    exists evs. split; [exact L|]. rewrite C. intros data [<-|[]].
    exists slug. split; [reflexivity|].
    pose proof (analyzeContent_shape env html (handlerOptions html filename) w1) as M.
    rewrite A in M. cbn [fst] in M. destruct M as (T & _).
    destruct (cleanUserSlug_keeps_simple (md_slug md) (random env) T) as (slug' & E & T' & Len).
    rewrite Cl in E. injection E as <-. split; assumption.
Qed.

End Run.

Lemma handler_answers_once_witness :
  exists evs before final,
    log (snd (handlePoopCommand
                (Scenarios.envWith (fun _ => Scenarios.goodReply) Scenarios.scrub)
                Scenarios.scenarioMessage Scenarios.emptyWorld))
      = log Scenarios.emptyWorld ++ evs /\
    replies evs = SendTyping :: before ++ [final] /\
    forallb progress before = true /\
    failureAnswer final = true.
Proof.
  apply (@handler_answers_once
           (Scenarios.envWith (fun _ => Scenarios.goodReply) Scenarios.scrub)
           Scenarios.scenarioMessage Scenarios.emptyWorld).
  reflexivity.
Defined.

Lemma handler_slug_simple_witness :
  exists evs,
    log (snd (handlePoopCommand
                (Scenarios.envWith (fun _ => Scenarios.goodReply) Scenarios.scrub)
                Scenarios.scenarioMessage Scenarios.emptyWorld))
      = log Scenarios.emptyWorld ++ evs /\
    forall data, In data (creates evs) ->
      exists slug,
        p_slug data = Some slug /\
        test Grok.re_simple_slug slug = true /\
        3 <= length slug <= 80.
Proof.
  apply (@handler_slug_simple
           (Scenarios.envWith (fun _ => Scenarios.goodReply) Scenarios.scrub)
           Scenarios.scenarioMessage Scenarios.emptyWorld).
  reflexivity.
Defined.

End HandlerFacts.

(** ** Queries, update and delete of the post model
       ([database/models/post.js]) *)

Module PostQueryFacts.

Import PostModel PostQueries Notions Terms PostFacts ClassFacts SlugFacts
       SlugExtractFacts ExtractorFacts SimpleSlugFacts.

Lemma simple_not_space (c : ascii) : simple c -> isSpace c = false.
Proof.
  unfold simple. destruct c as [[] [] [] [] [] [] [] []]; vm_compute; intro H;
    first [discriminate H | reflexivity].
Qed.

(** A string without white space is its own trimmed form. *)
Lemma trim_fixed (s : str) : Forall (fun c => isSpace c = false) s -> trim s = s.
Proof.
  intro F. unfold trim. rewrite (dropWhile_fixed isSpace s).
  - unfold dropWhileEnd. rewrite dropWhile_fixed; [apply rev_involutive|].
    apply Forall_rev in F. destruct F; [exact I|assumption].
  - destruct F; [exact I|assumption].
Qed.

Lemma trim_simple (s : str) : Forall simple s -> trim s = s.
Proof.
  intro F. apply trim_fixed. eapply Forall_impl; [|exact F]. exact simple_not_space.
Qed.

Lemma isBlank_simple (s : str) : s <> [] -> Forall simple s -> isBlank s = false.
Proof.
  intros N F. unfold isBlank. rewrite (trim_simple F).
  destruct s; [contradiction|reflexivity].
Qed.

Lemma find_app_none {A} (f : A -> bool) (l l' : list A) :
  find f l = None -> find f (l ++ l') = find f l'.
Proof.
  induction l as [|x l IH]; [reflexivity|]. cbn [find app].
  destruct (f x); [discriminate|exact IH].
Qed.

(** The lookups on a slug of the simple format. *)
Lemma findBySlug_simple (slug : str) (w : World) :
  test Grok.re_simple_slug slug = true ->
  findBySlug slug w =
  (Ok (match find (hasSlug slug) (rows (db w)) with
       | Some postData => Some (newPost (postOfRow postData))
       | None => None
       end), w).
Proof.
  intro T. apply test_simple_elim in T as [N F].
  unfold findBySlug. rewrite (isBlank_simple N F), (trim_simple F). reflexivity.
Qed.

Lemma isSlugAvailable_simple (slug : str) (w : World) :
  test Grok.re_simple_slug slug = true ->
  isSlugAvailable slug w = (Ok (negb (existsb (hasSlug slug) (rows (db w)))), w).
Proof.
  intro T. unfold isSlugAvailable.
  destruct (test_simple_elim _ T) as [N F]. rewrite (isBlank_simple N F).
  unfold bind, ret. rewrite (@findBySlug_simple slug w T).
  rewrite find_existsb. destruct (find (hasSlug slug) (rows (db w))); reflexivity.
Qed.

Section WithEnv.

Variable env : Env.

(** X25.  When [Post.create] is given acceptable data with a slug that
    is free, the call fails on [result.lastID], yet the row it has
    written stays: the lookups by slug and by the next id return the
    submitted post, the slug is no longer available, the count is one
    more, and a second [Post.create] of the same data is refused as a
    duplicate. *)
Theorem create_then_find (data : Post) (slug : str) (w : World) :
  storeOk (db w) ->
  acceptable data = true ->
  p_slug data = Some slug ->
  ~ In slug (map r_slug (rows (db w))) ->
  let w' := snd (create env data w) in
  let id := S (lastId (db w)) in
  fst (create env data w) = Throw (undefinedProperty "lastID") /\
  (exists post,
     findBySlug slug w' = (Ok (Some post), w') /\
     findById id w' = (Ok (Some post), w') /\
     p_id post = Some id /\
     p_slug post = Some slug /\
     p_title post = p_title data /\
     p_description post = p_description data /\
     p_html_content post = p_html_content data /\
     p_discord_user_id post = p_discord_user_id data /\
     p_discord_username post = p_discord_username data) /\
  isSlugAvailable slug w' = (Ok false, w') /\
  getCount w' = (Ok (S (length (rows (db w)))), w') /\
  fst (create env data w')
  = Throw (Error (lit "Post with slug '" ++ slug ++ lit "' already exists")).
Proof.
  intros [Ids ND] A Sl Free. cbn zeta.
  pose proof (create_cases env data w) as CC. cbn zeta in CC.
  pose proof (proj2 (validate_acceptable data) A) as V.
  pose proof (rowOf_fields env data (S (lastId (db w))) A) as RF. cbn zeta in RF.
  destruct (validate_nil _ V) as (_ & _ & _ & _ & _ & _ & T).
  assert (Es : text (p_slug (newPost data)) = slug).
  { destruct RF as (_ & S1 & _). rewrite Sl in S1. injection S1 as ->. reflexivity. }
  rewrite V, Es in CC. rewrite Es in T.
  replace (existsb (hasSlug slug) (rows (db w))) with false in CC.
  2:{ symmetry. destruct (existsb (hasSlug slug) (rows (db w))) eqn:X; [|reflexivity].
      apply existsb_hasSlug in X. contradiction. }
  set (id := S (lastId (db w))) in *.
  set (row := rowOf env (newPost data) id) in *.
  rewrite CC. cbn [fst snd].
  set (w' := mkWorld _ _ _).
  assert (Fi : find (fun r => r_id r =? id) (rows (db w) ++ [row]) = Some row)
    by (apply find_new_id; [exact Ids|reflexivity]).
  assert (Rs : r_slug row = slug) by (subst row; cbn [rowOf r_slug]; exact Es).
  assert (Fs : find (hasSlug slug) (rows (db w) ++ [row]) = Some row).
  { rewrite find_app_none.
    - cbn [find]. unfold hasSlug. rewrite Rs, str_eqb_refl. reflexivity.
    - destruct (find (hasSlug slug) (rows (db w))) as [r|] eqn:F; [|reflexivity].
      exfalso. apply Free. apply existsb_hasSlug. rewrite find_existsb, F. reflexivity. }
  split; [reflexivity|]. split; [|split; [|split]].
  - exists (newPost (postOfRow row)).
    split; [rewrite (@findBySlug_simple slug w' T); cbn [w' db rows]; rewrite Fs;
            reflexivity|].
    split; [unfold findById; replace (id =? 0) with false by reflexivity;
            cbn [w' db rows]; rewrite Fi; reflexivity|].
    destruct RF as (R0 & R1 & R2 & R3 & R4 & R5 & R6 & _).
    fold row in R0, R1, R2, R3, R4, R5, R6.
    cbn [newPost postOfRow p_id p_slug p_title p_description p_html_content
         p_discord_user_id p_discord_username orNullId].
    rewrite R0, R2, R3, R4, R5, R6, <- Rs.
    pose proof A as A'. unfold acceptable in A'.
    rewrite R1, R2, R3, R4, R5, R6 in A'.
    repeat (apply andb_true_iff in A'; destruct A' as [A' ?F]).
    repeat split; try reflexivity;
      match goal with
      | |- orNull (Some ?x) = Some ?y =>
          apply (@filled_text (Some x) y eq_refl); assumption
      end.
  - rewrite (@isSlugAvailable_simple slug w' T). cbn [w' db rows].
    rewrite find_existsb, Fs. reflexivity.
  - unfold getCount. cbn [w' db rows]. rewrite length_app. cbn [length].
    rewrite Nat.add_1_r. reflexivity.
  - pose proof (create_cases env data w') as C2. cbn zeta in C2.
    rewrite V, Es in C2. cbn [w' db rows] in C2.
    rewrite find_existsb, Fs in C2. rewrite C2. reflexivity.
Qed.

End WithEnv.

Lemma create_then_find_witness :
  let env := Scenarios.envWith (fun _ => Scenarios.goodReply) (fun _ => None) in
  let data := Scenarios.helloData in
  let w := Scenarios.emptyWorld in
  let w' := snd (create env data w) in
  let id := S (lastId (db w)) in
  fst (create env data w) = Throw (undefinedProperty "lastID") /\
  (exists post,
     findBySlug (lit "hello") w' = (Ok (Some post), w') /\
     findById id w' = (Ok (Some post), w') /\
     p_id post = Some id /\
     p_slug post = Some (lit "hello") /\
     p_title post = p_title data /\
     p_description post = p_description data /\
     p_html_content post = p_html_content data /\
     p_discord_user_id post = p_discord_user_id data /\
     p_discord_username post = p_discord_username data) /\
  isSlugAvailable (lit "hello") w' = (Ok false, w') /\
  getCount w' = (Ok (S (length (rows (db w)))), w') /\
  fst (create env data w')
  = Throw (Error (lit "Post with slug '" ++ lit "hello" ++ lit "' already exists")).
Proof.
  apply (@create_then_find
           (Scenarios.envWith (fun _ => Scenarios.goodReply) (fun _ => None))
           Scenarios.helloData (lit "hello") Scenarios.emptyWorld).
  - split; constructor.
  - reflexivity.
  - reflexivity.
  - intros [].
Defined.

(** Facts on [filter] and [find]. *)
Lemma find_filter {A} (f g : A -> bool) (l : list A) :
  (forall x, f x = true -> g x = true) -> find f (filter g l) = find f l.
Proof.
  intro H. induction l as [|x l IH]; [reflexivity|]. cbn [filter find].
  destruct (f x) eqn:F.
  - rewrite (H x F). cbn [find]. rewrite F. reflexivity.
  - destruct (g x); [cbn [find]; rewrite F|]; exact IH.
Qed.

Lemma find_filter_none {A} (f g : A -> bool) (l : list A) :
  find f l = None -> find f (filter g l) = None.
Proof.
  induction l as [|x l IH]; [reflexivity|]. cbn [filter find].
  destruct (f x) eqn:F; [discriminate|]. intro H.
  destruct (g x); [cbn [find]; rewrite F|]; apply IH, H.
Qed.

Lemma find_none_filtered {A} (f : A -> bool) (l : list A) :
  find f (filter (fun x => negb (f x)) l) = None.
Proof.
  induction l as [|x l IH]; [reflexivity|]. cbn [filter].
  destruct (f x) eqn:F; cbn [negb]; [exact IH|]. cbn [find]. rewrite F. exact IH.
Qed.

(** X26.  [delete] on a post with an id runs its DELETE and then fails
    on [result.changes]: it never returns its boolean.  The rows with
    that id are gone all the same: afterwards no post is found under
    the id, the posts with other ids are found as before, and no slug
    that was free is taken. *)
Theorem delete_then_find (this : Post) (id : nat) (w : World) :
  p_id this = Some id ->
  id <> 0 ->
  let w' := snd (delete this w) in
  fst (delete this w) = Throw (undefinedProperty "changes") /\
  rows (db w') = filter (fun r => negb (r_id r =? id)) (rows (db w)) /\
  findById id w' = (Ok None, w') /\
  (forall other, other <> id -> fst (findById other w') = fst (findById other w)) /\
  (forall slug, fst (findBySlug slug w) = Ok None -> fst (findBySlug slug w') = Ok None).
Proof.
  intros P N. cbn zeta. unfold delete. rewrite P. destruct id as [|n]; [contradiction|].
  set (id := S n) in *. unfold bind, deleteRow, liftR. cbn [changesOf fst snd].
  split; [reflexivity|]. split; [reflexivity|]. split; [|split].
  - unfold findById. replace (id =? 0) with false by reflexivity.
    cbn [db rows]. rewrite (find_none_filtered (fun r => r_id r =? id)). reflexivity.
  - intros other O. unfold findById. destruct (other =? 0); [reflexivity|].
    cbn [fst db rows]. rewrite find_filter; [reflexivity|].
    intros r E. apply Nat.eqb_eq in E. apply negb_true_iff, Nat.eqb_neq. lia.
  - intros slug. unfold findBySlug. destruct (isBlank slug); [reflexivity|].
    cbn [fst db rows]. destruct (find (hasSlug (trim slug)) (rows (db w))) eqn:F;
      [discriminate|]. intros _. rewrite find_filter_none by exact F. reflexivity.
Qed.

Lemma delete_then_find_witness :
  let this := newPost (postOfRow Scenarios.helloRow) in
  let w' := snd (delete this Scenarios.helloWorld) in
  fst (delete this Scenarios.helloWorld) = Throw (undefinedProperty "changes") /\
  rows (db w') = filter (fun r => negb (r_id r =? 1)) (rows (db Scenarios.helloWorld)) /\
  findById 1 w' = (Ok None, w') /\
  (forall other, other <> 1 ->
     fst (findById other w') = fst (findById other Scenarios.helloWorld)) /\
  (forall slug, fst (findBySlug slug Scenarios.helloWorld) = Ok None ->
     fst (findBySlug slug w') = Ok None).
Proof.
  apply (@delete_then_find (newPost (postOfRow Scenarios.helloRow)) 1 Scenarios.helloWorld).
  - reflexivity.
  - discriminate.
Defined.

Example delete_hello :
  let out := delete (newPost (postOfRow Scenarios.helloRow)) Scenarios.helloWorld in
  fst out = Throw (mkExn (lit "TypeError")
                         (lit "Cannot read properties of undefined (reading 'changes')")
                         None) /\
  rows (db (snd out)) = [].
Proof. vm_compute. split; reflexivity. Qed.

End PostQueryFacts.

(** ** [update] and [generateUniqueSlug] of the post model *)

Module PostUpdateFacts.

Import PostModel PostQueries Notions Terms PostFacts ClassFacts SlugFacts
       SlugExtractFacts ExtractorFacts SimpleSlugFacts PostQueryFacts.

Lemma updateRows_spec (now : str) (updateData : UpdateData) (id : nat) (rs : list Row) :
  forall rs', updateRows now updateData id rs = Some rs' ->
              Forall2 (updatedFrom now updateData id) rs rs'.
Proof.
  induction rs as [|r rs IH]; intros rs' H; cbn [updateRows] in H.
  - injection H as <-. constructor.
  - destruct (r_id r =? id) eqn:E.
    + destruct (updateRow now updateData r) as [r'|] eqn:U; [|discriminate H].
      destruct (updateRows now updateData id rs) as [rest|]; [|discriminate H].
      injection H as <-. constructor; [|apply IH; reflexivity].
      unfold updateRow in U. unfold updatedFrom. rewrite E.
      destruct (u_title updateData) as [| |t]; cbn [written] in U; try discriminate U;
        destruct (u_description updateData) as [| |d]; cbn [written] in U;
        try discriminate U;
        destruct (u_html_content updateData) as [| |h]; cbn [written] in U;
        try discriminate U;
        injection U as <-; cbn; repeat split; reflexivity.
    + destruct (updateRows now updateData id rs) as [rest|]; [|discriminate H].
      injection H as <-. constructor; [|apply IH; reflexivity].
      unfold updatedFrom. rewrite E. repeat split; reflexivity.
Qed.

Lemma updatedFrom_untouched (now : str) (updateData : UpdateData) (id : nat)
  (rs rs' : list Row) :
  Forall2 (updatedFrom now updateData id) rs rs' ->
  find (fun r => r_id r =? id) rs' = None ->
  rs' = rs.
Proof.
  induction 1 as [|r r' rs rs' U _ IH]; [reflexivity|]. cbn [find].
  destruct U as (I & _ & _ & _ & _ & U). rewrite I.
  destruct (r_id r =? id); [discriminate|]. intro F. subst r'. rewrite (IH F). reflexivity.
Qed.

(** X27.  When [update] fails it leaves the table as it was.  When it
    succeeds, every row keeps its id, slug, author and creation time;
    the rows of other posts are untouched; the row of the post has each
    given field replaced, the others kept, and the current time as
    time of update; and the post returned is that row. *)
Theorem update_contract (now : str) (this : Post) (updateData : UpdateData) (w : World) :
  let out := update now this updateData w in
  match fst out with
  | Ok post =>
      exists id row,
        p_id this = Some id /\
        Forall2 (updatedFrom now updateData id) (rows (db w)) (rows (db (snd out))) /\
        lastId (db (snd out)) = lastId (db w) /\
        In row (rows (db (snd out))) /\
        r_id row = id /\
        post = newPost (postOfRow row)
  | Throw _ => db (snd out) = db w
  end.
Proof.
  cbn zeta. unfold update.
  destruct (p_id this) as [[|n]|]; try reflexivity.
  destruct (negb (given (u_title updateData) || given (u_description updateData)
                  || given (u_html_content updateData))); [reflexivity|].
  cbn zeta. destruct (0 <? length (validate _)); [reflexivity|].
  destruct (updateRows now updateData (S n) (rows (db w))) as [rows'|] eqn:U;
    [|reflexivity].
  pose proof (updateRows_spec _ _ _ _ U) as F.
  destruct (find (fun r => r_id r =? S n) rows') as [row|] eqn:Fd; cbn [fst snd db rows lastId].
  - exists (S n), row. split; [reflexivity|]. split; [exact F|]. split; [reflexivity|].
    apply find_some in Fd as [I E]. apply Nat.eqb_eq in E.
    repeat split; assumption.
  - rewrite (updatedFrom_untouched F Fd). destruct (db w); reflexivity.
Qed.

Example update_title :
  fst (update (lit "2025-02-01 10:00:00") (newPost (postOfRow Scenarios.helloRow))
         (mkUpdateData (Value (lit "Hello!")) Absent Absent) Scenarios.helloWorld)
  = Ok (mkPost (Some 1) (Some (lit "hello")) (Some (lit "Hello!"))
               (Some (lit "A greeting")) (Some (lit "<p>Hello</p>"))
               (Some (lit "u0")) (Some (lit "user zero"))
               (Some (lit "2025-01-13 09:00:00")) (Some (lit "2025-02-01 10:00:00"))).
Proof. vm_compute. reflexivity. Qed.

(** Decimal numerals. *)
Lemma string_of_uint_digits (d : Decimal.uint) :
  Forall (fun c => isDigit c = true) (lit (NilEmpty.string_of_uint d)).
Proof.
  induction d; cbn [NilEmpty.string_of_uint lit list_ascii_of_string];
    constructor; try reflexivity; try assumption.
Qed.

Lemma decimal_digits (n : nat) : Forall (fun c => isDigit c = true) (decimal n).
Proof.
  unfold decimal, NilZero.string_of_uint.
  destruct (Nat.to_uint n); try apply string_of_uint_digits.
  repeat constructor.
Qed.

Lemma to_uint_not_nil (n : nat) : Nat.to_uint n <> Decimal.Nil.
Proof.
  intro E. pose proof (DecimalNat.Unsigned.of_to n) as H. rewrite E in H.
  cbn in H. subst n. discriminate E.
Qed.

Lemma decimal_inj (n n' : nat) : decimal n = decimal n' -> n = n'.
Proof.
  unfold decimal, lit. intro E.
  apply (f_equal string_of_list_ascii) in E.
  rewrite !string_of_list_ascii_of_string in E.
  apply (f_equal NilZero.uint_of_string) in E.
  rewrite !NilZero.usu in E by apply to_uint_not_nil.
  injection E as E. apply DecimalNat.Unsigned.to_uint_inj, E.
Qed.

Lemma digit_simple (c : ascii) : isDigit c = true -> simple c.
Proof. unfold simple, simpleChar. intros ->. rewrite orb_true_r. reflexivity. Qed.

Lemma numbered_simple (baseSlug : str) (n : nat) :
  Forall simple baseSlug -> test Grok.re_simple_slug (numbered baseSlug n) = true.
Proof.
  intro F. apply test_simple_intro.
  - unfold numbered. destruct baseSlug; discriminate.
  - unfold numbered. apply Forall_app. split; [exact F|].
    apply Forall_app. split; [apply simple_dash|].
    eapply Forall_impl; [|apply decimal_digits]. exact digit_simple.
Qed.

Lemma numbered_inj (baseSlug : str) (n n' : nat) :
  numbered baseSlug n = numbered baseSlug n' -> n = n'.
Proof.
  unfold numbered. intro E. apply app_inv_head in E. apply app_inv_head in E.
  apply decimal_inj, E.
Qed.

Lemma NoDup_numbered (baseSlug : str) (k : nat) :
  forall from, NoDup (map (numbered baseSlug) (seq from k)).
Proof.
  induction k as [|k IH]; intro from; cbn [seq map]; constructor; [|apply IH].
  intro I. apply in_map_iff in I as (j & E & I). apply numbered_inj in E. subst j.
  apply in_seq in I. lia.
Qed.

(** The base slug is made of small letters, digits and hyphens. *)
Lemma baseSlugOf_simple (title : str) :
  baseSlugOf title <> [] /\ Forall simple (baseSlugOf title).
Proof.
  unfold baseSlugOf. cbn zeta. rewrite !replace_all_plus. unfold replace_all, collapse.
  rewrite RegexFacts.replace_go_chr.
  set (s1 := flat_map _ (toLowerCase title)).
  set (s3 := collapse_go (eqc "-") (lit "-") false (collapse_go isSpace (lit "-") false s1)).
  assert (F1 : Forall (fun c => isSpace c = false -> simple c) s1).
  { subst s1. generalize (toLowerCase title) as l.
    induction l as [|c l IH]; cbn [flat_map]; [constructor|].
    destruct (negb (isLower c || isDigit c || isSpace c || eqc "-" c)) eqn:E;
      unfold const_; cbn [app]; [exact IH|].
    constructor; [|exact IH]. intro S. apply negb_false_iff in E.
    unfold simple, simpleChar. rewrite S, orb_false_r in E. exact E. }
  assert (F3 : Forall simple s3).
  { subst s3. apply collapse_go_Forall; [apply simple_dash|].
    apply collapse_go_class; [apply simple_dash|exact F1]. }
  clearbody s3. clear F1 s1.
  pose proof (trim_Forall F3) as F4.
  destruct (trim s3) as [|c t]; cbn [blank].
  - split; [discriminate|repeat constructor].
  - split; [discriminate|exact F4].
Qed.

(** The loop either finds a free candidate, or runs out of fuel with
    every candidate it saw taken. *)
Lemma uniqueLoop_search (baseSlug : str) (w : World) (fuel : nat) :
  Forall simple baseSlug ->
  forall counter,
    (exists n, counter <= n < counter + fuel /\
               uniqueLoop fuel baseSlug counter w = (Ok (Some (numbered baseSlug n)), w) /\
               existsb (hasSlug (numbered baseSlug n)) (rows (db w)) = false /\
               forall j, counter <= j < n ->
                 existsb (hasSlug (numbered baseSlug j)) (rows (db w)) = true) \/
    (uniqueLoop fuel baseSlug counter w = (Ok None, w) /\
     forall j, counter <= j < counter + fuel ->
       existsb (hasSlug (numbered baseSlug j)) (rows (db w)) = true).
Proof.
  intro F. induction fuel as [|fuel IH]; intro counter.
  - right. split; [reflexivity|]. intros j H. lia.
  - cbn [uniqueLoop]. fold (numbered baseSlug counter).
    unfold bind. rewrite (@isSlugAvailable_simple _ w (numbered_simple counter F)).
    destruct (existsb (hasSlug (numbered baseSlug counter)) (rows (db w))) eqn:E;
      cbn [negb].
    + destruct (IH (counter + 1)) as [(n & R & U & A & T)|[U T]].
      * left. exists n. split; [lia|]. split; [exact U|]. split; [exact A|].
        intros j H. destruct (Nat.eq_dec j counter) as [->|Nj]; [exact E|apply T; lia].
      * right. split; [exact U|]. intros j H.
        destruct (Nat.eq_dec j counter) as [->|Nj]; [exact E|apply T; lia].
    + left. exists counter. split; [lia|]. split; [reflexivity|]. split; [exact E|].
      intros j H. lia.
Qed.

(** X28.  [Post.generateUniqueSlug] terminates on every table: for a
    title that is not blank it returns, after at most as many numbered
    candidates as there are rows plus one, a slug that is available,
    matches [/^[a-z0-9-]+$/], and is the base slug or the base slug
    with the first free number, counted from 1. *)
Theorem generateUniqueSlug_available (title : str) (w : World) (fuel : nat) :
  isBlank title = false ->
  length (rows (db w)) < fuel ->
  exists slug,
    generateUniqueSlug_fuel fuel title w = (Ok (Some slug), w) /\
    isSlugAvailable slug w = (Ok true, w) /\
    test Grok.re_simple_slug slug = true /\
    (slug = baseSlugOf title \/
     exists n, 1 <= n /\
               slug = numbered (baseSlugOf title) n /\
               forall j, 1 <= j < n ->
                 isSlugAvailable (numbered (baseSlugOf title) j) w = (Ok false, w)).
Proof.
  intros B L. unfold generateUniqueSlug_fuel. rewrite B. cbn zeta.
  destruct (baseSlugOf_simple title) as [N F].
  set (baseSlug := baseSlugOf title) in *.
  pose proof (test_simple_intro N F) as T.
  unfold bind. rewrite (@isSlugAvailable_simple _ w T).
  destruct (existsb (hasSlug baseSlug) (rows (db w))) eqn:E; cbn [negb].
  - destruct (uniqueLoop_search w fuel F 1) as [(n & R & U & A & Tk)|[U Tk]].
    + exists (numbered baseSlug n). split; [exact U|].
      rewrite (@isSlugAvailable_simple _ w (numbered_simple n F)), A.
      split; [reflexivity|]. split; [apply numbered_simple, F|].
      right. exists n. split; [lia|]. split; [reflexivity|]. intros j H.
      rewrite (@isSlugAvailable_simple _ w (numbered_simple j F)), (Tk j H). reflexivity.
    + exfalso.
      assert (I : incl (map (numbered baseSlug) (seq 1 fuel)) (map r_slug (rows (db w)))).
      { intros s Is. apply in_map_iff in Is as (j & <- & Ij). apply in_seq in Ij.
        apply existsb_hasSlug. apply Tk. lia. }
      pose proof (NoDup_incl_length (NoDup_numbered baseSlug fuel 1) I) as Len.
      rewrite !length_map, length_seq in Len. lia.
  - exists baseSlug. split; [reflexivity|].
    rewrite (@isSlugAvailable_simple _ w T), E.
    split; [reflexivity|]. split; [exact T|]. left. reflexivity.
Qed.

Lemma generateUniqueSlug_available_witness :
  exists slug,
    generateUniqueSlug_fuel 2 (lit "Hello") Scenarios.helloWorld
      = (Ok (Some slug), Scenarios.helloWorld) /\
    isSlugAvailable slug Scenarios.helloWorld = (Ok true, Scenarios.helloWorld) /\
    test Grok.re_simple_slug slug = true /\
    (slug = baseSlugOf (lit "Hello") \/
     exists n, 1 <= n /\
               slug = numbered (baseSlugOf (lit "Hello")) n /\
               forall j, 1 <= j < n ->
                 isSlugAvailable (numbered (baseSlugOf (lit "Hello")) j) Scenarios.helloWorld
                 = (Ok false, Scenarios.helloWorld)).
Proof.
  apply (@generateUniqueSlug_available (lit "Hello") Scenarios.helloWorld 2).
  - reflexivity.
  - cbn. lia.
Defined.

Example generateUniqueSlug_hello :
  fst (generateUniqueSlug_fuel 2 (lit "Hello") Scenarios.helloWorld)
  = Ok (Some (lit "hello-1")).
Proof. vm_compute. reflexivity. Qed.

End PostUpdateFacts.
